(** * Country-Currency-Exchange API: the refresh pipeline and the store queries

    A shallow embedding of [src/countries/countries.service.ts]
    (class [CountriesService]) and of the entity it persists
    ([src/countries/entities/country.entity.ts]).

    Conventions of the embedding.
    - A JavaScript number is the rational it denotes ([Q]); the result of
      an arithmetic operation is rounded to the nearest double
      ([binary64]).  Values decoded from JSON are finite, the sign of zero
      is not tracked, and a result from 2^1024 on (Infinity on the
      machine) is outside the model.  [parseInt] returns [None] for NaN.
    - Strings are sequences of code units below 256 (Latin-1).
    - [exchangeRates] is a finite map for its own properties; reading a
      key also finds the members of [Object.prototype].
    - The collation of the [name] column is a parameter of the table: the
      sources leave it to the database server.
    - [Math.random()], the faults of the database and of the file system
      are read from an explicit environment. *)

From Stdlib Require Import ZArith QArith Qround Qabs Qpower Ascii String Lia Lqa.
From Stdlib Require Import Sorted.
From stdpp Require Import base option list strings gmap.

Local Open Scope string_scope.
Local Open Scope list_scope.
Local Open Scope Z_scope.

(** ** JavaScript values and the built-ins the service calls *)

Module JS.

#[local] Set Warnings "-register-all".

(** A value decoded from JSON, plus [undefined] for a missing property. *)
Inductive JsValue : Type :=
  | JUndefined
  | JNull
  | JBool (b : bool)
  | JNum (x : Q)
  | JStr (s : string)
  | JArr (xs : list JsValue)
  | JObj (fields : list (string * JsValue)).

(** ToBoolean. *)
Definition truthy (v : JsValue) : bool :=
  match v with
  | JUndefined | JNull => false
  | JBool b => b
  | JNum x => negb (Qeq_bool x 0)
  | JStr s => negb (String.eqb s "")
  | JArr _ | JObj _ => true
  end.

(** [typeof v === 'string'] *)
Definition is_string (v : JsValue) : bool :=
  match v with JStr _ => true | _ => false end.

(** A property that may be missing ([undefined]), [null], or hold a
    value. *)
Inductive Optional (A : Type) : Type :=
  | Undefined
  | Null
  | Value (a : A).
Arguments Undefined {A}.
Arguments Null {A}.
Arguments Value {A} a.

(** Truthiness of a string-or-null value ([None] is null/undefined). *)
Definition truthy_str (o : option string) : bool :=
  match o with
  | Some s => negb (String.eqb s "")
  | None => false
  end.

(** [o || d] on a string-or-null value. *)
Definition or_str (o : option string) (d : string) : string :=
  match o with
  | Some s => if String.eqb s "" then d else s
  | None => d
  end.

(** [o || null] on a string-or-null value. *)
Definition or_null (o : option string) : option string :=
  if truthy_str o then o else None.

Definition char_code (a : ascii) : Z := Z.of_N (N_of_ascii a).

(** White space of [String.prototype.trim] and of [parseInt]: TAB, LF, VT,
    FF, CR, SP and NBSP. *)
Definition is_whitespace (a : ascii) : bool :=
  let n := char_code a in
  ((9 <=? n) && (n <=? 13)) || (n =? 32) || (n =? 160).

Fixpoint trimStart (s : string) : string :=
  match s with
  | EmptyString => EmptyString
  | String a s' => if is_whitespace a then trimStart s' else s
  end.

Fixpoint trimEnd (s : string) : string :=
  match s with
  | EmptyString => EmptyString
  | String a s' =>
      let t := trimEnd s' in
      if is_whitespace a && String.eqb t "" then EmptyString else String a t
  end.

Definition trim (s : string) : string := trimEnd (trimStart s).

(** The capital letters among the code units below 256: A-Z, and the
    Latin-1 letters from 192 to 222 without the multiplication sign. *)
Definition is_upper (a : ascii) : bool :=
  let n := char_code a in
  ((65 <=? n) && (n <=? 90))
  || ((192 <=? n) && (n <=? 222) && negb (n =? 215)).

(** The lower-case letter is 32 code units above its capital. *)
Definition lower_char (a : ascii) : ascii :=
  if is_upper a then ascii_of_N (N_of_ascii a + 32) else a.

Fixpoint toLowerCase (s : string) : string :=
  match s with
  | EmptyString => EmptyString
  | String a s' => String (lower_char a) (toLowerCase s')
  end.

(** [s.includes(sub)]: [sub] occurs in [s] as a contiguous substring. *)
Fixpoint includes (s sub : string) : bool :=
  String.prefix sub s
  || match s with
     | EmptyString => false
     | String _ s' => includes s' sub
     end.

(** *** parseInt *)

Definition is_digit (a : ascii) : bool :=
  (48 <=? char_code a) && (char_code a <=? 57).

Definition digit_val (radix : Z) (a : ascii) : option Z :=
  let n := char_code a in
  let d := if (48 <=? n) && (n <=? 57) then Some (n - 48)
           else if (97 <=? n) && (n <=? 122) then Some (n - 87)
           else if (65 <=? n) && (n <=? 90) then Some (n - 55)
           else None in
  match d with
  | Some v => if v <? radix then Some v else None
  | None => None
  end.

(** The longest prefix of radix digits, as a number; [acc] is [None] while
    no digit has been read. *)
Fixpoint parse_digits (radix : Z) (acc : option Z) (s : string) : option Z :=
  match s with
  | EmptyString => acc
  | String a s' =>
      match digit_val radix a with
      | Some d =>
          parse_digits radix
            (Some (match acc with Some v => v * radix + d | None => d end)) s'
      | None => acc
      end
  end.

(** [parseInt(s)] with no radix argument: skip white space, read a sign,
    read a [0x]/[0X] prefix (radix 16), then the digits. *)
Definition parseInt_str (s : string) : option Z :=
  let s1 := trimStart s in
  let '(sign, s2) :=
    match s1 with
    | String a r =>
        if Ascii.eqb a "-" then (-1, r)
        else if Ascii.eqb a "+" then (1, r)
        else (1, s1)
    | EmptyString => (1, s1)
    end in
  let '(radix, s3) :=
    match s2 with
    | String a (String b r) =>
        if Ascii.eqb a "0" && (Ascii.eqb b "x" || Ascii.eqb b "X")
        then (16, r)
        else (10, s2)
    | _ => (10, s2)
    end in
  match parse_digits radix None s3 with
  | Some n => Some (sign * n)
  | None => None
  end.

Fixpoint leading_digit_int (fuel : nat) (n : Z) : Z :=
  match fuel with
  | O => n
  | S f => if n <? 10 then n else leading_digit_int f (n / 10)
  end.

Fixpoint leading_digit_frac (fuel : nat) (x : Q) : Z :=
  match fuel with
  | O => Qfloor x
  | S f => if Qle_bool 1 x then Qfloor x else leading_digit_frac f (x * 10)
  end.

(** First significant decimal digit of a positive rational. *)
Definition leading_digit (a : Q) : Z :=
  if Qle_bool 1 a
  then leading_digit_int (Z.to_nat (Z.log2 (Qfloor a))) (Qfloor a)
  else leading_digit_frac (S (Z.to_nat (Z.log2 (Zpos (Qden a))))) a.

Definition pow10_21 : Q := inject_Z (10 ^ 21).

(** [parseInt(x)] for a number [x] goes through [String(x)].  For
    [1e-6 <= |x| < 1e21] the string is in decimal notation and the result
    is the integer part; outside it is in exponent notation
    ([d.ddde+NN]) and only the leading digit is read. *)
Definition parseInt_num (x : Q) : option Z :=
  if Qeq_bool x 0 then Some 0
  else
    let a := Qabs x in
    if Qle_bool (1 # 1000000) a && negb (Qle_bool pow10_21 a)
    then Some (Z.quot (Qnum x) (Zpos (Qden x)))
    else Some (Z.sgn (Qnum x) * leading_digit a).

(** [parseInt(v)]: [v] is first converted with ToString.  An array prints
    as its elements joined by commas ([null] and [undefined] print as the
    empty string), so only its first element can contribute digits. *)
Fixpoint parseInt (v : JsValue) : option Z :=
  match v with
  | JUndefined => parseInt_str "undefined"
  | JNull => parseInt_str "null"
  | JBool b => parseInt_str (if b then "true" else "false")
  | JNum x => parseInt_num x
  | JStr s => parseInt_str s
  | JObj _ => parseInt_str "[object Object]"
  | JArr [] => parseInt_str ""
  | JArr (e :: _) =>
      match e with
      | JUndefined | JNull => parseInt_str ""
      | _ => parseInt e
      end
  end.

(** [n || 0] on the result of [parseInt]: NaN and 0 are falsy. *)
Definition or_zero (n : option Z) : Z :=
  match n with
  | Some k => k
  | None => 0
  end.

(** *** Arithmetic on doubles *)

(** [floor (log2 a)] for a positive [a]. *)
Definition ilog2 (a : Q) : Z :=
  let k := Z.log2 (Qnum a) - Z.log2 (Zpos (Qden a)) in
  if Qle_bool (2 ^ k) a then k else k - 1.

(** The integer nearest to [y], the even one of the two on a tie. *)
Definition roundEven (y : Q) : Z :=
  let f := Qfloor y in
  match (y - inject_Z f ?= 1 # 2)%Q with
  | Lt => f
  | Gt => f + 1
  | Eq => if Z.even f then f else f + 1
  end.

(** The exponent of the last bit of a significand of 53 bits for the
    positive number [a]; it stops at -1074, where the subnormal numbers
    begin. *)
Definition ulpExponent (a : Q) : Z := Z.max (ilog2 a - 52) (-1074).

(** The double nearest to [x], ties to the even significand: the
    rounding every arithmetic operation and [parseFloat] end with. *)
Definition binary64 (x : Q) : Q :=
  if Qeq_bool x 0 then 0%Q
  else
    let a := Qabs x in
    let e := ulpExponent a in
    Qred (inject_Z (Z.sgn (Qnum x) * roundEven (a / 2 ^ e)) * 2 ^ e).

(** *** toFixed and parseFloat *)

(** [parseFloat(x.toFixed(2))] for a double [x].  [toFixed] prints the
    sign and then the integer [n] for which [n / 100] is nearest to [|x|],
    the larger one on a tie; from [1e21] on it prints the number itself.
    [parseFloat] reads the digits back as the nearest double. *)
Definition toFixed2 (x : Q) : Q :=
  let a := Qabs x in
  if Qle_bool pow10_21 a then x
  else
    let n := Qfloor (a * 100 + (1 # 2)) in
    binary64 (inject_Z (Z.sgn (Qnum x) * n) / 100).

End JS.

Import JS.

(** ** Data model *)

(** One entry of the [currencies] array of a source record, by its
    [code] property.  The entries are objects: a [null] entry, on which
    reading [code] throws, is not among the inputs. *)
Record Currency : Type := { code : Optional string }.

(** What the variable [exchangeRate] can hold: [null], a number of the
    mapping, or the member of [Object.prototype] found under the key. *)
Inductive RateValue : Type :=
  | RateNull
  | RateNumber (x : Q)
  | RateInherited (key : string).

(** A record of the countries API.  Text properties are a string or
    missing/null ([None]); [population] is whatever JSON value was sent;
    [currencies] is an array or [None] when missing, null or not an
    array. *)
Record RawCountry : Type := {
  raw_name : option string;
  raw_capital : option string;
  raw_region : option string;
  raw_population : JsValue;
  raw_flag : option string;
  raw_currencies : option (list Currency)
}.

(** The object literal [countryData]; [currency_code] is the only
    property that can be [undefined]. *)
Record CountryData : Type := {
  name : string;
  capital : option string;
  region : string;
  population : Z;
  currency_code : Optional string;
  exchange_rate : RateValue;
  estimated_gbp : Q;
  flag_url : option string
}.

(** The entity [Country]: generated key, columns, update timestamp.  The
    columns hold the values as handed to the ORM; the limits and rounding
    of the SQL column types are not part of the model. *)
Record Country : Type := {
  id : Z;
  fields : CountryData;
  last_refreshed_at : Z
}.

(** The table behind [countryRepository]: rows in insertion order, the
    next AUTO_INCREMENT value, the clock of the database, and the
    collation of the [name] column.  The collation is given by the weight
    string it assigns to a name: the database takes two names as equal
    when their weights are equal.  The sources do not set it; the default
    of a MySQL server is case-insensitive. *)
Record Repository : Type := {
  rows : list Country;
  next_id : Z;
  now : Z;
  weight : string -> string
}.

(** The file [cache/summary.png], by the data it is rendered from. *)
Record Artifact : Type := {
  total_countries : nat;
  top_countries : list Country
}.

(** Observable actions of the service, in the order they happen. *)
Inductive Event : Type :=
  | FetchCountries
  | FetchRates
  | RateLookup (key : string)
  | RandomDraw
  | FindOne (nm : string)
  | Update (row_id : Z)
  | Save (nm : string)
  | GenerateSummary.

Inductive RefreshError : Type :=
  | ExternalAPIError (details : string)
  | SaveFailed (message : string).

Inductive QueryError : Type :=
  | ValidationError
  | NotFoundError.

(** What the service runs against: the answers of the two external APIs
    ([None] when [axios.get] rejects), the successive values of
    [Math.random()], the error raised by the write for the record at a
    given position of the source list (a write does not go through, for
    one, when the rate it carries is a member of [Object.prototype]), and
    the error raised inside summary generation. *)
Record Env : Type := {
  countries_response : option (list RawCountry);
  rates_response : option (option (gmap string Q));
  random : nat -> Q;
  write_fault : nat -> option string;
  summary_fault : option string
}.

Record State : Type := {
  repo : Repository;
  draws : nat;
  cache : option Artifact;
  log : list Event
}.

(** ** Record transformer (the body of the loop up to [countryData]) *)

Definition hasCurrency (c : RawCountry) : bool :=
  match raw_currencies c with
  | Some (_ :: _) => true
  | _ => false
  end.

(** [c.currencies[0].code], read only when [hasCurrency] holds. *)
Definition firstCode (c : RawCountry) : Optional string :=
  match raw_currencies c with
  | Some (first :: _) => code first
  | _ => Null
  end.

(** The property names of [Object.prototype]. *)
Definition objectPrototype : list string :=
  [ "constructor"; "__defineGetter__"; "__defineSetter__"; "hasOwnProperty";
    "__lookupGetter__"; "__lookupSetter__"; "isPrototypeOf";
    "propertyIsEnumerable"; "toString"; "valueOf"; "__proto__";
    "toLocaleString" ].

Definition inherited (k : string) : bool :=
  existsb (String.eqb k) objectPrototype.

(** [exchangeRates[k]]: the own property, else the member the prototype
    chain gives, else [undefined] (here [RateNull]). *)
Definition getRate (exchangeRates : gmap string Q) (k : string) : RateValue :=
  match exchangeRates !! k with
  | Some v => RateNumber v
  | None => if inherited k then RateInherited k else RateNull
  end.

(** The [if (hasCurrency)] block: [currencyCode], [exchangeRate] and the
    keys read from [exchangeRates], in order (the key is read once by the
    test and once more by the assignment).  A member of
    [Object.prototype] is a function or an object, hence truthy. *)
Definition resolveCurrency (exchangeRates : gmap string Q) (c : RawCountry)
  : Optional string * RateValue * list string :=
  if hasCurrency c then
    let currencyCode := firstCode c in
    match currencyCode with
    | Value k =>
        if String.eqb k "" then (currencyCode, RateNull, [])
        else
          match getRate exchangeRates k with
          | RateNumber v =>
              if Qeq_bool v 0 then (currencyCode, RateNull, [k])
              else (currencyCode, RateNumber v, [k; k])
          | RateInherited m => (currencyCode, RateInherited m, [k; k])
          | RateNull => (currencyCode, RateNull, [k])
          end
    | _ => (currencyCode, RateNull, [])
    end
  else (Null, RateNull, []).

(** [c.name || 'Unknown'] *)
Definition countryName (c : RawCountry) : string :=
  or_str (raw_name c) "Unknown".

(** [parseInt(c.population) || 0] *)
Definition populationOf (c : RawCountry) : Z :=
  or_zero (parseInt (raw_population c)).

(** [population > 0 && exchangeRate && exchangeRate > 0]; a member of
    [Object.prototype] converts to NaN, which is not above 0. *)
Definition estimable (population : Z) (exchangeRate : RateValue) : bool :=
  (0 <? population)
  && match exchangeRate with
     | RateNumber x => negb (Qeq_bool x 0) && negb (Qle_bool x 0)
     | _ => false
     end.

(** [Math.random() * 1000 + 1000] *)
Definition randomMultiplier (r : Q) : Q :=
  binary64 (binary64 (r * 1000) + 1000).

(** [(population * m) / x] for the multiplier [m] and the rate [x]. *)
Definition scaled (population : Z) (m x : Q) : Q :=
  binary64 (binary64 (binary64 (inject_Z population) * m) / x).

(** [estimatedGbp] before [toFixed]; [r] is the value of [Math.random()]. *)
Definition estimatedGbp (population : Z) (exchangeRate : RateValue) (r : Q) : Q :=
  match exchangeRate with
  | RateNumber x =>
      if estimable population exchangeRate
      then scaled population (randomMultiplier r) x
      else 0%Q
  | _ => 0%Q
  end.

(** [transform rates r c] is [countryData] together with the actions the
    block performs; [r] is consumed only when [RandomDraw] is among them. *)
Definition transform (exchangeRates : gmap string Q) (r : Q) (c : RawCountry)
  : CountryData * list Event :=
  let '(currencyCode, exchangeRate, lookups) := resolveCurrency exchangeRates c in
  let population := populationOf c in
  let drew := estimable population exchangeRate in
  ({| name := countryName c;
      capital := or_null (raw_capital c);
      region := or_str (raw_region c) "Unknown";
      population := population;
      currency_code := currencyCode;
      exchange_rate := exchangeRate;
      estimated_gbp := toFixed2 (estimatedGbp population exchangeRate r);
      flag_url := or_null (raw_flag c) |},
   (RateLookup <$> lookups) ++ (if drew then [RandomDraw] else [])).

(** ** The repository ([Repository<Country>] over the SQL table) *)

Inductive Result (E A : Type) : Type :=
  | Ok (a : A)
  | Err (e : E).
Arguments Ok {E A} a.
Arguments Err {E A} e.

(** [WHERE name = nm] on one row: equality under the collation. *)
Definition name_is (rp : Repository) (nm : string) (r : Country) : bool :=
  String.eqb (weight rp (name (fields r))) (weight rp nm).

(** [findOne({ where: { name } })]: the first row the comparison
    accepts. *)
Definition findOne (nm : string) (rp : Repository) : option Country :=
  List.find (name_is rp nm) (rows rp).

(** The columns of a row after an UPDATE with [d]: a property that is
    [undefined] is left out of the statement, so the column keeps its
    value. *)
Definition merged (old d : CountryData) : CountryData :=
  {| name := name d;
     capital := capital d;
     region := region d;
     population := population d;
     currency_code :=
       match currency_code d with
       | Undefined => currency_code old
       | v => v
       end;
     exchange_rate := exchange_rate d;
     estimated_gbp := estimated_gbp d;
     flag_url := flag_url d |}.

(** The columns of the row an INSERT of [d] creates: a property that is
    [undefined] is left out, and the column takes its default, NULL. *)
Definition stored (d : CountryData) : CountryData :=
  {| name := name d;
     capital := capital d;
     region := region d;
     population := population d;
     currency_code :=
       match currency_code d with
       | Undefined => Null
       | v => v
       end;
     exchange_rate := exchange_rate d;
     estimated_gbp := estimated_gbp d;
     flag_url := flag_url d |}.

(** [update(id, countryData)]: the columns of [countryData] and the update
    timestamp of the row with that key. *)
Definition update (rid : Z) (d : CountryData) (rp : Repository) : Repository :=
  {| rows :=
       (fun r =>
          if Z.eqb (id r) rid
          then {| id := id r; fields := merged (fields r) d;
                  last_refreshed_at := now rp |}
          else r) <$> rows rp;
     next_id := next_id rp;
     now := now rp + 1;
     weight := weight rp |}.

(** [save(countryData)] of an object without a key: INSERT. *)
Definition save (d : CountryData) (rp : Repository) : Repository :=
  {| rows :=
       rows rp ++ [ {| id := next_id rp; fields := stored d;
                       last_refreshed_at := now rp |} ];
     next_id := next_id rp + 1;
     now := now rp + 1;
     weight := weight rp |}.

(** [remove(entities)]: DELETE by primary key. *)
Definition remove (entities : list Country) (rp : Repository) : Repository :=
  {| rows :=
       List.filter
         (fun r => negb (existsb (Z.eqb (id r)) (id <$> entities))) (rows rp);
     next_id := next_id rp;
     now := now rp;
     weight := weight rp |}.

(** SQL [LIKE] with the default escape character: [%] matches any run of
    characters, [_] any one character, a backslash makes the next
    character literal (and stands for itself at the end of the pattern).
    A literal character is compared exactly; this is the comparison of
    the database on lower-cased text of printable ASCII characters,
    whatever the case and accent rules of the collation. *)
Fixpoint like (pat : string) : string -> bool :=
  match pat with
  | EmptyString =>
      fun s => match s with EmptyString => true | _ => false end
  | String p pat' =>
      if Ascii.eqb p "%" then
        fix any (s : string) : bool :=
          like pat' s
          || match s with
             | EmptyString => false
             | String _ s' => any s'
             end
      else if Ascii.eqb p "_" then
        fun s =>
          match s with
          | EmptyString => false
          | String _ s' => like pat' s'
          end
      else if Ascii.eqb p "\" then
        match pat' with
        | EmptyString =>
            fun s =>
              match s with
              | String a EmptyString => Ascii.eqb a "\"
              | _ => false
              end
        | String q pat'' =>
            fun s =>
              match s with
              | EmptyString => false
              | String a s' => Ascii.eqb a q && like pat'' s'
              end
        end
      else
        fun s =>
          match s with
          | EmptyString => false
          | String a s' => Ascii.eqb a p && like pat' s'
          end
  end.

(** [where('LOWER(country.name) LIKE :name', { name: `%${...}%` })] *)
Definition likePattern (nm : string) : string :=
  ("%" ++ trim (toLowerCase nm) ++ "%")%string.

Definition selected (nm : string) (r : Country) : bool :=
  like (likePattern nm) (toLowerCase (name (fields r))).

Definition getMany (nm : string) (rp : Repository) : list Country :=
  List.filter (selected nm) (rows rp).

(** ** The service *)

(** The guard
    [!name || typeof name !== 'string' || name.trim().length === 0]. *)
Definition invalidName (nm : JsValue) : bool :=
  negb (truthy nm)
  || negb (is_string nm)
  || match nm with
     | JStr s => (String.length (trim s) =? 0)%nat
     | _ => false
     end.

Definition queryString (nm : JsValue) : string :=
  match nm with
  | JStr s => s
  | _ => ""
  end.

Definition findCountriesByName (nm : JsValue) (rp : Repository)
  : Result QueryError (list Country) :=
  if invalidName nm then Err ValidationError
  else
    let countries := getMany (queryString nm) rp in
    if (length countries =? 0)%nat then Err NotFoundError
    else Ok countries.

(** Returns the repository afterwards and [deleted_count]. *)
Definition deleteCountriesByName (nm : JsValue) (rp : Repository)
  : Repository * Result QueryError nat :=
  if invalidName nm then (rp, Err ValidationError)
  else
    let countriesToDelete := getMany (queryString nm) rp in
    if (length countriesToDelete =? 0)%nat then (rp, Err NotFoundError)
    else (remove countriesToDelete rp, Ok (length countriesToDelete)).

Definition emit (es : list Event) (st : State) : State :=
  {| repo := repo st; draws := draws st; cache := cache st;
     log := log st ++ es |}.

Fixpoint insert_desc (r : Country) (l : list Country) : list Country :=
  match l with
  | [] => [r]
  | x :: l' =>
      if Qle_bool (estimated_gbp (fields x)) (estimated_gbp (fields r))
      then r :: l
      else x :: insert_desc r l'
  end.

(** [find({ order: { estimated_gbp: 'DESC' }, take: 5 })] *)
Definition topCountries (rp : Repository) : list Country :=
  take 5 (foldr insert_desc [] (rows rp)).

(** The [try] block of [generateSummaryImage]: the error some step throws,
    or the file written. *)
Definition summaryBody (env : Env) (rp : Repository) : Result string Artifact :=
  match summary_fault env with
  | Some msg => Err msg
  | None =>
      Ok {| total_countries := length (rows rp);
            top_countries := topCountries rp |}
  end.

(** [generateSummaryImage()]: the [catch] only logs to the console. *)
Definition generateSummaryImage (env : Env) (st : State) : State :=
  match summaryBody env (repo st) with
  | Ok img =>
      {| repo := repo st; draws := draws st; cache := Some img;
         log := log st ++ [GenerateSummary] |}
  | Err _ => emit [GenerateSummary] st
  end.

(** [Math.random()] is called exactly when the estimate is computed. *)
Definition drawsRandom (exchangeRates : gmap string Q) (c : RawCountry) : bool :=
  estimable (populationOf c) (resolveCurrency exchangeRates c).1.2.

(** Look-up by name, then [update] or [save]; also the write performed. *)
Definition upsert (d : CountryData) (rp : Repository) : Repository * Event :=
  match findOne (name d) rp with
  | Some existingCountry =>
      (update (id existingCountry) d rp, Update (id existingCountry))
  | None => (save d rp, Save (name d))
  end.

(** One iteration up to and including [findOne]: builds [countryData],
    consumes a random draw when the estimate is computed. *)
Definition prepare (env : Env) (exchangeRates : gmap string Q)
    (c : RawCountry) (st : State) : CountryData * State :=
  let '(countryData, acts) :=
    transform exchangeRates (random env (draws st)) c in
  (countryData,
   {| repo := repo st;
      draws := if drawsRandom exchangeRates c
               then S (draws st) else draws st;
      cache := cache st;
      log := log st ++ acts ++ [FindOne (name countryData)] |}).

(** The rest of the iteration: the [update] or [save]. *)
Definition commit (countryData : CountryData) (st : State) : State :=
  let '(rp, written) := upsert countryData (repo st) in
  {| repo := rp; draws := draws st; cache := cache st;
     log := log st ++ [written] |}.

(** The [for (const c of countries)] loop from position [i] on; the
    second component is the message of the error that stopped it. *)
Fixpoint processCountries (env : Env) (exchangeRates : gmap string Q)
    (i : nat) (countries : list RawCountry) (st : State)
  : State * option string :=
  match countries with
  | [] => (st, None)
  | c :: rest =>
      let '(countryData, st1) := prepare env exchangeRates c st in
      match write_fault env i with
      | Some msg => (st1, Some msg)
      | None =>
          processCountries env exchangeRates (S i) rest
            (commit countryData st1)
      end
  end.

Definition refreshCountriesandSave (env : Env) (st : State)
  : State * Result RefreshError unit :=
  let st := emit [FetchCountries] st in
  match countries_response env with
  | None =>
      (st, Err (ExternalAPIError "Could not fetch data from Countries API"))
  | Some countries =>
      let st := emit [FetchRates] st in
      match rates_response env with
      | None =>
          (st, Err (ExternalAPIError
                      "Could not fetch data from Exchange Rate API"))
      | Some rates =>
          let exchangeRates := default ∅ rates in
          match processCountries env exchangeRates 0 countries st with
          | (st, Some msg) =>
              (st, Err (SaveFailed
                          ("Failed to save countries to database: " ++ msg)%string))
          | (st, None) => (generateSummaryImage env st, Ok tt)
          end
      end
  end.

(** *** Status, listing and image look-up *)

Fixpoint insert_recent (r : Country) (l : list Country) : list Country :=
  match l with
  | [] => [r]
  | x :: l' =>
      if last_refreshed_at x <=? last_refreshed_at r
      then r :: l
      else x :: insert_recent r l'
  end.

(** [find({ order: { last_refreshed_at: 'DESC' }, take: 1 })] *)
Definition lastRefreshedCountry (rp : Repository) : list Country :=
  take 1 (foldr insert_recent [] (rows rp)).

(** [getCountriesStatus()]: [total_countries] and [last_refreshed_at]
    ([None] is null). *)
Definition getCountriesStatus (rp : Repository) : nat * option Z :=
  let count := length (rows rp) in
  (count,
   match lastRefreshedCountry rp with
   | r :: _ => Some (last_refreshed_at r)
   | [] => None
   end).

(** [findAllCountries()] *)
Definition findAllCountries (rp : Repository) : list Country := rows rp.

(** The image file, relative to [process.cwd()]. *)
Definition imagePath : string := "cache/summary.png".

(** [getCountryImage()]: [fault] is the error [fs.pathExists] throws, if
    any; [Ok] carries [imagePath], [Err] the [error] text. *)
Definition getCountryImage (fault : option string) (st : State)
  : Result string string :=
  match fault with
  | Some _ => Err "Summary image not found"
  | None =>
      match cache st with
      | None => Err "Summary image not found"
      | Some _ => Ok imagePath
      end
  end.

(** *** Source URLs *)

Definition defaultCountriesUrl : string :=
  "https://restcountries.com/v2/all?fields=name,capital,region,population,flag,currencies".

Definition defaultExchangeRateUrl : string :=
  "https://open.er-api.com/v6/latest/USD".

(** The object registered by [src/config/api.config.ts]. *)
Record ApiConfig : Type := {
  countries_url : string;
  exchangeRate_url : string;
  exchangeRate_baseCurrency : string
}.

(** [registerAs('api', ...)] over the process environment. *)
Definition apiConfig (penv : gmap string string) : ApiConfig :=
  {| countries_url := or_str (penv !! "COUNTRIES_API_URL") defaultCountriesUrl;
     exchangeRate_url :=
       or_str (penv !! "EXCHANGE_RATE_API_URL") defaultExchangeRateUrl;
     exchangeRate_baseCurrency :=
       or_str (penv !! "EXCHANGE_RATE_API_BASE_CURRENCY") "USD" |}.

(** The first statements of [refreshCountriesandSave]; [get] is
    [configService.get] ([None] is undefined). *)
Definition countriesUrl (get : string -> option string) : string :=
  or_str (get "api.countries.url")
    (or_str (get "COUNTRIES_API_URL") defaultCountriesUrl).

Definition exchangeRateUrl (get : string -> option string) : string :=
  or_str (get "api.exchangeRate.url")
    (or_str (get "EXCHANGE_RATE_API_URL") defaultExchangeRateUrl).

(** A configuration service that has loaded [apiConfig penv] and falls
    back to the process environment for other keys. *)
Definition loadedConfig (penv : gmap string string) (key : string)
  : option string :=
  if String.eqb key "api.countries.url"
  then Some (countries_url (apiConfig penv))
  else if String.eqb key "api.exchangeRate.url"
  then Some (exchangeRate_url (apiConfig penv))
  else if String.eqb key "api.exchangeRate.baseCurrency"
  then Some (exchangeRate_baseCurrency (apiConfig penv))
  else penv !! key.

(** ** Notions used in the statements *)

(** Primary keys are unique and below the next AUTO_INCREMENT value. *)
Definition consistent (rp : Repository) : Prop :=
  NoDup (id <$> rows rp) /\ Forall (fun r => id r < next_id rp) (rows rp).

(** The row [e] after an update with [d]. *)
Definition overwritten (e : Country) (d : CountryData) (rp : Repository)
  : Country :=
  {| id := id e; fields := merged (fields e) d; last_refreshed_at := now rp |}.

(** The row an insert of [d] creates. *)
Definition inserted (d : CountryData) (rp : Repository) : Country :=
  {| id := next_id rp; fields := stored d; last_refreshed_at := now rp |}.

(** A whole iteration of the loop whose write succeeds. *)
Definition iteration (env : Env) (exchangeRates : gmap string Q)
    (c : RawCountry) (st : State) : State :=
  commit (prepare env exchangeRates c st).1 (prepare env exchangeRates c st).2.

(** The rows whose name equals [nm] under the collation, in table
    order. *)
Definition named (nm : string) (rp : Repository) : list Country :=
  List.filter (name_is rp nm) (rows rp).

(** The weight of the name of a row. *)
Definition nameKey (rp : Repository) (r : Country) : string :=
  weight rp (name (fields r)).

(** The weights of the names in the table, in table order. *)
Definition nameKeys (rp : Repository) : list string :=
  nameKey rp <$> rows rp.

(** The collation tells all names apart. *)
Definition exact (rp : Repository) : Prop :=
  forall s, weight rp s = s.

(** Made of printable ASCII characters (code units 32 to 126). *)
Fixpoint printable (s : string) : bool :=
  match s with
  | EmptyString => true
  | String a s' =>
      (32 <=? char_code a) && (char_code a <=? 126) && printable s'
  end.

(** What a row written from [d] holds: [d] itself, but for a
    [currency_code] that is [undefined], in place of which the column
    has [kept]. *)
Definition holds (kept : Optional string) (d : CountryData) : CountryData :=
  {| name := name d;
     capital := capital d;
     region := region d;
     population := population d;
     currency_code :=
       match currency_code d with
       | Undefined => kept
       | v => v
       end;
     exchange_rate := exchange_rate d;
     estimated_gbp := estimated_gbp d;
     flag_url := flag_url d |}.

(** The code the row under the name [nm] keeps when the record written
    to it has none: the one it has, or NULL for a new row. *)
Definition keptCode (nm : string) (rp : Repository) : Optional string :=
  match findOne nm rp with
  | Some e => currency_code (fields e)
  | None => Null
  end.


(** The rows whose lower-cased name contains [q]. *)
Definition containing (q : string) (rp : Repository) : list Country :=
  List.filter (fun r => includes (toLowerCase (name (fields r))) q) (rows rp).

(** A string with no decimal digit right after its leading white space and
    optional sign. *)
Definition nonNumeric (s : string) : bool :=
  let s1 := trimStart s in
  let s2 :=
    match s1 with
    | String a r =>
        if Ascii.eqb a "-" || Ascii.eqb a "+" then r else s1
    | EmptyString => s1
    end in
  match s2 with
  | EmptyString => true
  | String a _ => negb (is_digit a)
  end.

Definition plain_char (a : ascii) : bool :=
  negb (Ascii.eqb a "%") && negb (Ascii.eqb a "_") && negb (Ascii.eqb a "\").

(** No LIKE metacharacter occurs in the string. *)
Fixpoint plain (s : string) : bool :=
  match s with
  | EmptyString => true
  | String a s' => plain_char a && plain s'
  end.

(** Made of white space only (possibly empty). *)
Fixpoint blank (s : string) : bool :=
  match s with
  | EmptyString => true
  | String a s' => is_whitespace a && blank s'
  end.

(** The names in the table, in table order. *)
Definition names (rp : Repository) : list string :=
  (fun r => name (fields r)) <$> rows rp.


(** [a] comes before [b] when ordering by estimate, largest first. *)
Definition richer (a b : Country) : Prop :=
  (estimated_gbp (fields b) <= estimated_gbp (fields a))%Q.

(** The normal form under which search and delete read a query. *)
Definition normalized (s : string) : string := trim (toLowerCase s).

(** A non-empty run of [%] characters. *)
Fixpoint percents (s : string) : bool :=
  match s with
  | EmptyString => false
  | String a EmptyString => Ascii.eqb a "%"
  | String a s' => Ascii.eqb a "%" && percents s'
  end.

(** ** Sample inputs *)

Definition country (nm : option string) (pop : JsValue)
    (currencies : option (list Currency)) : RawCountry :=
  {| raw_name := nm; raw_capital := None; raw_region := None;
     raw_population := pop; raw_flag := None; raw_currencies := currencies |}.

Definition wakanda : RawCountry :=
  country (Some "Wakanda") (JNum 1000000) (Some []).

Definition testland : RawCountry :=
  country (Some "Testland") (JNum 100) (Some [ {| code := Value "USD" |} ]).

Definition thirdland : RawCountry :=
  country (Some "Thirdland") (JNum 1) (Some [ {| code := Value "XYZ" |} ]).

Definition zeroland : RawCountry :=
  country (Some "Zeroland") (JNum 10) (Some [ {| code := Value "XYZ" |} ]).

Definition debtland : RawCountry :=
  country (Some "Debtland") (JNum (-5)) (Some []).

Definition nowhere : RawCountry :=
  country None (JStr "unknown") None.


Definition france : RawCountry :=
  {| raw_name := Some "France"; raw_capital := Some "Paris";
     raw_region := Some "Europe"; raw_population := JNum 67000000;
     raw_flag := None; raw_currencies := Some [ {| code := Value "EUR" |} ] |}.

Definition france_lowercase : RawCountry :=
  {| raw_name := Some "france"; raw_capital := Some "Paris";
     raw_region := Some "Europe"; raw_population := JNum 67000000;
     raw_flag := None; raw_currencies := Some [ {| code := Value "EUR" |} ] |}.

Definition uk : RawCountry :=
  {| raw_name := Some "United Kingdom"; raw_capital := Some "London";
     raw_region := Some "Europe"; raw_population := JNum 67000000;
     raw_flag := None; raw_currencies := Some [ {| code := Value "GBP" |} ] |}.

Definition euroRates : gmap string Q :=
  {[ "EUR" := (9 # 10)%Q; "GBP" := (8 # 10)%Q ]}.

(** An environment in which nothing fails and [Math.random()] is 1/2. *)
Definition calm (countries : list RawCountry) : Env :=
  {| countries_response := Some countries;
     rates_response := Some (Some euroRates);
     random := fun _ => (1 # 2)%Q;
     write_fault := fun _ => None;
     summary_fault := None |}.

(** Both external sources are down. *)
Definition offline : Env :=
  {| countries_response := None;
     rates_response := None;
     random := fun _ => (1 # 2)%Q;
     write_fault := fun _ => None;
     summary_fault := None |}.

(** The write for the second record (position 1) is rejected. *)
Definition secondWriteFails (countries : list RawCountry) : Env :=
  {| countries_response := Some countries;
     rates_response := Some (Some euroRates);
     random := fun _ => (1 # 2)%Q;
     write_fault :=
       fun j => if Nat.eqb j 1 then Some "ER_LOCK_WAIT_TIMEOUT" else None;
     summary_fault := None |}.

(** Everything works except the rendering of the image. *)
Definition imageFails (countries : list RawCountry) : Env :=
  {| countries_response := Some countries;
     rates_response := Some (Some euroRates);
     random := fun _ => (1 # 2)%Q;
     write_fault := fun _ => None;
     summary_fault := Some "Input buffer contains unsupported image format" |}.

(** A collation that ignores the case of letters, as the default of the
    database server does. *)
Definition caseInsensitive : string -> string := toLowerCase.

(** A collation that compares code units. *)
Definition binaryCollation : string -> string := fun s => s.

Definition emptyRepo : Repository :=
  {| rows := []; next_id := 1; now := 0; weight := caseInsensitive |}.

Definition initial : State :=
  {| repo := emptyRepo; draws := 0; cache := None; log := [] |}.

Definition ukRow : Country :=
  {| id := 1; fields := (transform euroRates (1 # 2) uk).1;
     last_refreshed_at := 0 |}.

Definition franceRow : Country :=
  {| id := 2; fields := (transform euroRates (1 # 2) france).1;
     last_refreshed_at := 1 |}.

Definition ukOnly : Repository :=
  {| rows := [ukRow]; next_id := 2; now := 1; weight := caseInsensitive |}.

Definition ukAndFrance : Repository :=
  {| rows := [ukRow; franceRow]; next_id := 3; now := 2;
     weight := caseInsensitive |}.

(** A record whose first currency has no [code] property. *)
Definition france_codeless : RawCountry :=
  {| raw_name := Some "France"; raw_capital := Some "Paris";
     raw_region := Some "Europe"; raw_population := JNum 67000000;
     raw_flag := None; raw_currencies := Some [ {| code := Undefined |} ] |}.

(** A record whose currency code names a member of [Object.prototype]. *)
Definition builtinland : RawCountry :=
  country (Some "Builtinland") (JNum 10) (Some [ {| code := Value "constructor" |} ]).

Definition emptyState (w : string -> string) : State :=
  {| repo := {| rows := []; next_id := 1; now := 0; weight := w |};
     draws := 0; cache := None; log := [] |}.

(** ** Facts about the built-ins *)

(** *** Rounding to a double *)

Section Binary64.

Local Open Scope Q_scope.

Lemma pow2_pos (k : Z) : 0 < 2 ^ k.
Proof. apply Qpower_0_lt. reflexivity. Qed.

Lemma pow2_succ (k : Z) : 2 ^ (k + 1) == 2 * 2 ^ k.
Proof. rewrite Qpower_plus by discriminate. change (2 ^ 1) with 2. ring. Qed.

Lemma pow2_le (j k : Z) : (j <= k)%Z -> 2 ^ j <= 2 ^ k.
Proof. intros H. apply Qpower_le_compat_l; [exact H | discriminate]. Qed.

Lemma pow2_lt_inv (j k : Z) : 2 ^ j < 2 ^ k -> (j < k)%Z.
Proof.
  intros H. destruct (Z_lt_le_dec j k) as [L | L]; [exact L |].
  apply pow2_le in L. lra.
Qed.

Lemma pow2_inject (k : Z) : (0 <= k)%Z -> inject_Z (2 ^ k) == 2 ^ k.
Proof. intros H. rewrite Zpower_Qpower by exact H. reflexivity. Qed.

Lemma log2_bounds (n : Z) :
  (0 < n)%Z ->
  2 ^ Z.log2 n <= inject_Z n /\ inject_Z n < 2 * 2 ^ Z.log2 n.
Proof.
  intros H. destruct (Z.log2_spec n H) as [L U].
  pose proof (Z.log2_nonneg n) as N.
  split.
  - rewrite <- pow2_inject by exact N. rewrite <- Zle_Qle. exact L.
  - rewrite <- pow2_succ. rewrite <- pow2_inject by lia.
    rewrite <- Zlt_Qlt. exact U.
Qed.

Lemma ilog2_spec (a : Q) :
  0 < a -> 2 ^ ilog2 a <= a /\ a < 2 * 2 ^ ilog2 a.
Proof.
  intros Ha. unfold ilog2.
  set (ln := Z.log2 (Qnum a)). set (ld := Z.log2 (Zpos (Qden a))).
  assert (Hn : (0 < Qnum a)%Z).
  { destruct a as [n d]. unfold Qlt in Ha. simpl in *. lia. }
  destruct (log2_bounds (Qnum a) Hn) as [Ln Un]. fold ln in Ln, Un.
  destruct (log2_bounds (Zpos (Qden a)) (Pos2Z.is_pos _)) as [Ld Ud].
  fold ld in Ld, Ud.
  assert (E : a * inject_Z (Zpos (Qden a)) == inject_Z (Qnum a)).
  { destruct a as [n d]. unfold Qeq. simpl. lia. }
  assert (K : 2 ^ ln == 2 ^ (ln - ld) * 2 ^ ld).
  { rewrite <- Qpower_plus by discriminate. replace (ln - ld + ld)%Z with ln by lia.
    reflexivity. }
  assert (K' : 2 ^ (ln - ld) == 2 * 2 ^ (ln - ld - 1)).
  { rewrite <- pow2_succ. replace (ln - ld - 1 + 1)%Z with (ln - ld)%Z by lia.
    reflexivity. }
  pose proof (pow2_pos (ln - ld)) as P1.
  pose proof (pow2_pos ld) as P2.
  pose proof (pow2_pos (ln - ld - 1)) as P3.
  set (D := inject_Z (Zpos (Qden a))) in *.
  set (A := inject_Z (Qnum a)) in *.
  set (x := 2 ^ (ln - ld)) in *. set (y := 2 ^ ld) in *.
  set (z := 2 ^ ln) in *. set (w := 2 ^ (ln - ld - 1)) in *.
  destruct (Qle_bool x a) eqn:T.
  - apply Qle_bool_iff in T. split; [exact T |].
    destruct (Qlt_le_dec a (2 * x)) as [L | L]; [exact L | exfalso].
    nra.
  - assert (T' : a < x).
    { destruct (Qlt_le_dec a x) as [L | L]; [exact L |].
      apply Qle_bool_iff in L. congruence. }
    fold w. split; [| lra].
    destruct (Qlt_le_dec a w) as [L | L]; [exfalso | exact L].
    nra.
Qed.

Lemma roundEven_bounds (y : Q) :
  (Qfloor y <= roundEven y <= Qfloor y + 1)%Z.
Proof.
  unfold roundEven. destruct (y - inject_Z (Qfloor y) ?= 1 # 2);
    [destruct (Z.even (Qfloor y)) | |]; lia.
Qed.

Lemma roundEven_ge_int (N : Z) (y : Q) :
  inject_Z N <= y -> (N <= roundEven y)%Z.
Proof.
  intros H. apply Qfloor_resp_le in H. rewrite Qfloor_Z in H.
  pose proof (roundEven_bounds y). lia.
Qed.

Lemma roundEven_le_int (N : Z) (y : Q) :
  y <= inject_Z N -> (roundEven y <= N)%Z.
Proof.
  intros H. pose proof (Qfloor_resp_le _ _ H) as F. rewrite Qfloor_Z in F.
  pose proof (roundEven_bounds y) as B.
  destruct (Z.eq_dec (Qfloor y) N) as [E | E]; [| lia].
  unfold roundEven. rewrite E.
  assert (L : y - inject_Z N < 1 # 2) by lra.
  rewrite Qlt_alt in L. rewrite L. lia.
Qed.

Lemma roundEven_mono (x y : Q) : x <= y -> (roundEven x <= roundEven y)%Z.
Proof.
  intros H. pose proof (Qfloor_resp_le _ _ H) as F.
  pose proof (roundEven_bounds x) as Bx. pose proof (roundEven_bounds y) as By.
  destruct (Z.eq_dec (Qfloor x) (Qfloor y)) as [E | E]; [| lia].
  unfold roundEven. rewrite <- E.
  destruct (x - inject_Z (Qfloor x) ?= 1 # 2) eqn:Cx;
    destruct (y - inject_Z (Qfloor x) ?= 1 # 2) eqn:Cy;
    try (destruct (Z.even (Qfloor x)); lia); try lia; exfalso;
    try rewrite <- Qeq_alt in Cx; try rewrite <- Qlt_alt in Cx;
    try rewrite <- Qgt_alt in Cx;
    try rewrite <- Qeq_alt in Cy; try rewrite <- Qlt_alt in Cy;
    try rewrite <- Qgt_alt in Cy; lra.
Qed.


Lemma ilog2_mono (x y : Q) : 0 < x -> x <= y -> (ilog2 x <= ilog2 y)%Z.
Proof.
  intros Hx H. destruct (ilog2_spec x Hx) as [Lx _].
  destruct (ilog2_spec y) as [_ Uy]; [lra |].
  rewrite <- pow2_succ in Uy.
  assert (P : 2 ^ ilog2 x < 2 ^ (ilog2 y + 1)) by lra.
  apply pow2_lt_inv in P. lia.
Qed.

Lemma pow2_inv (e : Z) : 2 ^ e * 2 ^ (- e) == 1.
Proof.
  rewrite <- Qpower_plus by discriminate. replace (e + - e)%Z with 0%Z by lia.
  reflexivity.
Qed.

Lemma div_pow2 (a : Q) (e : Z) : a / 2 ^ e == a * 2 ^ (- e).
Proof.
  unfold Qdiv. rewrite Qpower_opp. reflexivity.
Qed.

(** The significand of a positive number is below 2^53. *)
Lemma significand_upper (a : Q) :
  0 < a -> a / 2 ^ ulpExponent a < inject_Z (2 ^ 53).
Proof.
  intros Ha. destruct (ilog2_spec a Ha) as [_ U].
  rewrite div_pow2. set (e := ulpExponent a).
  assert (E : (ilog2 a + 1 <= e + 53)%Z) by (unfold e, ulpExponent; lia).
  apply pow2_le in E. rewrite pow2_succ in E.
  rewrite Qpower_plus in E by discriminate.
  pose proof (pow2_inv e) as I. pose proof (pow2_pos e) as P1.
  pose proof (pow2_pos (- e)) as P2.
  rewrite (pow2_inject 53) by lia.
  set (u := 2 ^ e) in *. set (ui := 2 ^ (- e)) in *.
  set (t := 2 ^ ilog2 a) in *. set (k := 2 ^ 53) in *.
  assert (K : 0 < k) by reflexivity.
  nra.
Qed.

(** A normal number has a significand of at least 2^52. *)
Lemma significand_lower (a : Q) :
  0 < a -> ulpExponent a = (ilog2 a - 52)%Z ->
  inject_Z (2 ^ 52) <= a / 2 ^ ulpExponent a.
Proof.
  intros Ha E. destruct (ilog2_spec a Ha) as [L _].
  rewrite div_pow2. rewrite E. set (e := (ilog2 a - 52)%Z).
  assert (K : 2 ^ ilog2 a == 2 ^ e * 2 ^ 52).
  { rewrite <- Qpower_plus by discriminate. unfold e.
    replace (ilog2 a - 52 + 52)%Z with (ilog2 a) by lia. reflexivity. }
  pose proof (pow2_inv e) as I. pose proof (pow2_pos e) as P1.
  pose proof (pow2_pos (- e)) as P2.
  rewrite (pow2_inject 52) by lia.
  set (u := 2 ^ e) in *. set (ui := 2 ^ (- e)) in *.
  set (t := 2 ^ ilog2 a) in *. set (k := 2 ^ 52) in *.
  assert (K' : 0 < k) by reflexivity.
  nra.
Qed.

Lemma binary64_zero (x : Q) : x == 0 -> binary64 x = 0.
Proof.
  intros H. unfold binary64. apply Qeq_bool_iff in H. rewrite H. reflexivity.
Qed.

Lemma binary64_pos (x : Q) :
  0 < x ->
  binary64 x == inject_Z (roundEven (x / 2 ^ ulpExponent x)) * 2 ^ ulpExponent x.
Proof.
  intros H. unfold binary64.
  destruct (Qeq_bool x 0) eqn:Z0.
  { apply Qeq_bool_iff in Z0. lra. }
  rewrite Qred_correct.
  assert (A : Qabs x = x).
  { destruct x as [n d]. unfold Qlt in H. simpl in H. unfold Qabs.
    rewrite Z.abs_eq by lia. reflexivity. }
  rewrite A.
  assert (S1 : Z.sgn (Qnum x) = 1%Z).
  { destruct x as [n d]. unfold Qlt in H. simpl in *. lia. }
  rewrite S1. rewrite Z.mul_1_l. reflexivity.
Qed.

Lemma binary64_nonneg (x : Q) : 0 <= x -> 0 <= binary64 x.
Proof.
  intros H. destruct (Qeq_dec x 0) as [E | E].
  - rewrite (binary64_zero x E). lra.
  - assert (P : 0 < x).
    { destruct (Qlt_le_dec 0 x) as [L | L]; [exact L |].
      exfalso. apply E. lra. }
    rewrite (binary64_pos x P).
    apply Qmult_le_0_compat; [| apply Qlt_le_weak, pow2_pos].
    change 0 with (inject_Z 0). rewrite <- Zle_Qle.
    apply roundEven_ge_int. rewrite div_pow2. change (inject_Z 0) with 0.
    apply Qmult_le_0_compat; [lra | apply Qlt_le_weak, pow2_pos].
Qed.

(** Rounding keeps the order. *)
Lemma binary64_mono (x y : Q) : 0 <= x -> x <= y -> binary64 x <= binary64 y.
Proof.
  intros Hx H. destruct (Qeq_dec x 0) as [E | E].
  { rewrite (binary64_zero x E). apply binary64_nonneg. lra. }
  assert (Px : 0 < x).
  { destruct (Qlt_le_dec 0 x) as [L | L]; [exact L |].
    exfalso. apply E. lra. }
  assert (Py : 0 < y) by lra.
  rewrite (binary64_pos x Px), (binary64_pos y Py).
  pose proof (ilog2_mono x y Px H) as M.
  set (ex := ulpExponent x). set (ey := ulpExponent y).
  assert (Le : (ex <= ey)%Z) by (unfold ex, ey, ulpExponent; lia).
  pose proof (pow2_pos ex) as Pex. pose proof (pow2_pos ey) as Pey.
  destruct (Z.eq_dec ex ey) as [Eq | Ne].
  - rewrite <- Eq.
    apply Qmult_le_compat_r; [| lra].
    rewrite <- Zle_Qle. apply roundEven_mono.
    rewrite !div_pow2. pose proof (pow2_pos (- ex)).
    apply Qmult_le_compat_r; lra.
  - assert (Lt : (ex + 1 <= ey)%Z) by lia.
    assert (Ny : ulpExponent y = (ilog2 y - 52)%Z).
    { unfold ex, ey, ulpExponent in *. lia. }
    pose proof (significand_lower y Py Ny) as Ly. fold ey in Ly.
    apply roundEven_ge_int in Ly.
    pose proof (significand_upper x Px) as Ux. fold ex in Ux.
    apply Qlt_le_weak in Ux. apply roundEven_le_int in Ux.
    apply pow2_le in Lt. rewrite pow2_succ in Lt.
    rewrite Zle_Qle in Ly, Ux.
    set (mx := inject_Z (roundEven (x / 2 ^ ex))) in *.
    set (my := inject_Z (roundEven (y / 2 ^ ey))) in *.
    change (inject_Z (2 ^ 53)) with (2 * inject_Z (2 ^ 52)) in Ux.
    set (k := inject_Z (2 ^ 52)) in *.
    assert (K : 0 < k) by reflexivity.
    set (u := 2 ^ ex) in *. set (v := 2 ^ ey) in *.
    nra.
Qed.


(** The result is a significand of at most 53 bits at an exponent of at
    least -1074. *)
Lemma binary64_representable (y : Q) :
  0 <= y ->
  exists (m e : Z),
    binary64 y == inject_Z m * 2 ^ e
    /\ (0 <= m <= 2 ^ 53)%Z /\ (-1074 <= e)%Z.
Proof.
  intros Hy. destruct (Qeq_dec y 0) as [E | E].
  { exists 0%Z, 0%Z. rewrite (binary64_zero y E).
    split; [reflexivity | split; lia]. }
  assert (Py : 0 < y).
  { destruct (Qlt_le_dec 0 y) as [L | L]; [exact L |].
    exfalso. apply E. lra. }
  exists (roundEven (y / 2 ^ ulpExponent y)), (ulpExponent y).
  split; [apply binary64_pos; exact Py |]. split.
  - split.
    + apply roundEven_ge_int. rewrite div_pow2. change (inject_Z 0) with 0.
      apply Qmult_le_0_compat; [lra | apply Qlt_le_weak, pow2_pos].
    + apply roundEven_le_int, Qlt_le_weak, significand_upper. exact Py.
  - unfold ulpExponent. lia.
Qed.

End Binary64.

(** Integers of magnitude up to 2^53 are doubles. *)
Example binary64_exact :
  (binary64 1000 == 1000)%Q /\ (binary64 2000 == 2000)%Q
  /\ (binary64 1 == 1)%Q
  /\ (binary64 (inject_Z (2 ^ 53)) == inject_Z (2 ^ 53))%Q
  /\ (binary64 (inject_Z (2 ^ 53 + 1)) == inject_Z (2 ^ 53))%Q.
Proof. repeat split; vm_compute; reflexivity. Qed.

(** One tenth and one third are not: the nearest doubles are
    3602879701896397 / 2^55 and 6004799503160661 / 2^54. *)
Example binary64_inexact :
  (binary64 (1 # 10) == 3602879701896397 # 36028797018963968)%Q
  /\ (binary64 (1 # 3) == 6004799503160661 # 18014398509481984)%Q.
Proof. split; vm_compute; reflexivity. Qed.

Section Rounding.

Local Open Scope Q_scope.

Lemma sgn_num_nonneg (x : Q) :
  0 <= x -> (Qnum x = 0%Z /\ x == 0) \/ (Z.sgn (Qnum x) = 1%Z /\ 0 < x).
Proof.
  destruct x as [n d]. unfold Qle, Qlt, Qeq. simpl. intros H.
  destruct n as [|n|n]; [left | right | lia]; split; simpl; lia.
Qed.



Lemma hundredths_nonneg (x : Q) :
  0 <= x -> (0 <= Z.sgn (Qnum x) * Qfloor (Qabs x * 100 + (1 # 2)))%Z.
Proof.
  intros Hx.
  assert (F : (0 <= Qfloor (Qabs x * 100 + (1 # 2)))%Z).
  { rewrite <- (Qfloor_Z 0). apply Qfloor_resp_le.
    pose proof (Qabs_nonneg x). change (inject_Z 0) with 0. lra. }
  destruct (sgn_num_nonneg x Hx) as [[Hn _] | [Hs _]].
  - rewrite Hn. simpl. lia.
  - rewrite Hs. lia.
Qed.



Lemma toFixed2_nonneg (x : Q) : 0 <= x -> 0 <= toFixed2 x.
Proof.
  intros Hx. unfold toFixed2.
  destruct (Qle_bool pow10_21 (Qabs x)); [exact Hx |].
  apply binary64_nonneg.
  pose proof (hundredths_nonneg x Hx) as H.
  rewrite Zle_Qle in H. change (inject_Z 0) with 0 in H.
  unfold Qdiv. change (/ 100) with (1 # 100).
  set (n := inject_Z _) in *. lra.
Qed.



Lemma estimable_true (p : Z) (o : RateValue) :
  estimable p o = true <-> (0 < p)%Z /\ exists x, o = RateNumber x /\ 0 < x.
Proof.
  unfold estimable. rewrite andb_true_iff, Z.ltb_lt.
  split.
  - intros [Hp Ho]. split; [exact Hp |].
    destruct o as [|x|k]; try discriminate.
    exists x. split; [reflexivity |].
    apply andb_true_iff in Ho as [_ Hle].
    apply negb_true_iff in Hle.
    destruct (Qlt_le_dec 0 x) as [Hlt | Hge]; [exact Hlt |].
    apply Qle_bool_iff in Hge. congruence.
  - intros [Hp (x & -> & Hx)]. split; [exact Hp |].
    apply andb_true_iff. split; apply negb_true_iff.
    + destruct (Qeq_bool x 0) eqn:E; [| reflexivity].
      apply Qeq_bool_iff in E. lra.
    + destruct (Qle_bool x 0) eqn:E; [| reflexivity].
      apply Qle_bool_iff in E. lra.
Qed.


Lemma population_double (p : Z) :
  (0 < p)%Z -> 1 <= binary64 (inject_Z p).
Proof.
  intros H. destruct binary64_exact as (_ & _ & E & _).
  apply Qle_trans with (binary64 1); [rewrite E; lra |].
  apply binary64_mono; [lra |].
  change 1 with (inject_Z 1). rewrite <- Zle_Qle. lia.
Qed.


Lemma scaled_nonneg (p : Z) (m x : Q) :
  (0 < p)%Z -> 0 < x -> 0 <= m -> 0 <= scaled p m x.
Proof.
  intros Hp Hx Hm. unfold scaled.
  pose proof (population_double p Hp) as P.
  set (q := binary64 (inject_Z p)) in *.
  assert (Hi : 0 < / x) by (apply Qinv_lt_0_compat; exact Hx).
  assert (A : 0 <= binary64 (q * m)) by (apply binary64_nonneg; nra).
  apply binary64_nonneg. unfold Qdiv. apply Qmult_le_0_compat; lra.
Qed.

End Rounding.

(** ** The record transformer *)

Lemma transform_fields (exchangeRates : gmap string Q) (r : Q) (c : RawCountry) :
  let d := (transform exchangeRates r c).1 in
  let rc := resolveCurrency exchangeRates c in
  name d = countryName c
  /\ population d = populationOf c
  /\ currency_code d = rc.1.1
  /\ exchange_rate d = rc.1.2
  /\ estimated_gbp d = toFixed2 (estimatedGbp (populationOf c) rc.1.2 r)
  /\ (transform exchangeRates r c).2
     = (RateLookup <$> rc.2)
         ++ (if drawsRandom exchangeRates c then [RandomDraw] else []).
Proof.
  unfold transform, drawsRandom.
  destruct (resolveCurrency exchangeRates c) as [[cc er] ls].
  cbn. repeat split; reflexivity.
Qed.

Lemma estimatedGbp_skipped (p : Z) (o : RateValue) (r : Q) :
  estimable p o = false -> estimatedGbp p o r = 0%Q.
Proof.
  intros H. unfold estimatedGbp. destruct o; try reflexivity.
  rewrite H. reflexivity.
Qed.


Lemma estimable_no_rate (p : Z) (o : RateValue) :
  (forall x, o <> RateNumber x) -> estimable p o = false.
Proof.
  intros H. unfold estimable. destruct o as [|x|k].
  - apply andb_false_r.
  - destruct (H x eq_refl).
  - apply andb_false_r.
Qed.

Lemma resolveCurrency_none (exchangeRates : gmap string Q) (c : RawCountry) :
  raw_currencies c = None \/ raw_currencies c = Some [] ->
  resolveCurrency exchangeRates c = (Null, RateNull, []).
Proof.
  unfold resolveCurrency, hasCurrency. intros [-> | ->]; reflexivity.
Qed.

(** ** Population *)

Lemma digit_val_not_digit (a : ascii) :
  is_digit a = false -> digit_val 10 a = None.
Proof.
  unfold is_digit, digit_val. intros ->.
  destruct ((97 <=? char_code a) && (char_code a <=? 122)) eqn:E1.
  - apply andb_true_iff in E1 as [H1 _]. apply Z.leb_le in H1.
    destruct (char_code a - 87 <? 10) eqn:E; [| reflexivity].
    apply Z.ltb_lt in E. lia.
  - destruct ((65 <=? char_code a) && (char_code a <=? 90)) eqn:E2;
      [| reflexivity].
    apply andb_true_iff in E2 as [H1 _]. apply Z.leb_le in H1.
    destruct (char_code a - 55 <? 10) eqn:E; [| reflexivity].
    apply Z.ltb_lt in E. lia.
Qed.

Lemma not_digit_not_zero (a : ascii) :
  is_digit a = false -> Ascii.eqb a "0" = false.
Proof.
  intros H. destruct (Ascii.eqb a "0") eqn:E; [| reflexivity].
  apply Ascii.eqb_eq in E. subst a. discriminate H.
Qed.

Lemma parse_from_non_digit (s2 : string) :
  match s2 with
  | EmptyString => true
  | String a _ => negb (is_digit a)
  end = true ->
  (let '(radix, s3) :=
     match s2 with
     | String a (String b r) =>
         if Ascii.eqb a "0" && (Ascii.eqb b "x" || Ascii.eqb b "X")
         then (16, r)
         else (10, s2)
     | _ => (10, s2)
     end in parse_digits radix None s3) = None.
Proof.
  destruct s2 as [|a r]; [reflexivity |].
  intros H. apply negb_true_iff in H.
  assert (Hd : parse_digits 10 None (String a r) = None).
  { cbn. rewrite (digit_val_not_digit a H). reflexivity. }
  destruct r as [|b r]; [exact Hd |].
  rewrite (not_digit_not_zero a H). exact Hd.
Qed.

Lemma parseInt_str_nonNumeric (s : string) :
  nonNumeric s = true -> parseInt_str s = None.
Proof.
  unfold nonNumeric, parseInt_str.
  destruct (trimStart s) as [|a r].
  - intros _. reflexivity.
  - destruct (Ascii.eqb a "-"); cbn [orb].
    + intros H. pose proof (parse_from_non_digit r H) as P.
      destruct (match r with
                | String a0 (String b r0) =>
                    if Ascii.eqb a0 "0" && (Ascii.eqb b "x" || Ascii.eqb b "X")
                    then (16, r0) else (10, r)
                | _ => (10, r)
                end) as [radix s3].
      rewrite P. reflexivity.
    + destruct (Ascii.eqb a "+").
      * intros H. pose proof (parse_from_non_digit r H) as P.
        destruct (match r with
                  | String a0 (String b r0) =>
                      if Ascii.eqb a0 "0" && (Ascii.eqb b "x" || Ascii.eqb b "X")
                      then (16, r0) else (10, r)
                  | _ => (10, r)
                  end) as [radix s3].
        rewrite P. reflexivity.
      * intros H. pose proof (parse_from_non_digit (String a r) H) as P.
        destruct (match String a r with
                  | String a0 (String b r0) =>
                      if Ascii.eqb a0 "0" && (Ascii.eqb b "x" || Ascii.eqb b "X")
                      then (16, r0) else (10, String a r)
                  | _ => (10, String a r)
                  end) as [radix s3].
        rewrite P. reflexivity.
Qed.

Lemma parseInt_num_integer (x : Q) (n : Z) :
  (x == inject_Z n)%Q -> Z.abs n < 10 ^ 21 -> parseInt_num x = Some n.
Proof.
  destruct x as [a b]. unfold Qeq. cbn [Qnum Qden inject_Z].
  intros Hx Hn. rewrite Z.mul_1_r in Hx.
  unfold parseInt_num.
  destruct (Qeq_bool (a # b) 0) eqn:E0.
  - apply Qeq_bool_iff in E0. unfold Qeq in E0. cbn in E0. f_equal. nia.
  - assert (Hnz : n <> 0).
    { intros ->. assert (Ht : Qeq_bool (a # b) 0 = true).
      { apply Qeq_bool_iff. unfold Qeq. cbn. lia. }
      congruence. }
    assert (Habs : Z.abs a = Z.abs n * Z.pos b).
    { rewrite Hx, Z.abs_mul. f_equal. }
    assert (H1 : Qle_bool (1 # 1000000) (Qabs (a # b)) = true).
    { apply Qle_bool_iff. unfold Qle. cbn [Qabs Qnum Qden]. nia. }
    assert (H2 : Qle_bool pow10_21 (Qabs (a # b)) = false).
    { destruct (Qle_bool pow10_21 (Qabs (a # b))) eqn:E; [| reflexivity].
      apply Qle_bool_iff in E. unfold Qle, pow10_21 in E.
      cbn [Qabs Qnum Qden inject_Z] in E. nia. }
    rewrite H1, H2. cbn [andb negb Qnum Qden]. f_equal.
    rewrite Hx. apply Z.quot_mul. discriminate.
Qed.

Lemma leading_digit_int_nonneg (fuel : nat) (n : Z) :
  0 <= n -> 0 <= leading_digit_int fuel n.
Proof.
  revert n. induction fuel as [|f IH]; intros n Hn; cbn; [exact Hn |].
  destruct (n <? 10); [exact Hn |].
  apply IH. apply Z.div_pos; lia.
Qed.

Lemma Qfloor_nonneg (x : Q) : (0 <= x)%Q -> 0 <= Qfloor x.
Proof.
  intros H. change 0 with (Qfloor 0). apply Qfloor_resp_le. exact H.
Qed.

Lemma leading_digit_frac_nonneg (fuel : nat) (x : Q) :
  (0 <= x)%Q -> 0 <= leading_digit_frac fuel x.
Proof.
  revert x. induction fuel as [|f IH]; intros x Hx; cbn.
  - apply Qfloor_nonneg. exact Hx.
  - destruct (Qle_bool 1 x); [apply Qfloor_nonneg; exact Hx |].
    apply IH. apply Qmult_le_0_compat; [exact Hx | discriminate].
Qed.

Lemma parseInt_num_nonneg (x : Q) :
  (0 <= x)%Q -> exists k, parseInt_num x = Some k /\ 0 <= k.
Proof.
  intros Hx. unfold parseInt_num.
  destruct (Qeq_bool x 0); [exists 0; split; [reflexivity | lia] |].
  assert (Hnum : 0 <= Qnum x).
  { destruct x as [a b]. unfold Qle in Hx. cbn in *. lia. }
  destruct (Qle_bool (1 # 1000000) (Qabs x) && negb (Qle_bool pow10_21 (Qabs x))).
  - eexists. split; [reflexivity |].
    apply Z.quot_pos; [exact Hnum | reflexivity].
  - eexists. split; [reflexivity |].
    apply Z.mul_nonneg_nonneg; [lia |].
    unfold leading_digit.
    destruct (Qle_bool 1 (Qabs x)).
    + apply leading_digit_int_nonneg, Qfloor_nonneg, Qabs_nonneg.
    + apply leading_digit_frac_nonneg, Qabs_nonneg.
Qed.

(** ** The repository *)

Section Rows.

Implicit Types (l : list Country) (e r : Country) (d : CountryData).

Lemma find_split (f : Country -> bool) l e :
  List.find f l = Some e ->
  exists l1 l2,
    l = l1 ++ e :: l2 /\ f e = true /\ Forall (fun r => f r = false) l1.
Proof.
  induction l as [|x l IH]; cbn; [discriminate |].
  destruct (f x) eqn:E.
  - intros [= ->]. exists [], l. repeat split; [exact E | constructor].
  - intros H. destruct (IH H) as (l1 & l2 & -> & He & Hl1).
    exists (x :: l1), l2. repeat split; [exact He |].
    constructor; assumption.
Qed.

Lemma find_absent (f : Country -> bool) l :
  Forall (fun r => f r = false) l -> List.find f l = None.
Proof.
  induction 1 as [|x l Hx _ IH]; cbn; [reflexivity |].
  rewrite Hx. exact IH.
Qed.

Lemma key_determines_row l r1 r2 :
  NoDup (id <$> l) -> r1 ∈ l -> r2 ∈ l -> id r1 = id r2 -> r1 = r2.
Proof.
  induction l as [|x l IH]; cbn; intros Hnd H1 H2 Hid.
  - inversion H1.
  - apply NoDup_cons in Hnd as [Hx Hnd].
    apply elem_of_cons in H1 as [-> | H1];
      apply elem_of_cons in H2 as [-> | H2]; try reflexivity.
    + exfalso. apply Hx. rewrite Hid.
      apply list_elem_of_fmap. exists r2. split; [reflexivity | exact H2].
    + exfalso. apply Hx. rewrite <- Hid.
      apply list_elem_of_fmap. exists r1. split; [reflexivity | exact H1].
    + apply IH; assumption.
Qed.

(** An update by key touches one position only. *)
Lemma update_one_row (K : Country -> Country) l1 e l2 :
  NoDup (id <$> (l1 ++ e :: l2)) ->
  (fun r => if Z.eqb (id r) (id e) then K r else r) <$> (l1 ++ e :: l2)
  = l1 ++ K e :: l2.
Proof.
  intros Hnd.
  assert (Hother : forall r, r ∈ l1 ++ e :: l2 -> r <> e ->
                             Z.eqb (id r) (id e) = false).
  { intros r Hr Hne. apply Z.eqb_neq. intros Hid. apply Hne.
    apply (key_determines_row (l1 ++ e :: l2)); try assumption.
    apply elem_of_app. right. left. }
  assert (He1 : e ∉ l1).
  { rewrite fmap_app in Hnd. apply NoDup_app in Hnd as (_ & Hd & _).
    intros Hin. apply (Hd (id e)).
    - apply list_elem_of_fmap. exists e. split; [reflexivity | exact Hin].
    - cbn. left. }
  assert (He2 : e ∉ l2).
  { rewrite fmap_app in Hnd. apply NoDup_app in Hnd as (_ & _ & Hd).
    cbn in Hd. apply NoDup_cons in Hd as [Hd _].
    intros Hin. apply Hd.
    apply list_elem_of_fmap. exists e. split; [reflexivity | exact Hin]. }
  assert (Hsame : forall l, (forall r, r ∈ l -> r ∈ l1 ++ e :: l2) -> e ∉ l ->
            (fun r => if Z.eqb (id r) (id e) then K r else r) <$> l = l).
  { induction l as [|x l IH]; intros Hsub Hnot; cbn; [reflexivity |].
    rewrite Hother.
    - f_equal. apply IH.
      + intros r Hr. apply Hsub. right. exact Hr.
      + intros Hin. apply Hnot. right. exact Hin.
    - apply Hsub. left.
    - intros ->. apply Hnot. left. }
  rewrite fmap_app. cbn. rewrite Z.eqb_refl.
  rewrite (Hsame l1), (Hsame l2); try assumption; try reflexivity.
  - intros r Hr. apply elem_of_app. right. right. exact Hr.
  - intros r Hr. apply elem_of_app. left. exact Hr.
Qed.

End Rows.

Lemma name_is_true (rp : Repository) (nm : string) (r : Country) :
  name_is rp nm r = true <-> nameKey rp r = weight rp nm.
Proof. unfold name_is, nameKey. apply String.eqb_eq. Qed.

Lemma name_is_false (rp : Repository) (nm : string) (r : Country) :
  name_is rp nm r = false <-> nameKey rp r <> weight rp nm.
Proof. unfold name_is, nameKey. apply String.eqb_neq. Qed.

(** [upsert] when the first row with that name is [e]. *)
Lemma upsert_existing (d : CountryData) (rp : Repository)
    (l1 l2 : list Country) (e : Country) :
  NoDup (id <$> rows rp) ->
  rows rp = l1 ++ e :: l2 ->
  nameKey rp e = weight rp (name d) ->
  Forall (fun r => nameKey rp r <> weight rp (name d)) l1 ->
  upsert d rp
  = ({| rows := l1 ++ overwritten e d rp :: l2;
        next_id := next_id rp;
        now := now rp + 1;
        weight := weight rp |}, Update (id e)).
Proof.
  intros Hnd Hrows He Hl1.
  assert (Hfind : findOne (name d) rp = Some e).
  { unfold findOne. rewrite Hrows. clear Hrows Hnd.
    induction Hl1 as [|x l Hx _ IH]; cbn.
    - apply name_is_true in He. rewrite He. reflexivity.
    - apply name_is_false in Hx. rewrite Hx. exact IH. }
  unfold upsert. rewrite Hfind. unfold update. f_equal. f_equal.
  rewrite Hrows. rewrite Hrows in Hnd.
  apply (update_one_row (fun r => {| id := id r; fields := merged (fields r) d;
                                    last_refreshed_at := now rp |})).
  exact Hnd.
Qed.

(** [upsert] when no row has that name. *)
Lemma upsert_fresh (d : CountryData) (rp : Repository) :
  Forall (fun r => nameKey rp r <> weight rp (name d)) (rows rp) ->
  upsert d rp
  = ({| rows := rows rp ++ [inserted d rp];
        next_id := next_id rp + 1;
        now := now rp + 1;
        weight := weight rp |}, Save (name d)).
Proof.
  intros Hnone.
  assert (Hfind : findOne (name d) rp = None).
  { unfold findOne. apply find_absent.
    eapply Forall_impl; [exact Hnone |]. intros r Hr.
    apply name_is_false. exact Hr. }
  unfold upsert. rewrite Hfind. reflexivity.
Qed.

(** Either case applies: the rows split at the first one with that name,
    or no row has it. *)
Lemma first_with_name (nm : string) (rp : Repository) :
  (exists l1 e l2,
      rows rp = l1 ++ e :: l2 /\ nameKey rp e = weight rp nm
      /\ Forall (fun r => nameKey rp r <> weight rp nm) l1)
  \/ Forall (fun r => nameKey rp r <> weight rp nm) (rows rp).
Proof.
  destruct (List.find (name_is rp nm) (rows rp)) as [e|] eqn:E.
  - left. destruct (find_split _ _ _ E) as (l1 & l2 & Hl & He & Hl1).
    exists l1, e, l2. repeat split; [exact Hl | |].
    + apply name_is_true. exact He.
    + eapply Forall_impl; [exact Hl1 |]. intros r Hr.
      apply name_is_false. exact Hr.
  - right. apply Forall_forall. intros r Hr.
    apply name_is_false.
    apply (find_none _ _ E). apply list_elem_of_In. exact Hr.
Qed.

Lemma upsert_weight (d : CountryData) (rp : Repository) :
  weight (upsert d rp).1 = weight rp.
Proof. unfold upsert. destruct (findOne (name d) rp); reflexivity. Qed.

Lemma upsert_consistent (d : CountryData) (rp : Repository) :
  consistent rp -> consistent (upsert d rp).1.
Proof.
  intros [Hnd Hlt].
  destruct (first_with_name (name d) rp)
    as [(l1 & e & l2 & Hrows & He & Hl1) | Hnone].
  - rewrite (upsert_existing d rp l1 l2 e Hnd Hrows He Hl1).
    unfold consistent. cbn.
    rewrite Hrows in Hnd, Hlt. split.
    + rewrite fmap_app in Hnd |- *. exact Hnd.
    + apply Forall_app in Hlt as [H1 H2]. apply Forall_cons in H2 as [H2 H3].
      apply Forall_app. split; [exact H1 |].
      apply Forall_cons. split; [exact H2 | exact H3].
  - rewrite (upsert_fresh d rp Hnone). unfold consistent. cbn. split.
    + rewrite fmap_app. apply NoDup_app. repeat split.
      * exact Hnd.
      * intros k Hk Hk'. cbn in Hk'. apply list_elem_of_singleton in Hk'.
        subst k. apply list_elem_of_fmap in Hk as (r & Hr & Hin).
        rewrite Forall_forall in Hlt. specialize (Hlt r Hin). lia.
      * cbn. apply NoDup_singleton.
    + apply Forall_app. split.
      * eapply Forall_impl; [exact Hlt |]. cbn. intros; lia.
      * apply Forall_singleton. cbn. lia.
Qed.

(** What a written row holds: every column of [d], with the old code in
    place of an [undefined] one. *)
Lemma merged_holds (old d : CountryData) :
  merged old d = holds (currency_code old) d.
Proof. reflexivity. Qed.

Lemma stored_holds (d : CountryData) : stored d = holds Null d.
Proof. reflexivity. Qed.

Lemma holds_defined (kept : Optional string) (d : CountryData) :
  currency_code d <> Undefined -> holds kept d = d.
Proof.
  intros H. destruct d as [n c r p cc er eg f]. unfold holds. cbn in *.
  destruct cc; [destruct (H eq_refl) | reflexivity | reflexivity].
Qed.

Lemma upsert_stores (d : CountryData) (rp : Repository) :
  consistent rp ->
  exists r kept, r ∈ rows (upsert d rp).1 /\ fields r = holds kept d.
Proof.
  intros [Hnd _].
  destruct (first_with_name (name d) rp)
    as [(l1 & e & l2 & Hrows & He & Hl1) | Hnone].
  - rewrite (upsert_existing d rp l1 l2 e Hnd Hrows He Hl1). cbn.
    exists (overwritten e d rp), (currency_code (fields e)).
    split; [| reflexivity].
    apply elem_of_app. right. left.
  - rewrite (upsert_fresh d rp Hnone). cbn.
    exists (inserted d rp), Null. split; [| reflexivity].
    apply elem_of_app. right. left.
Qed.

Lemma upsert_keeps_other (d : CountryData) (rp : Repository) (r : Country) :
  consistent rp -> r ∈ rows rp -> nameKey rp r <> weight rp (name d) ->
  r ∈ rows (upsert d rp).1.
Proof.
  intros [Hnd _] Hr Hne.
  destruct (first_with_name (name d) rp)
    as [(l1 & e & l2 & Hrows & He & Hl1) | Hnone].
  - rewrite (upsert_existing d rp l1 l2 e Hnd Hrows He Hl1). cbn.
    rewrite Hrows in Hr. apply elem_of_app in Hr as [Hr | Hr].
    + apply elem_of_app. left. exact Hr.
    + apply elem_of_cons in Hr as [-> | Hr]; [congruence |].
      apply elem_of_app. right. right. exact Hr.
  - rewrite (upsert_fresh d rp Hnone). cbn.
    apply elem_of_app. left. exact Hr.
Qed.

(** ** Rows by name *)

Lemma emptyRepo_consistent : consistent emptyRepo.
Proof. split; [apply NoDup_nil_2 | constructor]. Qed.

Lemma emptyState_consistent (w : string -> string) :
  consistent (repo (emptyState w)).
Proof. split; [apply NoDup_nil_2 | constructor]. Qed.

Lemma filter_none (f : Country -> bool) (l : list Country) :
  Forall (fun r => f r = false) l -> List.filter f l = [].
Proof.
  induction 1 as [|x l Hx _ IH]; cbn; [reflexivity |].
  rewrite Hx. exact IH.
Qed.

Lemma upsert_named_same (d : CountryData) (rp : Repository) :
  consistent rp ->
  named (name d) (upsert d rp).1
  = match named (name d) rp with
    | [] => [inserted d rp]
    | e :: others => overwritten e d rp :: others
    end.
Proof.
  intros [Hnd _]. unfold named.
  assert (W : forall r, name_is (upsert d rp).1 (name d) r
                        = name_is rp (name d) r).
  { intros r. unfold name_is. rewrite upsert_weight. reflexivity. }
  rewrite (List.filter_ext _ _ W).
  destruct (first_with_name (name d) rp)
    as [(l1 & e & l2 & Hrows & He & Hl1) | Hnone].
  - rewrite (upsert_existing d rp l1 l2 e Hnd Hrows He Hl1). cbn [fst rows].
    rewrite Hrows, !List.filter_app. cbn [List.filter].
    assert (H1 : List.filter (name_is rp (name d)) l1 = []).
    { apply filter_none. eapply Forall_impl; [exact Hl1 |]. intros r Hr.
      apply name_is_false. exact Hr. }
    assert (H2 : name_is rp (name d) e = true)
      by (apply name_is_true; exact He).
    assert (H3 : name_is rp (name d) (overwritten e d rp) = true)
      by (apply name_is_true; reflexivity).
    rewrite H1, H2, H3. reflexivity.
  - rewrite (upsert_fresh d rp Hnone). cbn [fst rows].
    rewrite List.filter_app.
    assert (H1 : List.filter (name_is rp (name d)) (rows rp) = []).
    { apply filter_none. eapply Forall_impl; [exact Hnone |]. intros r Hr.
      apply name_is_false. exact Hr. }
    assert (H3 : name_is rp (name d) (inserted d rp) = true)
      by (apply name_is_true; reflexivity).
    rewrite H1. cbn [List.filter app]. rewrite H3. reflexivity.
Qed.

Lemma upsert_named_other (d : CountryData) (rp : Repository) (nm : string) :
  consistent rp -> weight rp (name d) <> weight rp nm ->
  named nm (upsert d rp).1 = named nm rp.
Proof.
  intros [Hnd _] Hne. unfold named.
  assert (W : forall r, name_is (upsert d rp).1 nm r = name_is rp nm r).
  { intros r. unfold name_is. rewrite upsert_weight. reflexivity. }
  rewrite (List.filter_ext _ _ W).
  assert (Hno : forall r, nameKey rp r = weight rp (name d) ->
                          name_is rp nm r = false).
  { intros r Hr. apply name_is_false. rewrite Hr. exact Hne. }
  destruct (first_with_name (name d) rp)
    as [(l1 & e & l2 & Hrows & He & Hl1) | Hnone].
  - rewrite (upsert_existing d rp l1 l2 e Hnd Hrows He Hl1). cbn [fst rows].
    rewrite Hrows, !List.filter_app. cbn [List.filter].
    rewrite (Hno e He), (Hno (overwritten e d rp) eq_refl). reflexivity.
  - rewrite (upsert_fresh d rp Hnone). cbn [fst rows].
    rewrite List.filter_app. cbn [List.filter].
    rewrite (Hno (inserted d rp) eq_refl). apply app_nil_r.
Qed.

Lemma findOne_same_weight (a b : string) (rp : Repository) :
  weight rp a = weight rp b -> findOne a rp = findOne b rp.
Proof.
  intros H. unfold findOne.
  induction (rows rp) as [|x l IH]; cbn; [reflexivity |].
  unfold name_is at 1 3. rewrite H, IH. reflexivity.
Qed.

Lemma holds_name (kept : Optional string) (d : CountryData) :
  name (holds kept d) = name d.
Proof. reflexivity. Qed.

Lemma findOne_head (nm : string) (rp : Repository) :
  findOne nm rp = head (named nm rp).
Proof.
  unfold findOne, named.
  induction (rows rp) as [|x l IH]; cbn; [reflexivity |].
  destruct (name_is rp nm x); [reflexivity | exact IH].
Qed.

(** ** The refresh loop *)

Lemma generateSummaryImage_spec (env : Env) (st : State) :
  repo (generateSummaryImage env st) = repo st
  /\ draws (generateSummaryImage env st) = draws st
  /\ log (generateSummaryImage env st) = log st ++ [GenerateSummary]
  /\ match summaryBody env (repo st) with
     | Ok img => cache (generateSummaryImage env st) = Some img
     | Err _ => cache (generateSummaryImage env st) = cache st
     end.
Proof.
  unfold generateSummaryImage.
  destruct (summaryBody env (repo st)); cbn; repeat split; reflexivity.
Qed.

Section Loop.

Variables (env : Env) (exchangeRates : gmap string Q).

Lemma prepare_spec (c : RawCountry) (st : State) :
  let t := transform exchangeRates (random env (draws st)) c in
  prepare env exchangeRates c st
  = (t.1, {| repo := repo st;
             draws := if drawsRandom exchangeRates c
                      then S (draws st) else draws st;
             cache := cache st;
             log := log st ++ t.2 ++ [FindOne (name t.1)] |}).
Proof.
  unfold prepare.
  destruct (transform exchangeRates (random env (draws st)) c) as [d acts].
  reflexivity.
Qed.

Lemma prepare_repo (c : RawCountry) (st : State) :
  repo (prepare env exchangeRates c st).2 = repo st
  /\ cache (prepare env exchangeRates c st).2 = cache st
  /\ exists acts, log (prepare env exchangeRates c st).2 = log st ++ acts.
Proof.
  rewrite prepare_spec. cbn. repeat split. eexists. reflexivity.
Qed.

(** The look-up phase logs rate look-ups, a draw and the [findOne]. *)
Lemma prepare_log (c : RawCountry) (st : State) :
  exists acts,
    log (prepare env exchangeRates c st).2 = log st ++ acts
    /\ (GenerateSummary ∉ acts) /\ (FetchRates ∉ acts).
Proof.
  rewrite prepare_spec. cbn. eexists. split; [reflexivity |].
  destruct (transform_fields exchangeRates (random env (draws st)) c)
    as (_ & _ & _ & _ & _ & ->).
  split; intros H;
    repeat (apply elem_of_app in H as [H | H]);
    try (apply list_elem_of_fmap in H as (k & Hk & _); discriminate Hk);
    try (destruct (drawsRandom exchangeRates c));
    repeat (apply elem_of_cons in H as [H | H]; try discriminate H);
    inversion H.
Qed.

Lemma iteration_repo (c : RawCountry) (st : State) :
  repo (iteration env exchangeRates c st)
  = (upsert (transform exchangeRates (random env (draws st)) c).1 (repo st)).1.
Proof.
  unfold iteration. rewrite prepare_spec. cbn. unfold commit. cbn.
  destruct (upsert _ (repo st)) as [rp w]. reflexivity.
Qed.

Lemma iteration_cache (c : RawCountry) (st : State) :
  cache (iteration env exchangeRates c st) = cache st.
Proof.
  unfold iteration. rewrite prepare_spec. cbn. unfold commit. cbn.
  destruct (upsert _ (repo st)) as [rp w]. reflexivity.
Qed.

Lemma iteration_weight (c : RawCountry) (st : State) :
  weight (repo (iteration env exchangeRates c st)) = weight (repo st).
Proof. rewrite iteration_repo. apply upsert_weight. Qed.

Lemma iteration_consistent (c : RawCountry) (st : State) :
  consistent (repo st) -> consistent (repo (iteration env exchangeRates c st)).
Proof.
  intros Hc. rewrite iteration_repo. apply upsert_consistent. exact Hc.
Qed.

Lemma processCountries_cons
    (i : nat) (c : RawCountry) (rest : list RawCountry) (st : State) :
  write_fault env i = None ->
  processCountries env exchangeRates i (c :: rest) st
  = processCountries env exchangeRates (S i) rest
      (iteration env exchangeRates c st).
Proof.
  intros Hw. cbn [processCountries]. unfold iteration.
  destruct (prepare env exchangeRates c st) as [d st1].
  rewrite Hw. reflexivity.
Qed.

Lemma processCountries_fault
    (i : nat) (c : RawCountry) (rest : list RawCountry) (st : State)
    (msg : string) :
  write_fault env i = Some msg ->
  processCountries env exchangeRates i (c :: rest) st
  = ((prepare env exchangeRates c st).2, Some msg).
Proof.
  intros Hw. cbn [processCountries].
  destruct (prepare env exchangeRates c st) as [d st1].
  rewrite Hw. reflexivity.
Qed.

(** Case analysis on the write at position [i]: the first goal is the
    failing write, the second the successful one. *)
Ltac loop_step i :=
  let msg := fresh "msg" in
  let Hw := fresh "Hw" in
  destruct (write_fault env i) as [msg|] eqn:Hw;
  [ rewrite (processCountries_fault i _ _ _ msg Hw); cbn [fst snd]
  | rewrite (processCountries_cons i _ _ _ Hw) ].

Lemma processCountries_log (countries : list RawCountry) :
  forall i st,
    exists acts,
      log (processCountries env exchangeRates i countries st).1
      = log st ++ acts
      /\ (GenerateSummary ∉ acts) /\ (FetchRates ∉ acts).
Proof.
  induction countries as [|c rest IH]; intros i st.
  - exists []. cbn. rewrite app_nil_r.
    split; [reflexivity | split; intros H; inversion H].
  - loop_step i; [apply prepare_log |].
    destruct (IH (S i) (iteration env exchangeRates c st))
      as (acts2 & -> & Hg2 & Hf2).
    destruct (prepare_log c st) as (acts1 & Hl1 & Hg1 & Hf1).
    unfold iteration, commit.
    destruct (upsert _ _) as [rp w] eqn:Hu. cbn. rewrite Hl1.
    exists (acts1 ++ [w] ++ acts2).
    rewrite <- !app_assoc. split; [reflexivity |].
    assert (Hw' : w <> GenerateSummary /\ w <> FetchRates).
    { unfold upsert in Hu.
      destruct (findOne _ _); injection Hu as _ <-; split; discriminate. }
    split; intros H;
      repeat (apply elem_of_app in H as [H | H]);
      try contradiction;
      apply list_elem_of_singleton in H; destruct Hw'; congruence.
Qed.

Lemma processCountries_cache (countries : list RawCountry) :
  forall i st,
    cache (processCountries env exchangeRates i countries st).1 = cache st.
Proof.
  induction countries as [|c rest IH]; intros i st; [reflexivity |].
  loop_step i.
  - apply prepare_repo.
  - rewrite IH. apply iteration_cache.
Qed.

Lemma processCountries_consistent (countries : list RawCountry) :
  forall i st,
    consistent (repo st) ->
    consistent (repo (processCountries env exchangeRates i countries st).1).
Proof.
  induction countries as [|c rest IH]; intros i st Hc; [exact Hc |].
  loop_step i.
  - destruct (prepare_repo c st) as (-> & _). exact Hc.
  - apply IH, iteration_consistent, Hc.
Qed.

Lemma processCountries_weight (countries : list RawCountry) :
  forall i st,
    weight (repo (processCountries env exchangeRates i countries st).1)
    = weight (repo st).
Proof.
  induction countries as [|c rest IH]; intros i st; [reflexivity |].
  loop_step i.
  - destruct (prepare_repo c st) as (-> & _). reflexivity.
  - rewrite IH. apply iteration_weight.
Qed.

(** The loop runs to the end when no write of the list fails. *)
Lemma processCountries_completes (countries : list RawCountry) :
  forall i st,
    (forall j, (j < length countries)%nat -> write_fault env (i + j) = None) ->
    (processCountries env exchangeRates i countries st).2 = None.
Proof.
  induction countries as [|c rest IH]; intros i st Hw; [reflexivity |].
  assert (H0 : write_fault env i = None).
  { rewrite <- (Nat.add_0_r i). apply Hw. cbn. lia. }
  rewrite (processCountries_cons _ _ _ _ H0). apply IH.
  intros j Hj. replace (S i + j)%nat with (i + S j)%nat by lia.
  apply Hw. cbn. lia.
Qed.

(** The loop stops at the first failing write: the state is the one
    reached after the records before it, plus the look-up for the failing
    record. *)
Lemma processCountries_stops (countries : list RawCountry) :
  forall k i st c msg,
    countries !! i = Some c ->
    (forall j, (j < i)%nat -> write_fault env (k + j) = None) ->
    write_fault env (k + i) = Some msg ->
    (processCountries env exchangeRates k (take i countries) st).2 = None
    /\ processCountries env exchangeRates k countries st
       = ((prepare env exchangeRates c
             (processCountries env exchangeRates k (take i countries) st).1).2,
          Some msg).
Proof.
  induction countries as [|c0 rest IH]; intros k i st c msg Hc Hbefore Hat.
  - rewrite lookup_nil in Hc. discriminate Hc.
  - destruct i as [|i].
    + cbn in Hc. injection Hc as ->. rewrite Nat.add_0_r in Hat.
      cbn [take]. split; [reflexivity |].
      apply processCountries_fault. exact Hat.
    + cbn in Hc. cbn [take].
      assert (H0 : write_fault env k = None).
      { rewrite <- (Nat.add_0_r k). apply Hbefore. lia. }
      rewrite !(processCountries_cons _ _ _ _ H0).
      apply IH; [exact Hc | |].
      * intros j Hj. replace (S k + j)%nat with (k + S j)%nat by lia.
        apply Hbefore. lia.
      * replace (S k + i)%nat with (k + S i)%nat by lia. exact Hat.
Qed.

(** The loop over [l1 ++ l2] is the loop over [l1] followed by the loop
    over [l2], provided no write for [l1] fails. *)
Lemma processCountries_app (l1 l2 : list RawCountry) :
  forall i st,
    (forall j, (j < length l1)%nat -> write_fault env (i + j) = None) ->
    processCountries env exchangeRates i (l1 ++ l2) st
    = processCountries env exchangeRates (i + length l1) l2
        (processCountries env exchangeRates i l1 st).1.
Proof.
  induction l1 as [|c rest IH]; intros i st Hw.
  - cbn. rewrite Nat.add_0_r. reflexivity.
  - assert (H0 : write_fault env i = None).
    { rewrite <- (Nat.add_0_r i). apply Hw. cbn. lia. }
    cbn [app]. rewrite !(processCountries_cons _ _ _ _ H0).
    rewrite IH.
    + cbn [length]. replace (S i + length rest)%nat
        with (i + S (length rest))%nat by lia. reflexivity.
    + intros j Hj. replace (S i + j)%nat with (i + S j)%nat by lia.
      apply Hw. cbn. lia.
Qed.

(** Records with other names leave the rows named [nm] alone. *)
Lemma processCountries_named_other (nm : string) (countries : list RawCountry) :
  forall i st,
    consistent (repo st) ->
    Forall (fun c => weight (repo st) (countryName c) <> weight (repo st) nm)
      countries ->
    named nm (repo (processCountries env exchangeRates i countries st).1)
    = named nm (repo st).
Proof.
  induction countries as [|c rest IH]; intros i st Hc Hall; [reflexivity |].
  apply Forall_cons in Hall as [Hne Hall].
  loop_step i.
  - destruct (prepare_repo c st) as (-> & _). reflexivity.
  - rewrite IH.
    + rewrite iteration_repo. apply upsert_named_other; [exact Hc |].
      destruct (transform_fields exchangeRates (random env (draws st)) c)
        as (-> & _). exact Hne.
    + apply iteration_consistent; exact Hc.
    + rewrite iteration_weight. exact Hall.
Qed.


End Loop.

(** ** Search and delete by name *)

Section Like.

Lemma like_percent (p s : string) :
  like (String "%" p) s
  = like p s
    || match s with
       | EmptyString => false
       | String _ s' => like (String "%" p) s'
       end.
Proof. destruct s; reflexivity. Qed.

Lemma like_percent_only (s : string) : like "%" s = true.
Proof.
  induction s as [|a s IH]; [reflexivity |].
  rewrite like_percent, IH. apply orb_true_r.
Qed.

Lemma like_plain_char (a : ascii) (p s : string) :
  plain_char a = true ->
  like (String a p) s
  = match s with
    | EmptyString => false
    | String c s' => Ascii.eqb c a && like p s'
    end.
Proof.
  unfold plain_char. intros H.
  apply andb_true_iff in H as [H H3]. apply andb_true_iff in H as [H1 H2].
  apply negb_true_iff in H1, H2, H3.
  cbn [like]. rewrite H1, H2, H3. reflexivity.
Qed.

Lemma like_plain_prefix (q : string) :
  plain q = true -> forall s, like (q ++ "%") s = String.prefix q s.
Proof.
  induction q as [|a q IH]; intros Hq s.
  - change ("" ++ "%")%string with "%". rewrite like_percent_only.
    destruct s; reflexivity.
  - cbn in Hq. apply andb_true_iff in Hq as [Ha Hq].
    change (String a q ++ "%")%string with (String a (q ++ "%")).
    rewrite (like_plain_char a _ s Ha).
    destruct s as [|c s]; [reflexivity |].
    cbn [String.prefix]. rewrite (IH Hq).
    destruct (ascii_dec a c) as [-> | Hne].
    + rewrite Ascii.eqb_refl. reflexivity.
    + assert (E : Ascii.eqb c a = false)
        by (apply Ascii.eqb_neq; congruence).
      rewrite E. reflexivity.
Qed.

(** Without metacharacters, [LIKE '%q%'] is substring containment. *)
Lemma like_contains (q : string) :
  plain q = true -> forall s, like ("%" ++ q ++ "%") s = includes s q.
Proof.
  intros Hq s. change ("%" ++ q ++ "%")%string with (String "%" (q ++ "%")).
  induction s as [|c s IH].
  - rewrite like_percent, (like_plain_prefix q Hq). cbn. reflexivity.
  - rewrite like_percent, (like_plain_prefix q Hq), IH. reflexivity.
Qed.

End Like.

Section Trim.

Lemma trimStart_cases (s : string) :
  (trimStart s = "" /\ blank s = true)
  \/ (exists a t, trimStart s = String a t /\ is_whitespace a = false
                  /\ blank s = false).
Proof.
  induction s as [|a s IH]; [left; split; reflexivity |].
  cbn. destruct (is_whitespace a) eqn:E.
  - exact IH.
  - right. exists a, s. repeat split. exact E.
Qed.

Lemma trimEnd_nonblank (a : ascii) (t : string) :
  is_whitespace a = false -> trimEnd (String a t) <> "".
Proof. intros H. cbn. rewrite H. discriminate. Qed.

(** [trim] gives the empty string exactly on white-space-only input. *)
Lemma trim_blank (s : string) : trim s = "" <-> blank s = true.
Proof.
  unfold trim.
  destruct (trimStart_cases s) as [[-> Hb] | (a & t & -> & Ha & Hb)].
  - split; [intros _; exact Hb | reflexivity].
  - split.
    + intros H. destruct (trimEnd_nonblank a t Ha H).
    + rewrite Hb. discriminate.
Qed.

End Trim.

Lemma invalidName_spec (nm : JsValue) :
  invalidName nm = true
  <-> (forall s, nm <> JStr s) \/ (exists s, nm = JStr s /\ blank s = true).
Proof.
  destruct nm as [| |b|x|s|xs|fs];
    try (split; [intros _; left; discriminate |];
         intros _; unfold invalidName; cbn;
         rewrite ?orb_true_r; reflexivity).
  unfold invalidName. cbn [truthy is_string negb orb].
  rewrite negb_involutive, orb_false_r.
  split.
  - intros H. right. exists s. split; [reflexivity |].
    apply trim_blank.
    apply orb_true_iff in H as [H | H].
    + apply String.eqb_eq in H. subst s. reflexivity.
    + apply Nat.eqb_eq in H. destruct (trim s); [reflexivity | discriminate].
  - intros [H | (s' & [= <-] & Hb)]; [destruct (H s eq_refl) |].
    apply trim_blank in Hb. rewrite Hb. apply orb_true_r.
Qed.

Lemma getMany_plain (s : string) (rp : Repository) :
  plain (trim (toLowerCase s)) = true ->
  getMany s rp = containing (trim (toLowerCase s)) rp.
Proof.
  intros Hp. unfold getMany, containing.
  apply List.filter_ext. intros r. unfold selected, likePattern.
  apply like_contains. exact Hp.
Qed.

Lemma findCountriesByName_valid (s : string) (rp : Repository) :
  blank s = false ->
  findCountriesByName (JStr s) rp
  = if (length (getMany s rp) =? 0)%nat then Err NotFoundError
    else Ok (getMany s rp).
Proof.
  intros Hb. unfold findCountriesByName.
  destruct (invalidName (JStr s)) eqn:E; [| reflexivity].
  apply invalidName_spec in E as [E | (s' & [= <-] & E)];
    [destruct (E s eq_refl) | congruence].
Qed.

Lemma deleteCountriesByName_valid (s : string) (rp : Repository) :
  blank s = false ->
  deleteCountriesByName (JStr s) rp
  = if (length (getMany s rp) =? 0)%nat then (rp, Err NotFoundError)
    else (remove (getMany s rp) rp, Ok (length (getMany s rp))).
Proof.
  intros Hb. unfold deleteCountriesByName.
  destruct (invalidName (JStr s)) eqn:E; [| reflexivity].
  apply invalidName_spec in E as [E | (s' & [= <-] & E)];
    [destruct (E s eq_refl) | congruence].
Qed.

(** Deleting by key the rows a filter selected leaves the other rows. *)
Lemma remove_selected (f : Country -> bool) (rp : Repository) :
  NoDup (id <$> rows rp) ->
  rows (remove (List.filter f (rows rp)) rp)
  = List.filter (fun r => negb (f r)) (rows rp).
Proof.
  intros Hnd. unfold remove. cbn [rows].
  apply List.filter_ext_in. intros r Hr. f_equal.
  apply list_elem_of_In in Hr.
  destruct (f r) eqn:E.
  - apply existsb_exists. exists (id r). split; [| apply Z.eqb_refl].
    apply list_elem_of_In, list_elem_of_fmap. exists r.
    split; [reflexivity |].
    apply list_elem_of_In, filter_In. split; [| exact E].
    apply list_elem_of_In. exact Hr.
  - destruct (existsb (Z.eqb (id r)) (id <$> List.filter f (rows rp))) eqn:X;
      [| reflexivity].
    apply existsb_exists in X as (k & Hk & Heq).
    apply Z.eqb_eq in Heq. subst k.
    apply list_elem_of_In, list_elem_of_fmap in Hk as (r' & Hid & Hr').
    apply list_elem_of_In, filter_In in Hr' as [Hr' Hf].
    apply list_elem_of_In in Hr'.
    rewrite (key_determines_row (rows rp) r r' Hnd Hr Hr' Hid) in E.
    congruence.
Qed.

Lemma filter_partition_length (f : Country -> bool) (l : list Country) :
  length l
  = (length (List.filter (fun r => negb (f r)) l) + length (List.filter f l))%nat.
Proof.
  induction l as [|x l IH]; [reflexivity |].
  cbn. destruct (f x); cbn; lia.
Qed.

(** ** What the loop does to the table *)

Lemma exact_names (rp : Repository) : exact rp -> nameKeys rp = names rp.
Proof.
  intros H. unfold nameKeys, names, nameKey.
  apply list_fmap_ext. intros _ r _. apply H.
Qed.

(** The two ways an upsert can go. *)
Lemma upsert_cases (d : CountryData) (rp : Repository) :
  consistent rp ->
  (exists l1 e l2,
      rows rp = l1 ++ e :: l2 /\ nameKey rp e = weight rp (name d)
      /\ (upsert d rp).1
         = {| rows := l1 ++ overwritten e d rp :: l2;
              next_id := next_id rp; now := now rp + 1;
              weight := weight rp |})
  \/ ((weight rp (name d) ∉ nameKeys rp)
      /\ (upsert d rp).1
         = {| rows := rows rp ++ [inserted d rp];
              next_id := next_id rp + 1; now := now rp + 1;
              weight := weight rp |}).
Proof.
  intros [Hnd _].
  destruct (first_with_name (name d) rp)
    as [(l1 & e & l2 & Hrows & He & Hl1) | Hnone].
  - left. exists l1, e, l2.
    rewrite (upsert_existing d rp l1 l2 e Hnd Hrows He Hl1). auto.
  - right. rewrite (upsert_fresh d rp Hnone). split; [| reflexivity].
    unfold nameKeys. intros Hin.
    apply list_elem_of_fmap in Hin as (r & Hr & Hin).
    rewrite Forall_forall in Hnone. apply (Hnone r Hin). congruence.
Qed.

Lemma upsert_keys (d : CountryData) (rp : Repository) :
  consistent rp ->
  (weight rp (name d) ∈ nameKeys rp
   /\ nameKeys (upsert d rp).1 = nameKeys rp
   /\ id <$> rows (upsert d rp).1 = id <$> rows rp
   /\ next_id (upsert d rp).1 = next_id rp)
  \/ ((weight rp (name d) ∉ nameKeys rp)
      /\ nameKeys (upsert d rp).1 = nameKeys rp ++ [weight rp (name d)]
      /\ id <$> rows (upsert d rp).1 = (id <$> rows rp) ++ [next_id rp]
      /\ next_id (upsert d rp).1 = next_id rp + 1).
Proof.
  intros Hc.
  destruct (upsert_cases d rp Hc)
    as [(l1 & e & l2 & Hrows & He & ->) | (Hnot & ->)].
  - left. unfold nameKeys, nameKey in *. cbn [rows next_id weight].
    rewrite Hrows, !fmap_app.
    cbn. rewrite He. repeat split.
    apply elem_of_app. right. left.
  - right. unfold nameKeys, nameKey. cbn [rows next_id weight].
    rewrite !fmap_app.
    repeat split. exact Hnot.
Qed.

Lemma named_of_unique (nm : string) (rp : Repository) :
  NoDup (nameKeys rp) -> weight rp nm ∈ nameKeys rp ->
  exists r, named nm rp = [r] /\ nameKey rp r = weight rp nm.
Proof.
  unfold nameKeys, named. induction (rows rp) as [|x l IH]; cbn.
  - intros _ H. inversion H.
  - intros Hnd Hin. apply NoDup_cons in Hnd as [Hx Hnd].
    destruct (name_is rp nm x) eqn:E.
    + apply name_is_true in E.
      exists x. split; [| exact E]. f_equal.
      apply filter_none, Forall_forall. intros r Hr.
      apply name_is_false. intros E'.
      apply Hx. rewrite E, <- E'. apply list_elem_of_fmap.
      exists r. split; [reflexivity | exact Hr].
    + apply name_is_false in E.
      apply elem_of_cons in Hin as [Hin | Hin]; [congruence |].
      apply IH; assumption.
Qed.

(** A name whose weight is in the table is found by the look-up. *)
Lemma findOne_present (nm : string) (rp : Repository) :
  weight rp nm ∈ nameKeys rp ->
  exists r, findOne nm rp = Some r /\ nameKey rp r = weight rp nm
            /\ r ∈ rows rp.
Proof.
  unfold nameKeys, findOne. induction (rows rp) as [|x l IH]; cbn.
  - intros H. inversion H.
  - intros Hin. destruct (name_is rp nm x) eqn:E.
    + exists x. split; [reflexivity |]. split; [| left].
      apply name_is_true. exact E.
    + apply name_is_false in E.
      apply elem_of_cons in Hin as [Hin | Hin]; [congruence |].
      destruct (IH Hin) as (r & H1 & H2 & H3).
      exists r. split; [exact H1 |]. split; [exact H2 | right; exact H3].
Qed.

Section LoopTable.

Variables (env : Env) (exchangeRates : gmap string Q).

Lemma iteration_keys (c : RawCountry) (st : State) :
  consistent (repo st) ->
  let rp := repo st in
  let rp' := repo (iteration env exchangeRates c st) in
  (weight rp (countryName c) ∈ nameKeys rp /\ nameKeys rp' = nameKeys rp
   /\ id <$> rows rp' = id <$> rows rp
   /\ next_id rp' = next_id rp)
  \/ ((weight rp (countryName c) ∉ nameKeys rp)
      /\ nameKeys rp' = nameKeys rp ++ [weight rp (countryName c)]
      /\ id <$> rows rp' = (id <$> rows rp) ++ [next_id rp]
      /\ next_id rp' = next_id rp + 1).
Proof.
  intros Hc rp rp'. unfold rp', rp. rewrite iteration_repo.
  destruct (transform_fields exchangeRates (random env (draws st)) c)
    as (Hn & _).
  rewrite <- Hn. apply upsert_keys. exact Hc.
Qed.

Ltac table_step i :=
  let msg := fresh "msg" in
  let Hw := fresh "Hw" in
  destruct (write_fault env i) as [msg|] eqn:Hw;
  [ rewrite (processCountries_fault env exchangeRates i _ _ _ msg Hw);
    cbn [fst snd];
    rewrite ?(proj1 (prepare_repo env exchangeRates _ _))
  | rewrite (processCountries_cons env exchangeRates i _ _ _ Hw) ].

Lemma processCountries_unique_keys (countries : list RawCountry) :
  forall i st,
    consistent (repo st) -> NoDup (nameKeys (repo st)) ->
    NoDup (nameKeys (repo (processCountries env exchangeRates i countries st).1)).
Proof.
  induction countries as [|c rest IH]; intros i st Hc Hnd; [exact Hnd |].
  table_step i; [exact Hnd |].
  apply IH; [apply iteration_consistent; exact Hc |].
  destruct (iteration_keys c st Hc) as [(_ & -> & _) | (Hnot & -> & _)];
    [exact Hnd |].
  apply NoDup_app. repeat split; [exact Hnd | | apply NoDup_singleton].
  intros n Hn Hn'. apply list_elem_of_singleton in Hn'. congruence.
Qed.

Lemma processCountries_keys_kept (countries : list RawCountry) :
  forall i st n,
    consistent (repo st) -> n ∈ nameKeys (repo st) ->
    n ∈ nameKeys (repo (processCountries env exchangeRates i countries st).1).
Proof.
  induction countries as [|c rest IH]; intros i st n Hc Hn; [exact Hn |].
  table_step i; [exact Hn |].
  apply IH; [apply iteration_consistent; exact Hc |].
  destruct (iteration_keys c st Hc) as [(_ & -> & _) | (_ & -> & _)];
    [exact Hn | apply elem_of_app; left; exact Hn].
Qed.

Lemma processCountries_keys_present (countries : list RawCountry) :
  forall i st,
    consistent (repo st) ->
    (processCountries env exchangeRates i countries st).2 = None ->
    forall c, c ∈ countries ->
      weight (repo st) (countryName c)
      ∈ nameKeys (repo (processCountries env exchangeRates i countries st).1).
Proof.
  induction countries as [|c0 rest IH]; intros i st Hc Hok c Hin.
  - inversion Hin.
  - revert Hok. table_step i; [discriminate |]. intros Hok.
    assert (Hc1 : consistent (repo (iteration env exchangeRates c0 st)))
      by (apply iteration_consistent; exact Hc).
    rewrite <- (iteration_weight env exchangeRates c0 st).
    apply elem_of_cons in Hin as [-> | Hin]; [| apply IH; assumption].
    apply processCountries_keys_kept; [exact Hc1 |].
    rewrite iteration_weight.
    destruct (iteration_keys c0 st Hc) as [(Hp & -> & _) | (_ & -> & _)];
      [exact Hp | apply elem_of_app; right; left].
Qed.

(** When every name of the list is in the table already, the loop only
    updates: keys, the weights of the names and the key counter stay as
    they are. *)
Lemma processCountries_all_present (countries : list RawCountry) :
  forall i st,
    consistent (repo st) ->
    (forall c, c ∈ countries ->
               weight (repo st) (countryName c) ∈ nameKeys (repo st)) ->
    let rp' := repo (processCountries env exchangeRates i countries st).1 in
    nameKeys rp' = nameKeys (repo st)
    /\ id <$> rows rp' = id <$> rows (repo st)
    /\ next_id rp' = next_id (repo st).
Proof.
  induction countries as [|c rest IH]; intros i st Hc Hall; [cbn; auto |].
  table_step i; [cbn; auto |].
  assert (Hin : weight (repo st) (countryName c) ∈ nameKeys (repo st))
    by (apply Hall; left).
  destruct (iteration_keys c st Hc)
    as [(_ & Hn & Hi & Hk) | (Hnot & _)]; [| contradiction].
  destruct (IH (S i) (iteration env exchangeRates c st)) as (H1 & H2 & H3).
  - apply iteration_consistent; exact Hc.
  - intros c' Hc'. rewrite Hn, iteration_weight. apply Hall. right. exact Hc'.
  - cbn in H1, H2, H3 |- *. rewrite H1, H2, H3. auto.
Qed.

(** Keys are only ever added, at the end, and from the counter on. *)
Lemma processCountries_keys (countries : list RawCountry) :
  forall i st,
    consistent (repo st) ->
    let rp' := repo (processCountries env exchangeRates i countries st).1 in
    exists new,
      id <$> rows rp' = (id <$> rows (repo st)) ++ new
      /\ (length new <= length countries)%nat
      /\ Forall (fun k => next_id (repo st) <= k) new
      /\ next_id rp' = next_id (repo st) + Z.of_nat (length new).
Proof.
  induction countries as [|c rest IH]; intros i st Hc.
  - exists []. cbn. rewrite app_nil_r, Z.add_0_r. auto.
  - table_step i.
    + exists []. cbn. rewrite app_nil_r, Z.add_0_r.
      repeat split; [lia | constructor].
    + destruct (IH (S i) (iteration env exchangeRates c st))
        as (new & H1 & H2 & H3 & H4);
        [apply iteration_consistent; exact Hc |].
      cbn in H1, H4 |- *.
      destruct (iteration_keys c st Hc)
        as [(_ & _ & Hi & Hk) | (_ & _ & Hi & Hk)];
        cbn in Hi, Hk; rewrite Hi, Hk in *.
      * exists new. repeat split; [exact H1 | lia | exact H3 | exact H4].
      * exists (next_id (repo st) :: new).
        rewrite <- app_assoc in H1. repeat split.
        -- exact H1.
        -- cbn. lia.
        -- constructor; [lia |].
           eapply Forall_impl; [exact H3 |]. cbn. intros; lia.
        -- rewrite H4. cbn [length]. lia.
Qed.

End LoopTable.

Lemma refresh_success (env : Env) (st : State) :
  (refreshCountriesandSave env st).2 = Ok tt ->
  exists countries rates,
    countries_response env = Some countries
    /\ rates_response env = Some rates
    /\ let looped :=
         processCountries env (default ∅ rates) 0 countries
           (emit [FetchRates] (emit [FetchCountries] st)) in
       looped.2 = None
       /\ (refreshCountriesandSave env st).1
          = generateSummaryImage env looped.1.
Proof.
  unfold refreshCountriesandSave.
  destruct (countries_response env) as [countries|]; [| discriminate].
  destruct (rates_response env) as [rates|]; [| discriminate].
  destruct (processCountries env (default ∅ rates) 0 countries _)
    as [st' [msg|]] eqn:E; [discriminate |].
  intros _. exists countries, rates.
  split; [reflexivity |]. split; [reflexivity |].
  rewrite E. cbn. split; reflexivity.
Qed.

Lemma refresh_repo (env : Env) (st : State) :
  repo (refreshCountriesandSave env st).1
  = match countries_response env, rates_response env with
    | Some countries, Some rates =>
        repo (processCountries env (default ∅ rates) 0 countries
                (emit [FetchRates] (emit [FetchCountries] st))).1
    | _, _ => repo st
    end.
Proof.
  unfold refreshCountriesandSave.
  destruct (countries_response env) as [countries|]; [| reflexivity].
  destruct (rates_response env) as [rates|]; [| reflexivity].
  destruct (processCountries env (default ∅ rates) 0 countries _)
    as [st' [msg|]]; [reflexivity |].
  cbn. apply generateSummaryImage_spec.
Qed.

Lemma refresh_weight (env : Env) (st : State) :
  weight (repo (refreshCountriesandSave env st).1) = weight (repo st).
Proof.
  rewrite refresh_repo.
  destruct (countries_response env); [| reflexivity].
  destruct (rates_response env); [| reflexivity].
  rewrite processCountries_weight. reflexivity.
Qed.

(** The last record carrying a name decides what the table holds under
    that name. *)
Lemma processCountries_last_wins
    (env : Env) (exchangeRates : gmap string Q) (st : State)
    (pre post : list RawCountry) (c : RawCountry) :
  consistent (repo st) ->
  (forall j, (j < length (pre ++ c :: post))%nat -> write_fault env j = None) ->
  Forall (fun c' => weight (repo st) (countryName c')
                    <> weight (repo st) (countryName c)) post ->
  let before := (processCountries env exchangeRates 0 pre st).1 in
  let final :=
    (processCountries env exchangeRates 0 (pre ++ c :: post) st).1 in
  let d := (transform exchangeRates (random env (draws before)) c).1 in
  exists r,
    named (countryName c) (repo final)
    = r :: tail (named (countryName c) (repo before))
    /\ fields r = holds (keptCode (countryName c) (repo before)) d
    /\ id r = match findOne (countryName c) (repo before) with
              | Some e => id e
              | None => next_id (repo before)
              end.
Proof.
  intros Hc Hw Hpost before final d.
  assert (Hw1 : forall j, (j < length pre)%nat -> write_fault env (0 + j) = None).
  { intros j Hj. apply Hw. rewrite length_app. cbn. lia. }
  assert (Hw2 : write_fault env (0 + length pre) = None).
  { apply Hw. rewrite length_app. cbn. lia. }
  assert (Hfinal : final
                   = (processCountries env exchangeRates
                        (S (0 + length pre)) post
                        (iteration env exchangeRates c before)).1).
  { unfold final. rewrite (processCountries_app _ _ _ _ _ _ Hw1).
    rewrite (processCountries_cons _ _ _ _ _ _ Hw2). reflexivity. }
  assert (Hcb : consistent (repo before))
    by (apply processCountries_consistent; exact Hc).
  assert (Hwb : weight (repo before) = weight (repo st))
    by apply processCountries_weight.
  assert (Hd : name d = countryName c).
  { destruct (transform_fields exchangeRates (random env (draws before)) c)
      as (Hn & _). exact Hn. }
  assert (Hstep : named (countryName c) (repo final)
                  = match named (countryName c) (repo before) with
                    | [] => [inserted d (repo before)]
                    | e :: others => overwritten e d (repo before) :: others
                    end).
  { rewrite Hfinal.
    rewrite processCountries_named_other.
    - rewrite iteration_repo. fold d. rewrite <- Hd.
      apply upsert_named_same. exact Hcb.
    - apply iteration_consistent; exact Hcb.
    - rewrite iteration_weight, Hwb. exact Hpost. }
  unfold keptCode. rewrite !findOne_head, Hstep.
  destruct (named (countryName c) (repo before)) as [|e others].
  - exists (inserted d (repo before)). repeat split.
  - exists (overwritten e d (repo before)). repeat split.
Qed.

(** The first row under a name is a row of the table, and the one the
    look-up returns. *)
Lemma named_head (nm : string) (rp : Repository) (r : Country)
    (others : list Country) :
  named nm rp = r :: others ->
  findOne nm rp = Some r /\ r ∈ rows rp /\ nameKey rp r = weight rp nm.
Proof.
  intros H. rewrite findOne_head, H. split; [reflexivity |].
  assert (Hin : In r (named nm rp)) by (rewrite H; left; reflexivity).
  apply filter_In in Hin as [Hin Hn]. split.
  - apply list_elem_of_In. exact Hin.
  - apply name_is_true. exact Hn.
Qed.

(** ** Examples *)

Example parseInt_reads_a_prefix :
  parseInt (JStr "  -12abc") = Some (-12)
  /\ parseInt (JStr "0x1F") = Some 31
  /\ parseInt (JStr "abc") = None
  /\ parseInt (JNum (25 # 10)) = Some 2
  /\ parseInt JNull = None
  /\ parseInt (JArr [JStr "7"; JNum 3]) = Some 7.
Proof. repeat split; reflexivity. Qed.

(** Numbers printed in exponent notation lose all but their first digit:
    [parseInt(1.5e21)] is 1 and [parseInt(0.0000005)] is 5. *)
Example parseInt_exponent_notation :
  parseInt (JNum (15 * inject_Z (10 ^ 20))) = Some 1
  /\ parseInt (JNum (5 # 10000000)) = Some 5.
Proof. split; vm_compute; reflexivity. Qed.

(** [toFixed] rounds the double it is given, not the decimal the double
    was written as: 1.005 is stored slightly below, and prints as 1.00. *)
Example toFixed2_rounds :
  toFixed2 (binary64 (1000 # 3)) = binary64 (33333 # 100)
  /\ toFixed2 (binary64 (5 # 1000)) = binary64 (1 # 100)
  /\ toFixed2 (binary64 (1005 # 1000)) = binary64 1
  /\ (toFixed2 0 == 0)%Q.
Proof. repeat split; vm_compute; reflexivity. Qed.

(** The multiplier reaches 2000 when [Math.random()] returns its largest
    value, 1 - 2^-53: the sum is rounded up. *)
Example randomMultiplier_reaches_2000 :
  (0 <= 1 - (1 # 2 ^ 53) < 1)%Q
  /\ (randomMultiplier (1 - (1 # 2 ^ 53)) == 2000)%Q
  /\ (randomMultiplier 0 == 1000)%Q.
Proof. repeat split; vm_compute; reflexivity || discriminate. Qed.

(** Reading a key of the rate mapping also finds what every object
    inherits. *)
Example getRate_reads_the_prototype :
  getRate {[ "USD" := 1%Q ]} "USD" = RateNumber 1
  /\ getRate {[ "USD" := 1%Q ]} "EUR" = RateNull
  /\ getRate {[ "USD" := 1%Q ]} "toString" = RateInherited "toString"
  /\ getRate {[ "toString" := 2%Q ]} "toString" = RateNumber 2.
Proof. repeat split; reflexivity. Qed.

(** Lower-casing covers the capital letters of Latin-1: the first letter
    of "Åland" (code unit 197) becomes code unit 229. *)
Example toLowerCase_latin1 :
  toLowerCase (String (ascii_of_nat 197) "LAND")
  = String (ascii_of_nat 229) "land"
  /\ toLowerCase (String (ascii_of_nat 215) "") = String (ascii_of_nat 215) "".
Proof. split; reflexivity. Qed.

Example like_wildcards :
  like "%king%" "united kingdom" = true
  /\ like "%king%" "france" = false
  /\ like "%u_a%" "usa" = true
  /\ like "%100\%%" "100% sure" = true
  /\ like "%100\%%" "1000" = false.
Proof. repeat split; reflexivity. Qed.

(** The two end-to-end records of the specification. *)
Example wakanda_has_no_estimate :
  let d := (transform {[ "USD" := 1%Q ]} (1 # 2) wakanda).1 in
  currency_code d = Null /\ exchange_rate d = RateNull
  /\ (estimated_gbp d == 0)%Q.
Proof. repeat split; reflexivity. Qed.

Example testland_estimate :
  let d := (transform {[ "USD" := 2%Q ]} (1 # 2) testland).1 in
  (estimated_gbp d == 75000)%Q.
Proof. vm_compute. reflexivity. Qed.

(** Population 1 at rate 3 with [Math.random()] = 0: the estimate is the
    double nearest to 1000/3, the stored value the double nearest to
    333.33; both are multiples of 2^-44. *)
Example thirdland_estimate :
  let d := (transform {[ "XYZ" := 3%Q ]} 0 thirdland).1 in
  (scaled 1 (randomMultiplier 0) 3 == 5864062014805333 # 17592186044416)%Q
  /\ (estimated_gbp d == 5864003374185185 # 17592186044416)%Q
  /\ (estimated_gbp d < 1000 # 3)%Q.
Proof. vm_compute. repeat split; reflexivity. Qed.

(** A refresh of four records, the last one a second "France". *)
Example refresh_run :
  let outcome :=
    refreshCountriesandSave (calm [france; uk; wakanda; france]) initial in
  outcome.2 = Ok tt
  /\ ((fun r => (id r, name (fields r))) <$> rows (repo outcome.1))
     = [(1, "France"); (2, "United Kingdom"); (3, "Wakanda")]
  /\ draws outcome.1 = 3%nat
  /\ log outcome.1
     = [FetchCountries; FetchRates;
        RateLookup "EUR"; RateLookup "EUR"; RandomDraw;
        FindOne "France"; Save "France";
        RateLookup "GBP"; RateLookup "GBP"; RandomDraw;
        FindOne "United Kingdom"; Save "United Kingdom";
        FindOne "Wakanda"; Save "Wakanda";
        RateLookup "EUR"; RateLookup "EUR"; RandomDraw;
        FindOne "France"; Update 1;
        GenerateSummary].
Proof. vm_compute. repeat split; reflexivity. Qed.

(** An update leaves out a [currency_code] that is [undefined]: after
    France with the code EUR, a France whose currency entry has no code
    keeps EUR in the row, while its rate becomes null. *)
Example update_keeps_the_code :
  let final :=
    repo (processCountries (calm []) euroRates 0 [france; france_codeless]
            initial).1 in
  currency_code (transform euroRates (1 # 2) france_codeless).1 = Undefined
  /\ ((fun r => (name (fields r), currency_code (fields r),
                 exchange_rate (fields r))) <$> rows final)
     = [("France", Value "EUR", RateNull)].
Proof. vm_compute. split; reflexivity. Qed.

(** The query goes into the LIKE pattern as it is: an underscore in it
    matches any character, so the query ["_"] selects every row although
    no name contains an underscore. *)
Example underscore_query_selects_all :
  findCountriesByName (JStr "_") ukAndFrance = Ok [ukRow; franceRow]
  /\ containing "_" ukAndFrance = [].
Proof. split; reflexivity. Qed.

(** ** The claims *)




(** C2: the block reads the rate with the test
    [currencyCode && exchangeRates[currencyCode]], against its own
    comments ("Get exchange rate if currency code is found in exchange
    rates API", "If currency_code is not found in exchange rates API, set
    to null").  At two inputs the code departs from them and from the
    claim: a code the mapping sends to 0 is found in the mapping, yet the
    record gets no rate; and a code that names a member of
    [Object.prototype] is not in the mapping, yet the record gets that
    member as its rate.  Everywhere else the claim holds: with an empty
    or absent currency list the record has no code and no rate, the
    mapping is not read and the result does not depend on it; with a
    non-empty list the code is the one of the first entry, the rate is the
    mapping's value for it, and stays null when the code is missing, null
    or empty or when the mapping and [Object.prototype] have no such key;
    and a record has a rate only if it has a code. *)
Theorem C2_rate_lookup :
  (let zeroRates : gmap string Q := {[ "XYZ" := 0%Q ]} in
   let d := (transform zeroRates 0%Q zeroland).1 in
   firstCode zeroland = Value "XYZ"
   /\ zeroRates !! "XYZ" = Some 0%Q
   /\ currency_code d = Value "XYZ"
   /\ exchange_rate d = RateNull)
  /\ (let noRates : gmap string Q := ∅ in
      let d := (transform noRates 0%Q builtinland).1 in
      firstCode builtinland = Value "constructor"
      /\ noRates !! "constructor" = None
      /\ currency_code d = Value "constructor"
      /\ exchange_rate d = RateInherited "constructor")
  /\ (forall (exchangeRates : gmap string Q) (r : Q) (c : RawCountry),
        let d := (transform exchangeRates r c).1 in
        let acts := (transform exchangeRates r c).2 in
        (raw_currencies c = None \/ raw_currencies c = Some [] ->
           currency_code d = Null /\ exchange_rate d = RateNull
           /\ (forall k, RateLookup k ∉ acts)
           /\ (forall rates' : gmap string Q,
                 transform rates' r c = transform exchangeRates r c))
        /\ (forall first rest,
              raw_currencies c = Some (first :: rest) ->
              currency_code d = code first
              /\ (forall k v, code first = Value k -> k <> "" ->
                              exchangeRates !! k = Some v -> ~ (v == 0)%Q ->
                              exchange_rate d = RateNumber v
                              /\ RateLookup k ∈ acts)
              /\ (forall k, code first = Value k ->
                            exchangeRates !! k = None -> inherited k = false ->
                            exchange_rate d = RateNull)
              /\ (code first = Undefined \/ code first = Null
                  \/ code first = Value "" ->
                  exchange_rate d = RateNull
                  /\ forall k, RateLookup k ∉ acts))
        /\ (exchange_rate d <> RateNull ->
            exists k, currency_code d = Value k /\ k <> "")).
Proof.
  split; [repeat split; reflexivity |].
  split; [repeat split; reflexivity |].
  intros exchangeRates r c d acts.
  destruct (transform_fields exchangeRates r c)
    as (_ & _ & Hcode & Hrate & _ & Hacts).
  fold d in Hcode, Hrate. fold acts in Hacts.
  split; [| split].
  - intros Hnone.
    assert (Hany : forall rates',
               resolveCurrency rates' c = (Null, RateNull, []))
      by (intros; apply resolveCurrency_none; exact Hnone).
    rewrite Hcode, Hrate, (Hany exchangeRates). repeat split.
    + intros k Hk. rewrite Hacts in Hk. unfold drawsRandom in Hk.
      rewrite (Hany exchangeRates) in Hk. cbn in Hk.
      rewrite estimable_no_rate in Hk by discriminate. inversion Hk.
    + intros rates'. unfold transform.
      rewrite (Hany rates'), (Hany exchangeRates). reflexivity.
  - intros first rest Hcur.
    assert (Hrc : resolveCurrency exchangeRates c =
                  match code first with
                  | Value k =>
                      if String.eqb k "" then (code first, RateNull, [])
                      else
                        match getRate exchangeRates k with
                        | RateNumber v =>
                            if Qeq_bool v 0 then (code first, RateNull, [k])
                            else (code first, RateNumber v, [k; k])
                        | RateInherited m => (code first, RateInherited m, [k; k])
                        | RateNull => (code first, RateNull, [k])
                        end
                  | _ => (code first, RateNull, [])
                  end).
    { unfold resolveCurrency, hasCurrency, firstCode. rewrite Hcur.
      reflexivity. }
    rewrite Hcode, Hrate, Hacts. unfold drawsRandom. rewrite Hrc.
    clear Hcode Hrate Hacts Hrc.
    split; [| split; [| split]].
    + destruct (code first) as [| |k]; try reflexivity.
      destruct (String.eqb k ""); [reflexivity |].
      destruct (getRate exchangeRates k) as [|v|m]; try reflexivity.
      destruct (Qeq_bool v 0); reflexivity.
    + intros k v Hk Hne Hv Hnz. rewrite Hk.
      apply String.eqb_neq in Hne. rewrite Hne.
      unfold getRate. rewrite Hv.
      destruct (Qeq_bool v 0) eqn:E.
      * apply Qeq_bool_iff in E. contradiction.
      * split; [reflexivity |]. cbn. left.
    + intros k Hk Hnone Hinh. rewrite Hk.
      unfold getRate. rewrite Hnone, Hinh.
      destruct (String.eqb k ""); reflexivity.
    + intros Hc.
      assert (Hrc : match code first with
                    | Value k =>
                        if String.eqb k "" then (code first, RateNull, [])
                        else
                          match getRate exchangeRates k with
                          | RateNumber v =>
                              if Qeq_bool v 0 then (code first, RateNull, [k])
                              else (code first, RateNumber v, [k; k])
                          | RateInherited m =>
                              (code first, RateInherited m, [k; k])
                          | RateNull => (code first, RateNull, [k])
                          end
                    | _ => (code first, RateNull, [])
                    end = (code first, RateNull, @nil string)).
      { destruct Hc as [-> | [-> | ->]]; reflexivity. }
      rewrite Hrc. cbn [fst snd]. split; [reflexivity |].
      rewrite estimable_no_rate by discriminate.
      intros k Hin. cbn in Hin. inversion Hin.
  - rewrite Hcode, Hrate. unfold resolveCurrency, hasCurrency, firstCode.
    destruct (raw_currencies c) as [[|first rest]|];
      try (intros Hx; destruct (Hx eq_refl)).
    destruct (code first) as [| |k]; try (intros Hx; destruct (Hx eq_refl)).
    destruct (String.eqb_spec k "") as [-> | Hne];
      [intros Hx; destruct (Hx eq_refl) |].
    intros _. exists k. split; [| exact Hne].
    destruct (getRate exchangeRates k) as [|v|m]; try reflexivity.
    destruct (Qeq_bool v 0); reflexivity.
Qed.

(** Wakanda has no currencies, Testland uses USD at rate 2. *)
Lemma C2_rate_lookup_witness :
  (currency_code (transform {[ "USD" := 1%Q ]} 0%Q wakanda).1 = Null
   /\ exchange_rate (transform {[ "USD" := 1%Q ]} 0%Q wakanda).1 = RateNull)
  /\ exchange_rate (transform {[ "USD" := 2%Q ]} 0%Q testland).1
     = RateNumber 2%Q.
Proof.
  destruct C2_rate_lookup as (_ & _ & G).
  split.
  - destruct (G {[ "USD" := 1%Q ]} 0%Q wakanda) as [H _].
    destruct H as (H1 & H2 & _); [right; reflexivity |].
    split; [exact H1 | exact H2].
  - destruct (G {[ "USD" := 2%Q ]} 0%Q testland) as (_ & H & _).
    destruct (H {| code := Value "USD" |} [] eq_refl) as (_ & H2 & _).
    destruct (H2 "USD" 2%Q) as [H3 _].
    + reflexivity.
    + discriminate.
    + reflexivity.
    + discriminate.
    + exact H3.
Defined.

(** C3, as stated, fails: in a table whose collation ignores case, as the
    default of the database server does, "France" and "france" are the
    same name.  The second record overwrites the row of the first, and
    the table ends with one row, named "france". *)
Lemma C3_case_variants_share_a_row :
  ~ (forall (env : Env) (exchangeRates : gmap string Q) (c1 c2 : RawCountry)
            (st : State),
       consistent (repo st) ->
       write_fault env 0%nat = None -> write_fault env 1%nat = None ->
       countryName c1 <> countryName c2 ->
       let outcome := processCountries env exchangeRates 0 [c1; c2] st in
       exists r1 r2,
         r1 ∈ rows (repo outcome.1) /\ r2 ∈ rows (repo outcome.1)
         /\ name (fields r1) = countryName c1
         /\ name (fields r2) = countryName c2
         /\ id r1 <> id r2).
Proof.
  intros H.
  destruct (H (calm []) euroRates france france_lowercase initial)
    as (r1 & r2 & H1 & H2 & _ & _ & Hid).
  - exact emptyRepo_consistent.
  - reflexivity.
  - reflexivity.
  - discriminate.
  - assert (E : rows (repo (processCountries (calm []) euroRates 0
                              [france; france_lowercase] initial).1)
                = [ {| id := 1;
                       fields := (transform euroRates (1 # 2)
                                    france_lowercase).1;
                       last_refreshed_at := 1 |} ])
      by (vm_compute; reflexivity).
    cbn zeta in H1, H2. rewrite E in H1, H2.
    apply list_elem_of_singleton in H1, H2. subst r1 r2.
    apply Hid. reflexivity.
Qed.

(** C3 (amended): the upsert of the refresh loop looks for a row whose
    name equals the record's name under the collation of the [name]
    column.  If there is one, the first such row is overwritten in place:
    same position, same key, no row added; it takes every column of the
    record, the name included, except that a [currency_code] that is
    [undefined] leaves the stored one.  If there is none, a row is
    appended under a new key.  Every record of the loop goes through this
    upsert.  So two source records whose names are equal under the
    collation end up in one row, which holds the name of the second; two
    records whose names differ under the collation end up in two rows
    with different keys.  When the collation tells all names apart, the
    look-up is the exact match. *)
Theorem C3_upsert_by_name :
  (forall (d : CountryData) (rp : Repository),
      consistent rp ->
      (forall r, r ∈ rows rp -> nameKey rp r = weight rp (name d) ->
         exists l1 e l2,
           rows rp = l1 ++ e :: l2
           /\ nameKey rp e = weight rp (name d)
           /\ Forall (fun r' => nameKey rp r' <> weight rp (name d)) l1
           /\ upsert d rp
              = ({| rows := l1 ++ overwritten e d rp :: l2;
                    next_id := next_id rp;
                    now := now rp + 1;
                    weight := weight rp |}, Update (id e))
           /\ fields (overwritten e d rp)
              = holds (currency_code (fields e)) d
           /\ length (rows (upsert d rp).1) = length (rows rp)
           /\ id <$> rows (upsert d rp).1 = id <$> rows rp)
      /\ ((forall r, r ∈ rows rp -> nameKey rp r <> weight rp (name d)) ->
          upsert d rp
          = ({| rows := rows rp ++ [inserted d rp];
                next_id := next_id rp + 1;
                now := now rp + 1;
                weight := weight rp |}, Save (name d))
          /\ fields (inserted d rp) = holds Null d))
  /\ (forall env exchangeRates i c rest st,
        write_fault env i = None ->
        exists st1,
          processCountries env exchangeRates i (c :: rest) st
          = processCountries env exchangeRates (S i) rest st1
          /\ repo st1
             = (upsert (transform exchangeRates (random env (draws st)) c).1
                       (repo st)).1)
  /\ (forall env exchangeRates c1 c2 st,
        consistent (repo st) ->
        write_fault env 0%nat = None -> write_fault env 1%nat = None ->
        let w := weight (repo st) in
        let outcome := processCountries env exchangeRates 0 [c1; c2] st in
        let middle := processCountries env exchangeRates 0 [c1] st in
        outcome.2 = None
        /\ (w (countryName c1) = w (countryName c2) ->
            exists r,
              findOne (countryName c1) (repo outcome.1) = Some r
              /\ findOne (countryName c2) (repo outcome.1) = Some r
              /\ name (fields r) = countryName c2
              /\ id <$> rows (repo outcome.1) = id <$> rows (repo middle.1))
        /\ (w (countryName c1) <> w (countryName c2) ->
            exists r1 r2,
              r1 ∈ rows (repo outcome.1) /\ r2 ∈ rows (repo outcome.1)
              /\ name (fields r1) = countryName c1
              /\ name (fields r2) = countryName c2
              /\ id r1 <> id r2))
  /\ (forall (nm : string) (rp : Repository),
        exact rp ->
        findOne nm rp
        = List.find (fun r => String.eqb (name (fields r)) nm) (rows rp)).
Proof.
  split; [| split; [| split]].
  - intros d rp [Hnd Hlt]. split.
    + intros r Hr Hname.
      destruct (first_with_name (name d) rp)
        as [(l1 & e & l2 & Hrows & He & Hl1) | Hnone].
      * exists l1, e, l2.
        pose proof (upsert_existing d rp l1 l2 e Hnd Hrows He Hl1) as Hu.
        repeat split; try assumption.
        -- rewrite Hu, Hrows. cbn. rewrite !length_app. reflexivity.
        -- rewrite Hu, Hrows. cbn. rewrite !fmap_app. reflexivity.
      * rewrite Forall_forall in Hnone. destruct (Hnone r Hr Hname).
    + intros Hnone. split; [| reflexivity].
      apply upsert_fresh. apply Forall_forall. exact Hnone.
  - intros env exchangeRates i c rest st Hw.
    exists (iteration env exchangeRates c st). split.
    + apply processCountries_cons. exact Hw.
    + apply iteration_repo.
  - intros env exchangeRates c1 c2 st Hc Hw0 Hw1 w outcome middle.
    unfold outcome, middle, w. clear outcome middle w.
    rewrite !(processCountries_cons _ _ _ _ _ _ Hw0).
    rewrite (processCountries_cons _ _ _ _ _ _ Hw1).
    cbn [processCountries fst snd]. split; [reflexivity |].
    set (st1 := iteration env exchangeRates c1 st).
    set (d1 := (transform exchangeRates (random env (draws st)) c1).1).
    set (d2 := (transform exchangeRates (random env (draws st1)) c2).1).
    assert (Hn1 : name d1 = countryName c1)
      by apply transform_fields.
    assert (Hn2 : name d2 = countryName c2)
      by apply transform_fields.
    assert (Hr1 : repo st1 = (upsert d1 (repo st)).1) by apply iteration_repo.
    assert (Hc1 : consistent (repo st1))
      by (rewrite Hr1; apply upsert_consistent; exact Hc).
    assert (Hw : weight (repo st1) = weight (repo st))
      by (rewrite Hr1; apply upsert_weight).
    rewrite iteration_repo. fold d2.
    split.
    + intros Hsame.
      assert (Hin : weight (repo st1) (name d2) ∈ nameKeys (repo st1)).
      { rewrite Hw, Hn2, <- Hsame, <- Hn1, Hr1.
        destruct (upsert_keys d1 (repo st) Hc) as [(Hp & -> & _) | (_ & -> & _)];
          [exact Hp | apply elem_of_app; right; left]. }
      destruct (upsert_keys d2 (repo st1) Hc1)
        as [(_ & _ & Hids & _) | (Hnot & _)]; [| contradiction].
      pose proof (upsert_named_same d2 (repo st1) Hc1) as Hnamed.
      destruct (findOne_present (name d2) (repo st1) Hin) as (e & He & _ & _).
      rewrite findOne_head in He.
      destruct (named (name d2) (repo st1)) as [|e' others]; [discriminate |].
      injection He as ->.
      destruct (named_head _ _ _ _ Hnamed) as (Hf & _ & _).
      exists (overwritten e d2 (repo st1)).
      rewrite <- Hn2.
      split; [| split; [exact Hf | split; [reflexivity | exact Hids]]].
      rewrite <- Hf. apply findOne_same_weight.
      rewrite upsert_weight, Hw, Hn2. exact Hsame.
    + intros Hne.
      destruct (upsert_stores d1 (repo st) Hc) as (r1 & k1 & Hin1 & Hf1).
      rewrite <- Hr1 in Hin1.
      destruct (upsert_stores d2 (repo st1) Hc1) as (r2 & k2 & Hin2 & Hf2).
      assert (Hin1' : r1 ∈ rows (upsert d2 (repo st1)).1).
      { apply upsert_keeps_other; [exact Hc1 | exact Hin1 |].
        unfold nameKey. rewrite Hw, Hf1, holds_name, Hn1, Hn2. exact Hne. }
      exists r1, r2. repeat split; try assumption.
      * rewrite Hf1. exact Hn1.
      * rewrite Hf2. exact Hn2.
      * intros Hid.
        assert (Heq : r1 = r2).
        { apply (key_determines_row (rows (upsert d2 (repo st1)).1));
            try assumption.
          apply (upsert_consistent d2 (repo st1) Hc1). }
        apply Hne. rewrite <- Hn1, <- Hn2.
        rewrite <- (holds_name k1 d1), <- (holds_name k2 d2).
        rewrite <- Hf1, <- Hf2, Heq. reflexivity.
  - intros nm rp Hex. unfold findOne. induction (rows rp) as [|x l IH];
      [reflexivity |].
    cbn. unfold name_is at 1. rewrite !Hex, IH. reflexivity.
Qed.

(** "France" and "france": one row, named "france", in a table that
    ignores case; two rows in a table that compares code units. *)
Lemma C3_upsert_by_name_witness :
  (exists r,
     findOne "France"
       (repo (processCountries (calm []) euroRates 0
                [france; france_lowercase] initial).1) = Some r
     /\ name (fields r) = "france")
  /\ (exists r1 r2,
        let final :=
          repo (processCountries (calm []) euroRates 0
                  [france; france_lowercase] (emptyState binaryCollation)).1 in
        r1 ∈ rows final /\ r2 ∈ rows final
        /\ name (fields r1) = "France" /\ name (fields r2) = "france"
        /\ id r1 <> id r2).
Proof.
  destruct C3_upsert_by_name as (_ & _ & H & _).
  split.
  - destruct (H (calm []) euroRates france france_lowercase initial)
      as (_ & Hs & _).
    + exact emptyRepo_consistent.
    + reflexivity.
    + reflexivity.
    + destruct (Hs eq_refl) as (r & H1 & _ & H3 & _).
      exists r. split; [exact H1 | exact H3].
  - destruct (H (calm []) euroRates france france_lowercase
                (emptyState binaryCollation)) as (_ & _ & Hd).
    + apply emptyState_consistent.
    + reflexivity.
    + reflexivity.
    + destruct Hd as (r1 & r2 & Hr); [discriminate |].
      exists r1, r2. exact Hr.
Defined.

(** C4: when the country fetch fails, refresh ends with the
    external-API error and nothing else happens: the rates are not
    requested, no record is transformed, the table and the cache are
    untouched.  The rates are requested only once the countries have
    arrived; when that request fails, refresh ends with the external-API
    error before any record is transformed or written. *)
Theorem C4_fetch_failures (env : Env) (st : State) :
  let outcome := refreshCountriesandSave env st in
  (countries_response env = None ->
     outcome.2 = Err (ExternalAPIError "Could not fetch data from Countries API")
     /\ repo outcome.1 = repo st
     /\ draws outcome.1 = draws st
     /\ cache outcome.1 = cache st
     /\ log outcome.1 = log st ++ [FetchCountries])
  /\ (forall countries,
        countries_response env = Some countries ->
        rates_response env = None ->
        outcome.2
        = Err (ExternalAPIError "Could not fetch data from Exchange Rate API")
        /\ repo outcome.1 = repo st
        /\ draws outcome.1 = draws st
        /\ cache outcome.1 = cache st
        /\ log outcome.1 = log st ++ [FetchCountries; FetchRates])
  /\ (forall countries,
        countries_response env = Some countries ->
        exists later,
          log outcome.1 = log st ++ [FetchCountries; FetchRates] ++ later
          /\ (FetchRates ∉ later))
  /\ (FetchRates ∈ drop (length (log st)) (log outcome.1) ->
      is_Some (countries_response env)).
Proof.
  intros outcome. unfold outcome, refreshCountriesandSave.
  split; [| split; [| split]].
  - intros ->. cbn. repeat split; reflexivity.
  - intros countries -> ->. cbn. rewrite <- app_assoc.
    repeat split; reflexivity.
  - intros countries ->.
    destruct (rates_response env) as [rates|].
    + destruct (processCountries_log env (default ∅ rates) countries 0
                  (emit [FetchRates] (emit [FetchCountries] st)))
        as (acts & Hlog & Hg & Hf).
      destruct (processCountries env (default ∅ rates) 0 countries
                  (emit [FetchRates] (emit [FetchCountries] st)))
        as [st' [msg|]]; cbn in Hlog |- *.
      * exists acts. rewrite Hlog, <- !app_assoc. split; [reflexivity | exact Hf].
      * exists (acts ++ [GenerateSummary]).
        destruct (generateSummaryImage_spec env st') as (_ & _ & -> & _).
        rewrite Hlog, <- !app_assoc. split; [reflexivity |].
        intros H. apply elem_of_app in H as [H | H]; [contradiction |].
        apply list_elem_of_singleton in H. discriminate H.
    + exists []. cbn. rewrite <- app_assoc.
      split; [reflexivity | intros H; inversion H].
  - destruct (countries_response env) as [countries|]; [intros _; eauto |].
    cbn. rewrite drop_app_length. intros H.
    apply list_elem_of_singleton in H. discriminate H.
Qed.

Lemma C4_fetch_failures_witness :
  (refreshCountriesandSave offline initial).2
  = Err (ExternalAPIError "Could not fetch data from Countries API")
  /\ repo (refreshCountriesandSave offline initial).1 = emptyRepo.
Proof.
  destruct (C4_fetch_failures offline initial) as [H _].
  destruct (H eq_refl) as (H1 & H2 & _).
  split; [exact H1 | exact H2].
Defined.

(** C5: when the write for the record at position [i] fails, refresh ends
    with the error "Failed to save countries to database: <cause>"; the
    table is the one reached after the records at positions below [i],
    whose writes all went through and stay: each of those records is found
    in the table under its name, and the row found under a name holds the
    data of the last of them with that name (with the stored currency
    code where the record has none).  The failing record only got as far
    as its look-up; no summary is generated; and the records after
    position [i] play no part in the outcome. *)
Theorem C5_write_failure
    (env : Env) (st : State) (countries : list RawCountry)
    (rates : option (gmap string Q)) (i : nat) (msg : string) :
  countries_response env = Some countries ->
  rates_response env = Some rates ->
  (i < length countries)%nat ->
  (forall j, (j < i)%nat -> write_fault env j = None) ->
  write_fault env i = Some msg ->
  let exchangeRates := default ∅ rates in
  let st0 := emit [FetchRates] (emit [FetchCountries] st) in
  let before := processCountries env exchangeRates 0 (take i countries) st0 in
  let outcome := refreshCountriesandSave env st in
  before.2 = None
  /\ outcome.2
     = Err (SaveFailed ("Failed to save countries to database: " ++ msg)%string)
  /\ repo outcome.1 = repo before.1
  /\ cache outcome.1 = cache st
  /\ (GenerateSummary ∉ drop (length (log st)) (log outcome.1))
  /\ (exists c,
        countries !! i = Some c
        /\ outcome.1 = (prepare env exchangeRates c before.1).2)
  /\ (forall later,
        processCountries env exchangeRates 0 (take (S i) countries ++ later) st0
        = processCountries env exchangeRates 0 countries st0)
  /\ (consistent (repo st) ->
      forall j c,
        (j < i)%nat -> countries !! j = Some c ->
        exists r,
          findOne (countryName c) (repo outcome.1) = Some r
          /\ r ∈ rows (repo outcome.1))
  /\ (consistent (repo st) ->
      forall pre c post,
        take i countries = pre ++ c :: post ->
        Forall (fun c' => weight (repo st) (countryName c')
                          <> weight (repo st) (countryName c)) post ->
        let reached := (processCountries env exchangeRates 0 pre st0).1 in
        let d := (transform exchangeRates (random env (draws reached)) c).1 in
        exists r,
          findOne (countryName c) (repo outcome.1) = Some r
          /\ r ∈ rows (repo outcome.1)
          /\ fields r = holds (keptCode (countryName c) (repo reached)) d).
Proof.
  intros Hcs Hrs Hi Hbefore Hat exchangeRates st0 before outcome.
  destruct (lookup_lt_is_Some_2 countries i Hi) as [c Hc].
  destruct (processCountries_stops env exchangeRates countries 0 i st0 c msg
              Hc Hbefore Hat) as [Hok Hstop].
  fold before in Hok, Hstop.
  assert (Hout : outcome
                 = ((prepare env exchangeRates c before.1).2,
                    Err (SaveFailed
                           ("Failed to save countries to database: " ++ msg)%string))).
  { unfold outcome, refreshCountriesandSave. rewrite Hcs, Hrs.
    fold exchangeRates. fold st0. rewrite Hstop. reflexivity. }
  destruct (prepare_repo env exchangeRates c before.1) as (Hrepo & Hcache & _).
  split; [exact Hok |].
  rewrite Hout. cbn [fst snd].
  split; [reflexivity |].
  split; [exact Hrepo |].
  split.
  { rewrite Hcache. unfold before. rewrite processCountries_cache. reflexivity. }
  split.
  { destruct (processCountries_log env exchangeRates countries 0 st0)
      as (acts & Hlog & Hg & _).
    rewrite Hstop in Hlog. cbn [fst] in Hlog. rewrite Hlog. unfold st0. cbn.
    rewrite <- !app_assoc, drop_app_length. cbn.
    intros H. repeat (apply elem_of_cons in H as [H | H]; try discriminate H).
    contradiction. }
  split.
  { exists c. split; [exact Hc | reflexivity]. }
  split.
  { intros later.
    assert (Hc' : (take (S i) countries ++ later) !! i = Some c).
    { rewrite lookup_app_l by (rewrite length_take; lia).
      rewrite lookup_take_lt by lia. exact Hc. }
    destruct (processCountries_stops env exchangeRates
                (take (S i) countries ++ later) 0 i st0 c msg Hc' Hbefore Hat)
      as [_ Hstop'].
    rewrite Hstop', Hstop.
    rewrite take_app_le by (rewrite length_take; lia).
    rewrite take_take.
    replace (i `min` S i)%nat with i by lia. reflexivity. }
  assert (Hst0 : repo st0 = repo st) by reflexivity.
  split.
  - intros Hcons j c' Hj Hc'. rewrite Hrepo.
    assert (Hin : c' ∈ take i countries).
    { apply list_elem_of_lookup. exists j.
      rewrite lookup_take_lt by exact Hj. exact Hc'. }
    assert (Hc0 : consistent (repo st0)) by (rewrite Hst0; exact Hcons).
    pose proof (processCountries_keys_present env exchangeRates
                  (take i countries) 0 st0 Hc0 Hok c' Hin) as Hkey.
    fold before in Hkey.
    rewrite <- (processCountries_weight env exchangeRates (take i countries)
                  0 st0) in Hkey.
    fold before in Hkey.
    destruct (findOne_present _ _ Hkey) as (r & H1 & _ & H3).
    exists r. split; assumption.
  - intros Hcons pre c' post Hsplit Hpost. rewrite Hrepo.
    assert (Hc0 : consistent (repo st0)) by (rewrite Hst0; exact Hcons).
    assert (Hlen : length (pre ++ c' :: post) = i).
    { rewrite <- Hsplit, length_take. lia. }
    destruct (processCountries_last_wins env exchangeRates st0 pre post c' Hc0)
      as (r & Hnamed & Hf & _).
    + intros j Hj. apply Hbefore. lia.
    + rewrite Hst0. exact Hpost.
    + rewrite <- Hsplit in Hnamed. fold before in Hnamed.
      destruct (named_head _ _ _ _ Hnamed) as (H1 & H2 & _).
      exists r. split; [exact H1 |]. split; [exact H2 | exact Hf].
Qed.

(** France is written, the write for the United Kingdom fails: France
    stays in the table. *)
Lemma C5_write_failure_witness :
  let env := secondWriteFails [france; uk; wakanda] in
  (refreshCountriesandSave env initial).2
  = Err (SaveFailed
           "Failed to save countries to database: ER_LOCK_WAIT_TIMEOUT")
  /\ exists r,
       findOne "France" (repo (refreshCountriesandSave env initial).1) = Some r
       /\ fields r = (transform euroRates (1 # 2) france).1.
Proof.
  intros env.
  destruct (C5_write_failure env initial [france; uk; wakanda]
              (Some euroRates) 1 "ER_LOCK_WAIT_TIMEOUT")
    as (_ & H2 & _ & _ & _ & _ & _ & _ & H9).
  - reflexivity.
  - reflexivity.
  - cbn. lia.
  - intros j Hj. destruct j as [|j]; [reflexivity | lia].
  - reflexivity.
  - split; [exact H2 |].
    destruct (H9 emptyRepo_consistent [] france []) as (r & H & _ & Hf).
    + reflexivity.
    + constructor.
    + exists r. split; [exact H |]. rewrite Hf. reflexivity.
Defined.

(** C6: when both fetches and every write succeed, refresh generates the
    summary last and reports success whatever happens inside the
    generation; if it fails there, the cached artifact is the one from
    before.  [generateSummaryImage] itself has no failing outcome: it
    returns a state in which only the log and, on success, the cache
    differ. *)
Theorem C6_summary_failure_swallowed
    (env : Env) (st : State) (countries : list RawCountry)
    (rates : option (gmap string Q)) :
  countries_response env = Some countries ->
  rates_response env = Some rates ->
  (forall j, (j < length countries)%nat -> write_fault env j = None) ->
  let outcome := refreshCountriesandSave env st in
  outcome.2 = Ok tt
  /\ (exists before, log outcome.1 = before ++ [GenerateSummary])
  /\ (forall msg, summary_fault env = Some msg ->
        outcome.2 = Ok tt /\ cache outcome.1 = cache st)
  /\ (forall st',
        repo (generateSummaryImage env st') = repo st'
        /\ draws (generateSummaryImage env st') = draws st'
        /\ log (generateSummaryImage env st') = log st' ++ [GenerateSummary]
        /\ (forall msg, summaryBody env (repo st') = Err msg ->
              cache (generateSummaryImage env st') = cache st')).
Proof.
  intros Hcs Hrs Hw outcome.
  set (st0 := emit [FetchRates] (emit [FetchCountries] st)).
  pose proof (processCountries_completes env (default ∅ rates) countries 0 st0 Hw)
    as Hdone.
  pose proof (processCountries_cache env (default ∅ rates) countries 0 st0)
    as Hcache.
  assert (Hout : outcome
                 = (generateSummaryImage env
                      (processCountries env (default ∅ rates) 0 countries st0).1,
                    Ok tt)).
  { unfold outcome, refreshCountriesandSave. rewrite Hcs, Hrs. fold st0.
    destruct (processCountries env (default ∅ rates) 0 countries st0)
      as [st' err]. cbn in Hdone. rewrite Hdone. reflexivity. }
  rewrite Hout. cbn [fst snd].
  split; [reflexivity |].
  split.
  { eexists. apply generateSummaryImage_spec. }
  split.
  { intros msg Hm. split; [reflexivity |].
    pose proof (generateSummaryImage_spec env
                  (processCountries env (default ∅ rates) 0 countries st0).1)
      as (_ & _ & _ & H).
    unfold summaryBody in H. rewrite Hm in H. rewrite H. exact Hcache. }
  intros st'.
  destruct (generateSummaryImage_spec env st') as (H1 & H2 & H3 & H4).
  repeat split; try assumption.
  intros msg Hm. rewrite Hm in H4. exact H4.
Qed.

Lemma C6_summary_failure_swallowed_witness :
  (refreshCountriesandSave (imageFails [france; uk]) initial).2 = Ok tt
  /\ cache (refreshCountriesandSave (imageFails [france; uk]) initial).1 = None.
Proof.
  destruct (C6_summary_failure_swallowed (imageFails [france; uk]) initial
              [france; uk] (Some euroRates)) as (_ & _ & H & _).
  - reflexivity.
  - reflexivity.
  - intros j _. reflexivity.
  - apply (H "Input buffer contains unsupported image format"). reflexivity.
Defined.

(** C7, as stated, fails: the query is trimmed before matching, so
    ["king "] (with a trailing space) finds "United Kingdom", whose name
    does not contain the query. *)
Lemma C7_query_is_trimmed :
  ~ (forall (s : string) (rp : Repository),
       invalidName (JStr s) = false ->
       findCountriesByName (JStr s) rp
       = match containing (toLowerCase s) rp with
         | [] => Err NotFoundError
         | found => Ok found
         end).
Proof.
  intros H. specialize (H "king " ukOnly eq_refl).
  vm_compute in H. discriminate H.
Qed.

(** C7 (amended): the search fails with ValidationError exactly for the
    queries that are not a string or are made of white space only (the
    empty string included).  For a valid query let [q] be the query
    lower-cased and trimmed.  When [q] and the stored names are made of
    printable ASCII characters and [q] contains none of the characters
    [%], [_] and backslash, the search fails with NotFoundError exactly
    when no stored name contains [q] after lower-casing, and otherwise
    returns exactly the rows whose lower-cased name contains [q].  So
    "king" and "KING" both return a row named "United Kingdom" and never
    one named "France".  (On other text the database compares under the
    collation of the column, which [like] does not follow; the statement
    is kept to the text on which the two agree.) *)
Theorem C7_search :
  (forall (nm : JsValue) (rp : Repository),
      findCountriesByName nm rp = Err ValidationError
      <-> (forall s, nm <> JStr s) \/ (exists s, nm = JStr s /\ blank s = true))
  /\ (forall (s : string) (rp : Repository),
        blank s = false ->
        plain (trim (toLowerCase s)) = true ->
        let q := trim (toLowerCase s) in
        printable q = true ->
        Forall (fun r => printable (name (fields r)) = true) (rows rp) ->
        (findCountriesByName (JStr s) rp = Err NotFoundError
         <-> containing q rp = [])
        /\ (containing q rp <> [] ->
            findCountriesByName (JStr s) rp = Ok (containing q rp)))
  /\ (forall (rp : Repository) (r : Country) (s : string),
        s = "king" \/ s = "KING" ->
        r ∈ rows rp ->
        name (fields r) = "United Kingdom" ->
        Forall (fun r' => printable (name (fields r')) = true) (rows rp) ->
        findCountriesByName (JStr s) rp = Ok (containing "king" rp)
        /\ r ∈ containing "king" rp
        /\ forall r', r' ∈ containing "king" rp ->
                      name (fields r') <> "France").
Proof.
  assert (Hvalid : forall s rp,
             blank s = false -> plain (trim (toLowerCase s)) = true ->
             findCountriesByName (JStr s) rp
             = match containing (trim (toLowerCase s)) rp with
               | [] => Err NotFoundError
               | found => Ok found
               end).
  { intros s rp Hb Hp. rewrite (findCountriesByName_valid s rp Hb).
    rewrite (getMany_plain s rp Hp).
    destruct (containing (trim (toLowerCase s)) rp); reflexivity. }
  split; [| split].
  - intros nm rp. rewrite <- invalidName_spec.
    unfold findCountriesByName.
    destruct (invalidName nm); [split; reflexivity |].
    split; [| discriminate].
    destruct (length (getMany (queryString nm) rp) =? 0)%nat; discriminate.
  - intros s rp Hb Hp q _ _. rewrite (Hvalid s rp Hb Hp). fold q.
    destruct (containing q rp) as [|r found].
    + split; [split; reflexivity | intros H; destruct (H eq_refl)].
    + split; [split; discriminate | reflexivity].
  - intros rp r s Hs Hr Hname _.
    assert (Hin : r ∈ containing "king" rp).
    { apply list_elem_of_In, filter_In. split.
      - apply list_elem_of_In. exact Hr.
      - rewrite Hname. reflexivity. }
    assert (Hfind : findCountriesByName (JStr s) rp = Ok (containing "king" rp)).
    { destruct Hs as [-> | ->].
      - rewrite (Hvalid "king" rp eq_refl eq_refl).
        change (trim (toLowerCase "king")) with "king".
        destruct (containing "king" rp); [inversion Hin | reflexivity].
      - rewrite (Hvalid "KING" rp eq_refl eq_refl).
        change (trim (toLowerCase "KING")) with "king".
        destruct (containing "king" rp); [inversion Hin | reflexivity]. }
    split; [exact Hfind |]. split; [exact Hin |].
    intros r' Hr' Hfr.
    apply list_elem_of_In, filter_In in Hr' as [_ Hinc].
    rewrite Hfr in Hinc. discriminate Hinc.
Qed.

Lemma C7_search_witness :
  findCountriesByName (JStr "KING") ukAndFrance = Ok [ukRow]
  /\ findCountriesByName (JStr "   ") ukAndFrance = Err ValidationError.
Proof.
  destruct C7_search as (H1 & _ & H3). split.
  - destruct (H3 ukAndFrance ukRow "KING") as (H & _).
    + right. reflexivity.
    + left.
    + reflexivity.
    + repeat constructor.
    + exact H.
  - apply H1. right. exists "   ". split; reflexivity.
Defined.

(** C8, as stated, fails for the same reason: deleting with the query
    ["king "] removes "United Kingdom", which does not contain it. *)
Lemma C8_delete_query_is_trimmed :
  ~ (forall (s : string) (rp : Repository),
       invalidName (JStr s) = false ->
       rows (deleteCountriesByName (JStr s) rp).1
       = List.filter
           (fun r => negb (includes (toLowerCase (name (fields r)))
                                    (toLowerCase s)))
           (rows rp)).
Proof.
  intros H. specialize (H "king " ukOnly eq_refl).
  vm_compute in H. discriminate H.
Qed.

(** C8 (amended): delete fails exactly when the search fails, with the
    same error, and then leaves the table as it was.  For a valid query
    whose lower-cased, trimmed form [q] contains none of [%], [_] and
    backslash, when [q] and the stored names are made of printable ASCII
    characters and [q] matches some row, delete removes exactly the rows
    whose lower-cased name contains [q], keeps all others as they are, and
    returns the number of rows removed.  (The restriction to printable
    ASCII text is the one of the search.) *)
Theorem C8_delete :
  (forall (nm : JsValue) (rp : Repository) (e : QueryError),
      (deleteCountriesByName nm rp).2 = Err e
      <-> findCountriesByName nm rp = Err e)
  /\ (forall (nm : JsValue) (rp : Repository) (e : QueryError),
        (deleteCountriesByName nm rp).2 = Err e ->
        (deleteCountriesByName nm rp).1 = rp)
  /\ (forall (s : string) (rp : Repository),
        NoDup (id <$> rows rp) ->
        blank s = false ->
        plain (trim (toLowerCase s)) = true ->
        let q := trim (toLowerCase s) in
        printable q = true ->
        Forall (fun r => printable (name (fields r)) = true) (rows rp) ->
        containing q rp <> [] ->
        deleteCountriesByName (JStr s) rp
        = ({| rows :=
                List.filter
                  (fun r => negb (includes (toLowerCase (name (fields r))) q))
                  (rows rp);
              next_id := next_id rp;
              now := now rp;
              weight := weight rp |},
           Ok (length (containing q rp)))
        /\ length (rows rp)
           = (length (rows (deleteCountriesByName (JStr s) rp).1)
              + length (containing q rp))%nat).
Proof.
  split; [| split].
  - intros nm rp e. unfold deleteCountriesByName, findCountriesByName.
    destruct (invalidName nm); cbn;
      [split; intros [= <-]; reflexivity |].
    destruct (length (getMany (queryString nm) rp) =? 0)%nat; cbn;
      [split; intros [= <-]; reflexivity | split; discriminate].
  - intros nm rp e. unfold deleteCountriesByName.
    destruct (invalidName nm); cbn; [reflexivity |].
    destruct (length (getMany (queryString nm) rp) =? 0)%nat; cbn;
      [reflexivity | discriminate].
  - intros s rp Hnd Hb Hp q _ _ Hsome.
    assert (Hdel : deleteCountriesByName (JStr s) rp
                   = (remove (containing q rp) rp, Ok (length (containing q rp)))).
    { rewrite (deleteCountriesByName_valid s rp Hb).
      rewrite (getMany_plain s rp Hp). fold q.
      destruct (containing q rp); [destruct (Hsome eq_refl) | reflexivity]. }
    assert (Hrows : rows (remove (containing q rp) rp)
                    = List.filter
                        (fun r => negb (includes
                                          (toLowerCase (name (fields r))) q))
                        (rows rp)).
    { unfold containing. apply remove_selected. exact Hnd. }
    rewrite Hdel. cbn [fst]. split.
    + f_equal. unfold remove at 1. rewrite <- Hrows. reflexivity.
    + rewrite Hrows. unfold containing. apply filter_partition_length.
Qed.

Lemma C8_delete_witness :
  deleteCountriesByName (JStr "King") ukAndFrance
  = ({| rows := [franceRow]; next_id := 3; now := 2;
        weight := caseInsensitive |}, Ok 1%nat)
  /\ (deleteCountriesByName (JStr "zz-nonexistent") ukAndFrance).1
     = ukAndFrance.
Proof.
  destruct C8_delete as (_ & H2 & H3). split.
  - destruct (H3 "King" ukAndFrance) as [H _].
    + cbn. apply NoDup_cons. split; [| apply NoDup_singleton].
      intros H. apply list_elem_of_singleton in H. discriminate H.
    + reflexivity.
    + reflexivity.
    + reflexivity.
    + repeat constructor.
    + discriminate.
    + exact H.
  - apply (H2 _ _ NotFoundError). reflexivity.
Defined.

(** C9, as stated, fails: a negative source value is kept as it is. *)
Lemma C9_negative_population_kept :
  ~ (forall (exchangeRates : gmap string Q) (r : Q) (c : RawCountry),
       0 <= population (transform exchangeRates r c).1).
Proof.
  intros H. specialize (H ∅ 0%Q debtland). vm_compute in H.
  apply H. reflexivity.
Qed.

(** C9 (amended): the stored population is an integer; it equals the
    source value when that value is a number equal to an integer of
    magnitude below 10^21, it is non-negative whenever the source value is
    a non-negative number, and it is 0 when the source value is missing,
    null, a boolean, an object, an empty array or a string that does not
    begin (after white space and a sign) with a digit. *)
Theorem C9_population (exchangeRates : gmap string Q) (r : Q) (c : RawCountry) :
  let p := population (transform exchangeRates r c).1 in
  (forall x n, raw_population c = JNum x -> (x == inject_Z n)%Q ->
               Z.abs n < 10 ^ 21 -> p = n)
  /\ (forall x, raw_population c = JNum x -> (0 <= x)%Q -> 0 <= p)
  /\ (raw_population c = JUndefined \/ raw_population c = JNull -> p = 0)
  /\ (forall b, raw_population c = JBool b -> p = 0)
  /\ (forall fs, raw_population c = JObj fs -> p = 0)
  /\ (raw_population c = JArr [] -> p = 0)
  /\ (forall s, raw_population c = JStr s -> nonNumeric s = true -> p = 0).
Proof.
  intros p.
  destruct (transform_fields exchangeRates r c) as (_ & Hp & _).
  fold p in Hp. rewrite Hp. unfold populationOf.
  split; [| split; [| split; [| split; [| split; [| split]]]]].
  - intros x n -> Hx Hn. cbn. rewrite (parseInt_num_integer x n Hx Hn).
    reflexivity.
  - intros x -> Hx. cbn.
    destruct (parseInt_num_nonneg x Hx) as (k & -> & Hk). exact Hk.
  - intros [-> | ->]; reflexivity.
  - intros b ->. destruct b; reflexivity.
  - intros fs ->. reflexivity.
  - intros ->. reflexivity.
  - intros s -> Hs. cbn. rewrite (parseInt_str_nonNumeric s Hs). reflexivity.
Qed.

(** Testland reports 100; a record with population ["unknown"] gets 0. *)
Lemma C9_population_witness :
  population (transform ∅ 0%Q testland).1 = 100
  /\ population (transform ∅ 0%Q nowhere).1 = 0.
Proof.
  split.
  - destruct (C9_population ∅ 0%Q testland) as (H & _).
    apply (H 100%Q 100); [reflexivity | reflexivity | reflexivity].
  - destruct (C9_population ∅ 0%Q nowhere) as (_ & _ & _ & _ & _ & _ & H).
    apply (H "unknown"); reflexivity.
Defined.



(** ** Further properties: the transformer *)

Lemma estimatedGbp_nonneg (p : Z) (o : RateValue) (r : Q) :
  (0 <= r)%Q -> (0 <= estimatedGbp p o r)%Q.
Proof.
  intros Hr. unfold estimatedGbp.
  destruct o as [|x|k]; try apply Qle_refl.
  destruct (estimable p (RateNumber x)) eqn:E; [| apply Qle_refl].
  apply estimable_true in E as (Hp & y & [= <-] & Hx).
  apply scaled_nonneg; [exact Hp | exact Hx |].
  unfold randomMultiplier. apply binary64_nonneg.
  assert (H : (0 <= binary64 (r * 1000))%Q) by (apply binary64_nonneg; lra).
  lra.
Qed.

(** X1: the stored estimate is never negative, whatever the record and the
    rate mapping, as long as [Math.random()] returns a non-negative
    number. *)
Theorem X1_estimate_nonnegative
    (exchangeRates : gmap string Q) (r : Q) (c : RawCountry) :
  (0 <= r)%Q ->
  (0 <= estimated_gbp (transform exchangeRates r c).1)%Q.
Proof.
  intros Hr.
  destruct (transform_fields exchangeRates r c) as (_ & _ & _ & _ & -> & _).
  apply toFixed2_nonneg, estimatedGbp_nonneg, Hr.
Qed.

Lemma X1_estimate_nonnegative_witness :
  (0 <= estimated_gbp (transform euroRates (1 # 2) debtland).1)%Q.
Proof. apply X1_estimate_nonnegative. discriminate. Defined.

Lemma or_str_nonempty (o : option string) (d : string) :
  d <> "" -> or_str o d <> "".
Proof.
  intros Hd. unfold or_str. destruct o as [s|]; [| exact Hd].
  destruct (String.eqb_spec s ""); assumption.
Qed.

Lemma or_null_cases (o : option string) :
  (or_null o = None /\ (o = None \/ o = Some ""))
  \/ (exists s, o = Some s /\ s <> "" /\ or_null o = Some s).
Proof.
  unfold or_null, truthy_str. destruct o as [s|]; [| left; auto].
  destruct (String.eqb_spec s "") as [-> | Hne]; cbn.
  - left. auto.
  - right. exists s. auto.
Qed.

(** X2: the stored record holds no empty text.  A missing or empty
    region becomes "Unknown", a missing or empty capital or flag becomes
    null, and non-empty source texts are stored unchanged; the name and
    the region are never empty, the capital and the flag URL never the
    empty string. *)
Theorem X2_text_fields_normalised
    (exchangeRates : gmap string Q) (r : Q) (c : RawCountry) :
  let d := (transform exchangeRates r c).1 in
  name d <> "" /\ region d <> ""
  /\ capital d <> Some "" /\ flag_url d <> Some ""
  /\ (raw_region c = None \/ raw_region c = Some "" -> region d = "Unknown")
  /\ (raw_capital c = None \/ raw_capital c = Some "" -> capital d = None)
  /\ (raw_flag c = None \/ raw_flag c = Some "" -> flag_url d = None)
  /\ (forall s, s <> "" ->
        (raw_name c = Some s -> name d = s)
        /\ (raw_region c = Some s -> region d = s)
        /\ (raw_capital c = Some s -> capital d = Some s)
        /\ (raw_flag c = Some s -> flag_url d = Some s)).
Proof.
  unfold transform.
  destruct (resolveCurrency exchangeRates c) as [[cc er] ls].
  cbn [fst name region capital flag_url].
  assert (Hkeep : forall o s, s <> "" -> o = Some s ->
                              or_str o "Unknown" = s /\ or_null o = Some s).
  { intros o s Hs ->. unfold or_str, or_null, truthy_str.
    apply String.eqb_neq in Hs. rewrite Hs. split; reflexivity. }
  assert (Hdrop : forall o, o = None \/ o = Some "" ->
                            or_str o "Unknown" = "Unknown" /\ or_null o = None).
  { intros o [-> | ->]; split; reflexivity. }
  assert (Hnull : forall o, or_null o <> Some "").
  { intros o H. destruct (or_null_cases o) as [[E _] | (s & _ & Hs & E)];
      rewrite E in H; [discriminate | congruence]. }
  split; [apply or_str_nonempty; discriminate |].
  split; [apply or_str_nonempty; discriminate |].
  split; [apply Hnull |]. split; [apply Hnull |].
  split; [intros H; apply (Hdrop _ H) |].
  split; [intros H; apply (Hdrop _ H) |].
  split; [intros H; apply (Hdrop _ H) |].
  intros s Hs. unfold countryName.
  repeat split; intros H; apply (Hkeep _ s Hs H).
Qed.

Lemma X2_text_fields_normalised_witness :
  region (transform euroRates 0%Q testland).1 = "Unknown"
  /\ capital (transform euroRates 0%Q france).1 = Some "Paris".
Proof.
  split.
  - destruct (X2_text_fields_normalised euroRates 0%Q testland)
      as (_ & _ & _ & _ & H & _).
    apply H. left. reflexivity.
  - destruct (X2_text_fields_normalised euroRates 0%Q france)
      as (_ & _ & _ & _ & _ & _ & _ & H).
    destruct (H "Paris") as (_ & _ & H3 & _); [discriminate |].
    apply H3. reflexivity.
Defined.

(** ** Further properties: what a refresh does to the table *)

(** X3: a refresh keeps the table well formed: keys stay unique, and if
    no two rows had names that are equal under the collation before, none
    do afterwards.  After a successful refresh every source record has
    exactly one row under its name; when the collation tells all names
    apart, that row carries the record's name as it is. *)
Theorem X3_one_row_per_name (env : Env) (st : State) :
  consistent (repo st) ->
  NoDup (nameKeys (repo st)) ->
  let outcome := refreshCountriesandSave env st in
  consistent (repo outcome.1)
  /\ NoDup (nameKeys (repo outcome.1))
  /\ (outcome.2 = Ok tt ->
      forall countries c,
        countries_response env = Some countries -> c ∈ countries ->
        exists r,
          named (countryName c) (repo outcome.1) = [r]
          /\ r ∈ rows (repo outcome.1)
          /\ nameKey (repo outcome.1) r
             = weight (repo outcome.1) (countryName c)
          /\ (exact (repo st) -> name (fields r) = countryName c)).
Proof.
  intros Hc Hnd outcome.
  assert (Hrepo := refresh_repo env st). fold outcome in Hrepo.
  assert (Hcons : consistent (repo outcome.1)).
  { rewrite Hrepo. destruct (countries_response env); [| exact Hc].
    destruct (rates_response env); [| exact Hc].
    apply processCountries_consistent. exact Hc. }
  assert (Huniq : NoDup (nameKeys (repo outcome.1))).
  { rewrite Hrepo. destruct (countries_response env); [| exact Hnd].
    destruct (rates_response env); [| exact Hnd].
    apply processCountries_unique_keys; assumption. }
  assert (Hwt : weight (repo outcome.1) = weight (repo st))
    by apply refresh_weight.
  split; [exact Hcons |]. split; [exact Huniq |].
  intros Hok countries c Hcs Hin.
  destruct (named_of_unique (countryName c) (repo outcome.1) Huniq)
    as (r & Hr & Hk).
  { destruct (refresh_success env st Hok) as (cs & rates & Hcs' & Hrs & Hl & _).
    rewrite Hcs in Hcs'. injection Hcs' as <-.
    rewrite Hwt. rewrite Hrepo, Hcs, Hrs.
    apply (processCountries_keys_present env (default ∅ rates) countries 0
             (emit [FetchRates] (emit [FetchCountries] st)) Hc Hl c Hin). }
  exists r. split; [exact Hr |].
  destruct (named_head _ _ _ _ Hr) as (_ & Hrow & _).
  split; [exact Hrow |]. split; [exact Hk |].
  intros Hex. unfold nameKey in Hk. rewrite Hwt, !Hex in Hk. exact Hk.
Qed.

Lemma X3_one_row_per_name_witness :
  exists r,
    named "France"
      (repo (refreshCountriesandSave
               (calm [france; uk; france_lowercase]) initial).1)
    = [r].
Proof.
  destruct (X3_one_row_per_name (calm [france; uk; france_lowercase]) initial)
    as (_ & _ & H).
  - exact emptyRepo_consistent.
  - apply NoDup_nil_2.
  - destruct (H eq_refl [france; uk; france_lowercase] france eq_refl)
      as (r & Hr & _).
    + left.
    + exists r. exact Hr.
Defined.

(** A second refresh can change the case of a stored name: after
    "France" and "france" the row is named "france"; a second run over
    the same list that stops at its second write leaves it named
    "France". *)
Example second_refresh_can_rename :
  let first :=
    (refreshCountriesandSave (calm [france; france_lowercase]) initial).1 in
  let second :=
    (refreshCountriesandSave
       (secondWriteFails [france; france_lowercase]) first).1 in
  names (repo first) = ["france"] /\ names (repo second) = ["France"].
Proof. vm_compute. split; reflexivity. Qed.

(** X4: refreshing again from the same country list changes no key and
    no row count, and no name beyond what the collation takes as equal,
    whatever the rates, the random draws and the failures of the second
    run: once a refresh has succeeded, a later one over the same list only
    overwrites.  When the collation tells all names apart, the names stay
    as they are. *)
Theorem X4_second_refresh_keeps_structure
    (env1 env2 : Env) (st : State) (countries : list RawCountry) :
  consistent (repo st) ->
  countries_response env1 = Some countries ->
  countries_response env2 = Some countries ->
  (refreshCountriesandSave env1 st).2 = Ok tt ->
  let first := (refreshCountriesandSave env1 st).1 in
  let second := (refreshCountriesandSave env2 first).1 in
  nameKeys (repo second) = nameKeys (repo first)
  /\ (exact (repo st) -> names (repo second) = names (repo first))
  /\ id <$> rows (repo second) = id <$> rows (repo first)
  /\ length (rows (repo second)) = length (rows (repo first))
  /\ next_id (repo second) = next_id (repo first).
Proof.
  intros Hc Hcs1 Hcs2 Hok first second.
  assert (Hc1 : consistent (repo first)).
  { unfold first. rewrite refresh_repo.
    destruct (countries_response env1); [| exact Hc].
    destruct (rates_response env1); [| exact Hc].
    apply processCountries_consistent. exact Hc. }
  assert (Hw1 : weight (repo first) = weight (repo st))
    by apply refresh_weight.
  assert (Hw2 : weight (repo second) = weight (repo first))
    by apply refresh_weight.
  assert (Hall : forall c, c ∈ countries ->
                   weight (repo first) (countryName c) ∈ nameKeys (repo first)).
  { intros c Hin.
    destruct (refresh_success env1 st Hok) as (cs & rates & Hcs & Hrs & Hl & _).
    rewrite Hcs1 in Hcs. injection Hcs as <-.
    rewrite Hw1. unfold first. rewrite refresh_repo, Hcs1, Hrs.
    apply (processCountries_keys_present env1 (default ∅ rates) countries 0
             (emit [FetchRates] (emit [FetchCountries] st)) Hc Hl c Hin). }
  assert (H : nameKeys (repo second) = nameKeys (repo first)
              /\ id <$> rows (repo second) = id <$> rows (repo first)
              /\ next_id (repo second) = next_id (repo first)).
  { unfold second. rewrite refresh_repo, Hcs2.
    destruct (rates_response env2) as [rates|]; [| auto].
    apply (processCountries_all_present env2 (default ∅ rates) countries 0
             (emit [FetchRates] (emit [FetchCountries] first)) Hc1 Hall). }
  destruct H as (H1 & H2 & H3).
  split; [exact H1 |].
  split.
  { intros Hex.
    assert (E1 : exact (repo first)) by (intros s; rewrite Hw1; apply Hex).
    assert (E2 : exact (repo second)) by (intros s; rewrite Hw2; apply E1).
    rewrite <- (exact_names _ E1), <- (exact_names _ E2). exact H1. }
  split; [exact H2 |]. split; [| exact H3].
  rewrite <- (length_fmap id (rows (repo second))), H2. apply length_fmap.
Qed.

Lemma X4_second_refresh_keeps_structure_witness :
  let first := (refreshCountriesandSave (calm [france; uk]) initial).1 in
  id <$> rows (repo (refreshCountriesandSave
                       (secondWriteFails [france; uk]) first).1)
  = id <$> rows (repo first).
Proof.
  intros first.
  destruct (X4_second_refresh_keeps_structure
              (calm [france; uk]) (secondWriteFails [france; uk])
              initial [france; uk]) as (_ & _ & H & _).
  - exact emptyRepo_consistent.
  - reflexivity.
  - reflexivity.
  - reflexivity.
  - exact H.
Defined.

(** X5: a refresh never deletes a row and never changes a key: the keys
    before it are a prefix of the keys after it, the rows it adds get keys
    from the counter on (so no key is reused), and it adds at most one row
    per source record. *)
Theorem X5_refresh_only_appends (env : Env) (st : State) :
  consistent (repo st) ->
  let final := repo (refreshCountriesandSave env st).1 in
  exists new,
    id <$> rows final = (id <$> rows (repo st)) ++ new
    /\ Forall (fun k => next_id (repo st) <= k) new
    /\ next_id final = next_id (repo st) + Z.of_nat (length new)
    /\ (length new <= length (default [] (countries_response env)))%nat.
Proof.
  intros Hc final. unfold final. rewrite refresh_repo.
  assert (Hnone : exists new : list Z,
             id <$> rows (repo st) = (id <$> rows (repo st)) ++ new
             /\ Forall (fun k => next_id (repo st) <= k) new
             /\ next_id (repo st) = next_id (repo st) + Z.of_nat (length new)
             /\ (length new <= length (default [] (countries_response env)))%nat).
  { exists []. rewrite app_nil_r. cbn. repeat split; [constructor | lia | lia]. }
  destruct (countries_response env) as [countries|]; [| exact Hnone].
  destruct (rates_response env) as [rates|]; [| exact Hnone].
  destruct (processCountries_keys env (default ∅ rates) countries 0
              (emit [FetchRates] (emit [FetchCountries] st)) Hc)
    as (new & H1 & H2 & H3 & H4).
  exists new. cbn in H1, H3, H4 |- *. auto.
Qed.

Lemma X5_refresh_only_appends_witness :
  exists new,
    id <$> rows (repo (refreshCountriesandSave (calm [france; uk])
                         {| repo := ukOnly; draws := 0; cache := None;
                            log := [] |}).1)
    = [1] ++ new.
Proof.
  destruct (X5_refresh_only_appends (calm [france; uk])
              {| repo := ukOnly; draws := 0; cache := None; log := [] |})
    as (new & H & _).
  - split.
    + cbn. apply NoDup_singleton.
    + cbn. repeat constructor.
  - exists new. exact H.
Defined.

Section LoopDraws.

Variables (env : Env) (exchangeRates : gmap string Q).

Lemma prepare_draws (c : RawCountry) (st : State) :
  draws (prepare env exchangeRates c st).2
  = (draws st + if drawsRandom exchangeRates c then 1 else 0)%nat.
Proof.
  rewrite prepare_spec. cbn.
  destruct (drawsRandom exchangeRates c); lia.
Qed.

Lemma iteration_draws (c : RawCountry) (st : State) :
  draws (iteration env exchangeRates c st)
  = (draws st + if drawsRandom exchangeRates c then 1 else 0)%nat.
Proof.
  unfold iteration, commit.
  destruct (upsert _ _) as [rp w]. cbn. apply prepare_draws.
Qed.

Lemma processCountries_draws (countries : list RawCountry) :
  forall i st,
    let looped := processCountries env exchangeRates i countries st in
    (draws st <= draws looped.1
     <= draws st
        + length (List.filter (drawsRandom exchangeRates) countries))%nat
    /\ (looped.2 = None ->
        draws looped.1
        = (draws st
           + length (List.filter (drawsRandom exchangeRates) countries))%nat).
Proof.
  induction countries as [|c rest IH]; intros i st; cbn zeta.
  - cbn. split; [lia | intros _; lia].
  - destruct (write_fault env i) as [msg|] eqn:Hw.
    + rewrite (processCountries_fault env exchangeRates i c rest st msg Hw).
      cbn [fst snd List.filter]. rewrite prepare_draws.
      split; [| discriminate].
      destruct (drawsRandom exchangeRates c); cbn [length]; lia.
    + rewrite (processCountries_cons env exchangeRates i c rest st Hw).
      destruct (IH (S i) (iteration env exchangeRates c st)) as [Hb He].
      cbn zeta in Hb, He. rewrite iteration_draws in Hb, He.
      cbn [List.filter].
      split.
      * destruct (drawsRandom exchangeRates c); cbn [length]; lia.
      * intros Hok. rewrite (He Hok).
        destruct (drawsRandom exchangeRates c); cbn [length]; lia.
Qed.

End LoopDraws.

(** X6: [Math.random()] is called at most once per source record, and
    only for records whose estimate is computed: a refresh advances the
    random source by at most the number of such records, and by exactly
    that number when it succeeds.  A refresh whose fetches fail draws
    nothing. *)
Theorem X6_random_draws (env : Env) (st : State) :
  let outcome := refreshCountriesandSave env st in
  let countries := default [] (countries_response env) in
  let exchangeRates := default ∅ (default None (rates_response env)) in
  let estimated := List.filter (drawsRandom exchangeRates) countries in
  (draws st <= draws outcome.1 <= draws st + length estimated)%nat
  /\ (length estimated <= length countries)%nat
  /\ (outcome.2 = Ok tt ->
      draws outcome.1 = (draws st + length estimated)%nat)
  /\ (countries_response env = None \/ rates_response env = None ->
      draws outcome.1 = draws st).
Proof.
  intros outcome countries exchangeRates estimated.
  assert (Hlen : (length estimated <= length countries)%nat).
  { apply List.filter_length_le. }
  unfold outcome, estimated, countries, exchangeRates, refreshCountriesandSave.
  destruct (countries_response env) as [cs|]; cbn [default].
  2:{ cbn. split; [lia |]. split; [lia |].
      split; [discriminate | reflexivity]. }
  destruct (rates_response env) as [rates|]; cbn [default].
  2:{ cbn. split; [lia |]. split; [exact Hlen |].
      split; [discriminate | reflexivity]. }
  destruct (processCountries_draws env (default ∅ rates) cs 0
              (emit [FetchRates] (emit [FetchCountries] st))) as [Hb He].
  cbn zeta in Hb, He.
  destruct (processCountries env (default ∅ rates) 0 cs _) as [st' [msg|]];
    cbn [fst snd] in *.
  - split; [exact Hb |]. split; [exact Hlen |].
    split; [discriminate | intros [H | H]; discriminate H].
  - destruct (generateSummaryImage_spec env st') as (_ & -> & _).
    split; [exact Hb |]. split; [exact Hlen |].
    split; [intros _; apply He; reflexivity |].
    intros [H | H]; discriminate H.
Qed.

Lemma X6_random_draws_witness :
  draws (refreshCountriesandSave (calm [france; wakanda; uk]) initial).1
  = 2%nat.
Proof.
  destruct (X6_random_draws (calm [france; wakanda; uk]) initial)
    as (_ & _ & H & _).
  apply H. reflexivity.
Defined.

Lemma processCountries_completes_inv
    (env : Env) (exchangeRates : gmap string Q) (countries : list RawCountry) :
  forall i st,
    (processCountries env exchangeRates i countries st).2 = None ->
    forall j, (j < length countries)%nat -> write_fault env (i + j) = None.
Proof.
  induction countries as [|c rest IH]; intros i st Hok j Hj; [cbn in Hj; lia |].
  destruct (write_fault env i) as [msg|] eqn:Hw.
  - rewrite (processCountries_fault env exchangeRates i c rest st msg Hw) in Hok.
    discriminate Hok.
  - rewrite (processCountries_cons env exchangeRates i c rest st Hw) in Hok.
    destruct j as [|j]; [rewrite Nat.add_0_r; exact Hw |].
    replace (i + S j)%nat with (S i + j)%nat by lia.
    apply (IH (S i) _ Hok). cbn in Hj. lia.
Qed.

(** X7: in a loop without write errors the last record carrying a name
    wins: afterwards the look-up by that name returns a row holding the
    data computed for the last source record with that name (a name equal
    to it under the collation), with the random value that was current
    when the loop reached it.  Only where that record has no currency
    code does the row keep the code it had, or NULL if it is new. *)
Theorem X7_last_record_wins
    (env : Env) (exchangeRates : gmap string Q) (st : State)
    (pre post : list RawCountry) (c : RawCountry) :
  consistent (repo st) ->
  (forall j, (j < length (pre ++ c :: post))%nat -> write_fault env j = None) ->
  Forall (fun c' => weight (repo st) (countryName c')
                    <> weight (repo st) (countryName c)) post ->
  let before := (processCountries env exchangeRates 0 pre st).1 in
  let final :=
    (processCountries env exchangeRates 0 (pre ++ c :: post) st).1 in
  let d := (transform exchangeRates (random env (draws before)) c).1 in
  exists r,
    findOne (countryName c) (repo final) = Some r
    /\ fields r = holds (keptCode (countryName c) (repo before)) d
    /\ (currency_code d <> Undefined -> fields r = d)
    /\ name (fields r) = countryName c
    /\ r ∈ findAllCountries (repo final).
Proof.
  intros Hc Hw Hpost before final d.
  destruct (processCountries_last_wins env exchangeRates st pre post c
              Hc Hw Hpost) as (r & Hnamed & Hf & _).
  fold before in Hnamed, Hf. fold final in Hnamed. fold d in Hf.
  destruct (named_head _ _ _ _ Hnamed) as (H1 & H2 & _).
  exists r. split; [exact H1 |]. split; [exact Hf |].
  split; [intros Hdef; rewrite Hf; apply holds_defined; exact Hdef |].
  split; [| exact H2].
  rewrite Hf, holds_name. apply transform_fields.
Qed.

Lemma X7_last_record_wins_witness :
  exists r,
    findOne "France"
      (repo (processCountries (calm []) euroRates 0
               ([france_lowercase; france_codeless] ++ france :: [uk])
               initial).1)
    = Some r
    /\ fields r = (transform euroRates (1 # 2) france).1.
Proof.
  destruct (X7_last_record_wins (calm []) euroRates initial
              [france_lowercase; france_codeless] [uk] france)
    as (r & H1 & _ & H3 & _).
  - exact emptyRepo_consistent.
  - intros j _. reflexivity.
  - repeat constructor. discriminate.
  - exists r. split; [exact H1 |]. rewrite H3; [reflexivity | discriminate].
Defined.

(** ** Further properties: status, summary and image *)

Section Recent.

Implicit Types (l : list Country) (r x : Country).

Lemma insert_recent_elem r l x :
  x ∈ insert_recent r l <-> x = r \/ x ∈ l.
Proof.
  induction l as [|y l IH]; cbn.
  - rewrite list_elem_of_singleton. split; [auto |].
    intros [H | H]; [exact H | inversion H].
  - destruct (last_refreshed_at y <=? last_refreshed_at r).
    + rewrite elem_of_cons. reflexivity.
    + rewrite !elem_of_cons, IH. tauto.
Qed.

Lemma sorted_recent_elem l x : x ∈ foldr insert_recent [] l <-> x ∈ l.
Proof.
  induction l as [|y l IH]; cbn; [reflexivity |].
  rewrite insert_recent_elem, elem_of_cons, IH. reflexivity.
Qed.

(** The first row of the ordering is at least as recent as every row. *)
Lemma sorted_recent_head l :
  match foldr insert_recent [] l with
  | [] => l = []
  | r :: _ => forall x, x ∈ l -> last_refreshed_at x <= last_refreshed_at r
  end.
Proof.
  induction l as [|y l IH]; cbn; [reflexivity |].
  destruct (foldr insert_recent [] l) as [|h t]; cbn.
  - subst l. intros x Hx. apply list_elem_of_singleton in Hx. subst x. lia.
  - destruct (last_refreshed_at h <=? last_refreshed_at y) eqn:E.
    + apply Z.leb_le in E. intros x Hx.
      apply elem_of_cons in Hx as [-> | Hx]; [lia |].
      specialize (IH x Hx). lia.
    + apply Z.leb_gt in E. intros x Hx.
      apply elem_of_cons in Hx as [-> | Hx]; [lia | apply IH; exact Hx].
Qed.

End Recent.

(** X8: the status reports the number of rows, and as last refresh time
    the latest timestamp in the table: null for an empty table, otherwise
    the timestamp of some row that no other row exceeds. *)
Theorem X8_status (rp : Repository) :
  (rows rp = [] -> getCountriesStatus rp = (0%nat, None))
  /\ (rows rp <> [] ->
      exists r,
        r ∈ rows rp
        /\ getCountriesStatus rp
           = (length (rows rp), Some (last_refreshed_at r))
        /\ forall x, x ∈ rows rp ->
                     last_refreshed_at x <= last_refreshed_at r).
Proof.
  unfold getCountriesStatus, lastRefreshedCountry.
  pose proof (sorted_recent_head (rows rp)) as Hhead.
  pose proof (sorted_recent_elem (rows rp)) as Helem.
  split.
  - intros ->. reflexivity.
  - intros Hne.
    destruct (foldr insert_recent [] (rows rp)) as [|r t];
      [contradiction |].
    exists r. split; [apply Helem; left |].
    split; [reflexivity | exact Hhead].
Qed.

Lemma X8_status_witness :
  getCountriesStatus emptyRepo = (0%nat, None)
  /\ getCountriesStatus ukAndFrance = (2%nat, Some 1).
Proof.
  split.
  - destruct (X8_status emptyRepo) as [H _]. apply H. reflexivity.
  - destruct (X8_status ukAndFrance) as [_ H].
    destruct H as (r & Hr & Hs & Hmax); [discriminate |].
    rewrite Hs. f_equal. f_equal.
    apply Z.le_antisymm.
    + apply elem_of_cons in Hr as [-> | Hr]; [cbn; lia |].
      apply list_elem_of_singleton in Hr. subst r. cbn. lia.
    + apply (Hmax franceRow). right. left.
Defined.


Section LoopClock.

Variables (env : Env) (exchangeRates : gmap string Q).


End LoopClock.



Section Ranking.

Implicit Types (l : list Country) (r x : Country).

Lemma richer_trans a b c : richer a b -> richer b c -> richer a c.
Proof. unfold richer. intros H1 H2. eapply Qle_trans; eassumption. Qed.

Lemma insert_desc_elem r l x : x ∈ insert_desc r l <-> x = r \/ x ∈ l.
Proof.
  induction l as [|y l IH]; cbn.
  - rewrite list_elem_of_singleton. split; [auto |].
    intros [H | H]; [exact H | inversion H].
  - destruct (Qle_bool _ _).
    + rewrite elem_of_cons. reflexivity.
    + rewrite !elem_of_cons, IH. tauto.
Qed.

Lemma insert_desc_length r l : length (insert_desc r l) = S (length l).
Proof.
  induction l as [|y l IH]; cbn; [reflexivity |].
  destruct (Qle_bool _ _); cbn; [reflexivity | rewrite IH; reflexivity].
Qed.

Lemma insert_desc_sorted r l :
  StronglySorted richer l -> StronglySorted richer (insert_desc r l).
Proof.
  induction 1 as [|y l Hs IH Hy]; cbn.
  - constructor; constructor.
  - destruct (Qle_bool (estimated_gbp (fields y)) (estimated_gbp (fields r)))
      eqn:E.
    + apply Qle_bool_iff in E.
      constructor; [constructor; assumption |].
      constructor; [exact E |].
      eapply Forall_impl; [exact Hy |]. cbn. intros z Hz.
      apply (richer_trans r y z); [exact E | exact Hz].
    + constructor; [exact IH |].
      apply Forall_forall. intros z Hz.
      apply insert_desc_elem in Hz as [-> | Hz].
      * unfold richer.
        destruct (Qlt_le_dec (estimated_gbp (fields r))
                             (estimated_gbp (fields y))) as [Hlt | Hle].
        -- apply Qlt_le_weak. exact Hlt.
        -- apply Qle_bool_iff in Hle. congruence.
      * rewrite Forall_forall in Hy. apply Hy. exact Hz.
Qed.

Lemma ranking_elem l x : x ∈ foldr insert_desc [] l <-> x ∈ l.
Proof.
  induction l as [|y l IH]; cbn; [reflexivity |].
  rewrite insert_desc_elem, elem_of_cons, IH. reflexivity.
Qed.

Lemma ranking_length l : length (foldr insert_desc [] l) = length l.
Proof.
  induction l as [|y l IH]; cbn; [reflexivity |].
  rewrite insert_desc_length, IH. reflexivity.
Qed.

Lemma ranking_sorted l : StronglySorted richer (foldr insert_desc [] l).
Proof.
  induction l as [|y l IH]; cbn; [constructor |].
  apply insert_desc_sorted. exact IH.
Qed.

Lemma sorted_split l1 l2 :
  StronglySorted richer (l1 ++ l2) ->
  StronglySorted richer l1
  /\ forall a b, a ∈ l1 -> b ∈ l2 -> richer a b.
Proof.
  induction l1 as [|y l1 IH]; cbn; intros Hs.
  - split; [constructor |]. intros a b Ha. inversion Ha.
  - apply StronglySorted_inv in Hs as [Hs Hy].
    destruct (IH Hs) as [H1 H2]. split.
    + constructor; [exact H1 |].
      apply Forall_app in Hy as [Hy _]. exact Hy.
    + intros a b Ha Hb. apply elem_of_cons in Ha as [-> | Ha].
      * rewrite Forall_forall in Hy. apply Hy.
        apply elem_of_app. right. exact Hb.
      * apply H2; assumption.
Qed.

End Ranking.

Lemma insert_desc_perm (r : Country) (l : list Country) :
  insert_desc r l ≡ₚ r :: l.
Proof.
  induction l as [|y l IH]; cbn; [reflexivity |].
  destruct (Qle_bool _ _); [reflexivity |].
  rewrite IH. apply Permutation_swap.
Qed.

Lemma ranking_perm (l : list Country) : foldr insert_desc [] l ≡ₚ l.
Proof.
  induction l as [|y l IH]; cbn; [reflexivity |].
  rewrite insert_desc_perm, IH. reflexivity.
Qed.

(** X10: the five countries shown in the summary are rows of the table,
    listed by estimate from the largest down; there are five of them, or
    all rows if the table has fewer; together with the rows left out they
    make up the table, each row once; and no row left out has a larger
    estimate than a row shown. *)
Theorem X10_top_countries (rp : Repository) :
  let top := topCountries rp in
  length top = Nat.min 5 (length (rows rp))
  /\ (forall r, r ∈ top -> r ∈ rows rp)
  /\ StronglySorted richer top
  /\ (forall r, r ∈ rows rp -> r ∈ top \/ forall a, a ∈ top -> richer a r)
  /\ (exists rest,
        top ++ rest ≡ₚ rows rp
        /\ forall a b, a ∈ top -> b ∈ rest -> richer a b)
  /\ (NoDup (id <$> rows rp) -> NoDup (id <$> top))
  /\ ((length (rows rp) <= 5)%nat -> top ≡ₚ rows rp).
Proof.
  intros top. unfold top, topCountries.
  set (ranked := foldr insert_desc [] (rows rp)).
  assert (Hsplit : ranked = take 5 ranked ++ drop 5 ranked)
    by (symmetry; apply take_drop).
  assert (Hs : StronglySorted richer (take 5 ranked ++ drop 5 ranked))
    by (rewrite <- Hsplit; apply ranking_sorted).
  assert (Hperm : take 5 ranked ++ drop 5 ranked ≡ₚ rows rp)
    by (rewrite <- Hsplit; apply ranking_perm).
  destruct (sorted_split _ _ Hs) as [Htop Hcross].
  split; [| split; [| split; [| split; [| split; [| split]]]]].
  - rewrite length_take. unfold ranked. rewrite ranking_length. reflexivity.
  - intros r Hr. apply (ranking_elem (rows rp)). fold ranked.
    rewrite Hsplit. apply elem_of_app. left. exact Hr.
  - exact Htop.
  - intros r Hr. apply (ranking_elem (rows rp)) in Hr. fold ranked in Hr.
    rewrite Hsplit in Hr. apply elem_of_app in Hr as [Hr | Hr].
    + left. exact Hr.
    + right. intros a Ha. apply Hcross; assumption.
  - exists (drop 5 ranked). split; [exact Hperm | exact Hcross].
  - intros Hnd. rewrite <- Hperm, fmap_app in Hnd.
    apply NoDup_app in Hnd as [Hnd _]. exact Hnd.
  - intros Hlen. rewrite take_ge; [apply ranking_perm |].
    unfold ranked. rewrite ranking_length. exact Hlen.
Qed.

Lemma X10_top_countries_witness :
  length (topCountries ukAndFrance) = 2%nat
  /\ NoDup (id <$> topCountries ukAndFrance).
Proof.
  destruct (X10_top_countries ukAndFrance) as (H1 & _ & _ & _ & _ & H6 & _).
  split; [exact H1 |].
  apply H6. cbn. apply NoDup_cons. split; [| apply NoDup_singleton].
  intros H. apply list_elem_of_singleton in H. discriminate H.
Defined.

(** X11: the summary image is replaced only by a refresh that succeeds
    and whose image generation succeeds; it then shows the row count and
    the top five of the table as the refresh left it, and the image
    look-up answers with the image path.  A refresh that fails, or whose
    image generation fails, leaves the cached image as it was.  Without a
    cached image, or when the file probe throws, the look-up answers
    "Summary image not found". *)
Theorem X11_image_lifecycle (env : Env) (st : State) :
  let outcome := refreshCountriesandSave env st in
  (outcome.2 = Ok tt -> summary_fault env = None ->
     cache outcome.1
     = Some {| total_countries := length (rows (repo outcome.1));
               top_countries := topCountries (repo outcome.1) |}
     /\ getCountryImage None outcome.1 = Ok imagePath)
  /\ (outcome.2 <> Ok tt \/ summary_fault env <> None ->
      cache outcome.1 = cache st
      /\ getCountryImage None outcome.1 = getCountryImage None st)
  /\ (forall fault st',
        fault <> None \/ cache st' = None ->
        getCountryImage fault st' = Err "Summary image not found").
Proof.
  intros outcome.
  assert (Hloop : forall rates countries,
             cache (processCountries env (default ∅ rates) 0 countries
                      (emit [FetchRates] (emit [FetchCountries] st))).1
             = cache st).
  { intros. rewrite processCountries_cache. reflexivity. }
  split; [| split].
  - intros Hok Hnf.
    destruct (refresh_success env st Hok) as (cs & rates & _ & _ & _ & Hst).
    fold outcome in Hst.
    destruct (generateSummaryImage_spec env
                (processCountries env (default ∅ rates) 0 cs
                   (emit [FetchRates] (emit [FetchCountries] st))).1)
      as (Hrepo & _ & _ & Hcache).
    rewrite <- Hst in Hrepo, Hcache.
    unfold summaryBody in Hcache. rewrite Hnf in Hcache.
    rewrite <- Hrepo in Hcache.
    split; [exact Hcache |].
    unfold getCountryImage. rewrite Hcache. reflexivity.
  - intros Hfail.
    assert (Hcache : cache outcome.1 = cache st).
    { unfold outcome, refreshCountriesandSave in Hfail |- *.
      destruct (countries_response env) as [cs|]; [| reflexivity].
      destruct (rates_response env) as [rates|]; [| reflexivity].
      pose proof (Hloop rates cs) as Hl.
      destruct (processCountries env (default ∅ rates) 0 cs _)
        as [st' [msg|]]; cbn [fst snd] in *; [exact Hl |].
      destruct (generateSummaryImage_spec env st') as (_ & _ & _ & Hg).
      unfold summaryBody in Hg.
      destruct (summary_fault env) as [m|]; [rewrite Hg; exact Hl |].
      destruct Hfail as [H | H]; destruct (H eq_refl). }
    split; [exact Hcache |].
    unfold getCountryImage. rewrite Hcache. reflexivity.
  - intros fault st' [Hf | Hc]; unfold getCountryImage.
    + destruct fault; [reflexivity | contradiction].
    + rewrite Hc. destruct fault; reflexivity.
Qed.

Lemma X11_image_lifecycle_witness :
  getCountryImage None
    (refreshCountriesandSave (calm [france; uk]) initial).1 = Ok imagePath
  /\ getCountryImage None
       (refreshCountriesandSave (imageFails [france; uk]) initial).1
     = getCountryImage None initial.
Proof.
  split.
  - destruct (X11_image_lifecycle (calm [france; uk]) initial) as (H & _).
    apply H; reflexivity.
  - destruct (X11_image_lifecycle (imageFails [france; uk]) initial)
      as (_ & H & _).
    apply H. right. discriminate.
Defined.

(** ** Further properties: search and delete *)

Lemma invalidName_blank (s : string) : invalidName (JStr s) = blank s.
Proof.
  destruct (invalidName (JStr s)) eqn:E.
  - apply invalidName_spec in E as [E | (s' & [= <-] & E)];
      [destruct (E s eq_refl) | symmetry; exact E].
  - destruct (blank s) eqn:B; [| reflexivity].
    assert (H : invalidName (JStr s) = true).
    { apply invalidName_spec. right. exists s. auto. }
    congruence.
Qed.

Lemma filter_filter_out (f : Country -> bool) (l : list Country) :
  List.filter f (List.filter (fun r => negb (f r)) l) = [].
Proof.
  induction l as [|x l IH]; [reflexivity |].
  cbn. destruct (f x) eqn:E; cbn; [exact IH |].
  rewrite E. exact IH.
Qed.

Lemma filter_keys_unique (f : Country -> bool) (l : list Country) :
  NoDup (id <$> l) -> NoDup (id <$> List.filter f l).
Proof.
  induction l as [|x l IH]; cbn; [auto |].
  intros Hnd. apply NoDup_cons in Hnd as [Hx Hnd].
  destruct (f x); [| apply IH; exact Hnd].
  cbn. apply NoDup_cons. split; [| apply IH; exact Hnd].
  intros Hin. apply Hx.
  apply list_elem_of_fmap in Hin as (r & Hr & Hin).
  apply list_elem_of_fmap. exists r. split; [exact Hr |].
  apply list_elem_of_In. apply list_elem_of_In, filter_In in Hin as [Hin _].
  exact Hin.
Qed.

(** X12: delete removes exactly the rows the search with the same query
    returns, whatever the query (wildcards included): it reports their
    number, keeps every other row as it was and in order, leaves the key
    counter alone (so deleted keys are not handed out again), and a search
    with the same query right afterwards finds nothing. *)
Theorem X12_delete_removes_search_result
    (nm : JsValue) (rp : Repository) (found : list Country) :
  NoDup (id <$> rows rp) ->
  findCountriesByName nm rp = Ok found ->
  let after := (deleteCountriesByName nm rp).1 in
  (deleteCountriesByName nm rp).2 = Ok (length found)
  /\ rows after
     = List.filter (fun r => negb (selected (queryString nm) r)) (rows rp)
  /\ (forall r, r ∈ rows rp <-> r ∈ rows after \/ r ∈ found)
  /\ (forall r, r ∈ rows after -> r ∉ found)
  /\ length (rows rp) = (length (rows after) + length found)%nat
  /\ next_id after = next_id rp
  /\ NoDup (id <$> rows after)
  /\ findCountriesByName nm after = Err NotFoundError.
Proof.
  intros Hnd Hfind after.
  unfold findCountriesByName in Hfind.
  destruct (invalidName nm) eqn:Hinv; [discriminate |].
  destruct (length (getMany (queryString nm) rp) =? 0)%nat eqn:Hlen;
    [discriminate |].
  injection Hfind as <-.
  assert (Hdel : deleteCountriesByName nm rp
                 = (remove (getMany (queryString nm) rp) rp,
                    Ok (length (getMany (queryString nm) rp)))).
  { unfold deleteCountriesByName. rewrite Hinv, Hlen. reflexivity. }
  assert (Hrows : rows after
                  = List.filter
                      (fun r => negb (selected (queryString nm) r)) (rows rp)).
  { unfold after. rewrite Hdel. cbn [fst]. unfold getMany.
    apply remove_selected. exact Hnd. }
  split; [rewrite Hdel; reflexivity |].
  split; [exact Hrows |].
  split.
  { intros r. rewrite Hrows. unfold getMany.
    rewrite !list_elem_of_In, !filter_In.
    destruct (selected (queryString nm) r); cbn; intuition discriminate. }
  split.
  { intros r. rewrite Hrows. unfold getMany.
    rewrite !list_elem_of_In, !filter_In.
    destruct (selected (queryString nm) r); cbn; intuition discriminate. }
  split; [rewrite Hrows; apply filter_partition_length |].
  split; [unfold after; rewrite Hdel; reflexivity |].
  split; [rewrite Hrows; apply filter_keys_unique; exact Hnd |].
  unfold findCountriesByName. rewrite Hinv.
  unfold getMany at 1. rewrite Hrows, filter_filter_out. reflexivity.
Qed.

Lemma ukAndFrance_keys : NoDup (id <$> rows ukAndFrance).
Proof.
  cbn. apply NoDup_cons. split; [| apply NoDup_singleton].
  intros H. apply list_elem_of_singleton in H. discriminate H.
Qed.

Lemma X12_delete_removes_search_result_witness :
  findCountriesByName (JStr "_r_n") (deleteCountriesByName (JStr "_r_n") ukAndFrance).1
  = Err NotFoundError.
Proof.
  destruct (X12_delete_removes_search_result (JStr "_r_n") ukAndFrance
              [franceRow] ukAndFrance_keys eq_refl)
    as (_ & _ & _ & _ & _ & _ & _ & H).
  exact H.
Defined.

Section Normalisation.

Lemma lower_char_code (a : ascii) :
  char_code (lower_char a)
  = if is_upper a then char_code a + 32 else char_code a.
Proof.
  unfold lower_char.
  destruct (is_upper a) eqn:E; [| reflexivity].
  assert (B : char_code a <= 222).
  { unfold is_upper in E. apply orb_true_iff in E as [E | E].
    - apply andb_true_iff in E as [_ H2]. apply Z.leb_le in H2. lia.
    - apply andb_true_iff in E as [E _].
      apply andb_true_iff in E as [_ H2]. apply Z.leb_le in H2. exact H2. }
  unfold char_code in *.
  rewrite N_ascii_embedding; lia.
Qed.

(** The lower-case letters are not capitals. *)
Lemma lower_char_not_upper (a : ascii) :
  is_upper a = true -> is_upper (lower_char a) = false.
Proof.
  intros E. unfold is_upper at 1. rewrite lower_char_code, E.
  unfold is_upper in E.
  repeat match goal with
         | H : _ || _ = true |- _ => apply orb_true_iff in H as [H | H]
         | H : _ && _ = true |- _ =>
             let H1 := fresh in apply andb_true_iff in H as [H H1]
         | H : (_ <=? _) = true |- _ => apply Z.leb_le in H
         | H : negb _ = true |- _ => apply negb_true_iff in H
         | H : (_ =? _) = false |- _ => apply Z.eqb_neq in H
         end;
    repeat match goal with
           | |- context [(?x <=? ?y)] =>
               let H := fresh in destruct (Z.leb_spec x y) as [H | H]
           | |- context [(?x =? ?y)] =>
               let H := fresh in destruct (Z.eqb_spec x y) as [H | H]
           end; cbn; try reflexivity; lia.
Qed.

Lemma lower_char_whitespace (a : ascii) :
  is_whitespace (lower_char a) = is_whitespace a.
Proof.
  unfold is_whitespace. rewrite lower_char_code.
  destruct (is_upper a) eqn:E; [| reflexivity].
  unfold is_upper in E.
  repeat match goal with
         | H : _ || _ = true |- _ => apply orb_true_iff in H as [H | H]
         | H : _ && _ = true |- _ =>
             let H1 := fresh in apply andb_true_iff in H as [H H1]
         | H : (_ <=? _) = true |- _ => apply Z.leb_le in H
         | H : negb _ = true |- _ => apply negb_true_iff in H
         | H : (_ =? _) = false |- _ => apply Z.eqb_neq in H
         end;
    repeat match goal with
           | |- context [(?x <=? ?y)] =>
               let H := fresh in destruct (Z.leb_spec x y) as [H | H]
           | |- context [(?x =? ?y)] =>
               let H := fresh in destruct (Z.eqb_spec x y) as [H | H]
           end; cbn; try reflexivity; lia.
Qed.

Lemma lower_char_idem (a : ascii) :
  lower_char (lower_char a) = lower_char a.
Proof.
  destruct (is_upper a) eqn:E.
  - unfold lower_char at 1. rewrite (lower_char_not_upper a E). reflexivity.
  - unfold lower_char. rewrite E, E. reflexivity.
Qed.

Lemma toLowerCase_idem (s : string) :
  toLowerCase (toLowerCase s) = toLowerCase s.
Proof.
  induction s as [|a s IH]; cbn; [reflexivity |].
  rewrite lower_char_idem, IH. reflexivity.
Qed.

Lemma toLowerCase_empty (s : string) :
  String.eqb (toLowerCase s) "" = String.eqb s "".
Proof. destruct s; reflexivity. Qed.

Lemma toLowerCase_trimStart (s : string) :
  toLowerCase (trimStart s) = trimStart (toLowerCase s).
Proof.
  induction s as [|a s IH]; cbn; [reflexivity |].
  rewrite lower_char_whitespace.
  destruct (is_whitespace a); [exact IH | reflexivity].
Qed.

Lemma toLowerCase_trimEnd (s : string) :
  toLowerCase (trimEnd s) = trimEnd (toLowerCase s).
Proof.
  induction s as [|a s IH]; cbn; [reflexivity |].
  rewrite lower_char_whitespace, <- IH, toLowerCase_empty.
  destruct (is_whitespace a && String.eqb (trimEnd s) ""); reflexivity.
Qed.

Lemma toLowerCase_trim (s : string) :
  toLowerCase (trim s) = trim (toLowerCase s).
Proof.
  unfold trim. rewrite toLowerCase_trimEnd, toLowerCase_trimStart.
  reflexivity.
Qed.

Lemma trimEnd_idem (s : string) : trimEnd (trimEnd s) = trimEnd s.
Proof.
  induction s as [|a s IH]; cbn; [reflexivity |].
  destruct (is_whitespace a && String.eqb (trimEnd s) "") eqn:E;
    [reflexivity |].
  cbn. rewrite IH, E. reflexivity.
Qed.

Lemma trimStart_trimEnd (s : string) :
  trimStart (trimEnd (trimStart s)) = trimEnd (trimStart s).
Proof.
  destruct (trimStart_cases s) as [[-> _] | (a & t & -> & Ha & _)];
    [reflexivity |].
  cbn. rewrite Ha. cbn. rewrite Ha. reflexivity.
Qed.

Lemma trim_idem (s : string) : trim (trim s) = trim s.
Proof.
  unfold trim. rewrite trimStart_trimEnd. apply trimEnd_idem.
Qed.

Lemma blank_toLowerCase (s : string) : blank (toLowerCase s) = blank s.
Proof.
  induction s as [|a s IH]; cbn; [reflexivity |].
  rewrite lower_char_whitespace, IH. reflexivity.
Qed.

Lemma blank_normalized (s : string) :
  blank s = String.eqb (normalized s) "".
Proof.
  unfold normalized. rewrite <- (blank_toLowerCase s).
  destruct (String.eqb_spec (trim (toLowerCase s)) "") as [E | E].
  - apply trim_blank. exact E.
  - destruct (blank (toLowerCase s)) eqn:B; [| reflexivity].
    apply trim_blank in B. contradiction.
Qed.

Lemma normalized_toLowerCase (s : string) :
  normalized (toLowerCase s) = normalized s.
Proof. unfold normalized. rewrite toLowerCase_idem. reflexivity. Qed.

Lemma normalized_trim (s : string) : normalized (trim s) = normalized s.
Proof.
  unfold normalized. rewrite toLowerCase_trim. apply trim_idem.
Qed.

Lemma normalized_idem (s : string) : normalized (normalized s) = normalized s.
Proof.
  unfold normalized at 2.
  rewrite normalized_trim, normalized_toLowerCase. reflexivity.
Qed.

End Normalisation.
Lemma query_by_normal_form (s1 s2 : string) (rp : Repository) :
  normalized s1 = normalized s2 ->
  findCountriesByName (JStr s1) rp = findCountriesByName (JStr s2) rp
  /\ deleteCountriesByName (JStr s1) rp = deleteCountriesByName (JStr s2) rp.
Proof.
  intros Hn.
  assert (Hinv : invalidName (JStr s1) = invalidName (JStr s2)).
  { rewrite !invalidName_blank, !blank_normalized, Hn. reflexivity. }
  assert (Hmany : getMany s1 rp = getMany s2 rp).
  { unfold getMany, selected, likePattern. fold (normalized s1).
    fold (normalized s2). rewrite Hn. reflexivity. }
  unfold findCountriesByName, deleteCountriesByName.
  cbn [queryString]. rewrite Hinv, Hmany. split; reflexivity.
Qed.

(** X13: search and delete read the query only through its lower-cased,
    trimmed form: two queries with the same such form get the same answer
    (validation errors included) on every table.  In particular letter
    case and surrounding white space of the query never matter. *)
Theorem X13_query_normal_form (s : string) (rp : Repository) :
  (forall s', normalized s' = normalized s ->
     findCountriesByName (JStr s') rp = findCountriesByName (JStr s) rp
     /\ deleteCountriesByName (JStr s') rp = deleteCountriesByName (JStr s) rp)
  /\ findCountriesByName (JStr (toLowerCase s)) rp
     = findCountriesByName (JStr s) rp
  /\ findCountriesByName (JStr (trim s)) rp = findCountriesByName (JStr s) rp
  /\ findCountriesByName (JStr (normalized s)) rp
     = findCountriesByName (JStr s) rp
  /\ (findCountriesByName (JStr s) rp = Err ValidationError
      <-> normalized s = "").
Proof.
  split; [intros s' Hs'; apply query_by_normal_form; exact Hs' |].
  split; [apply query_by_normal_form, normalized_toLowerCase |].
  split; [apply query_by_normal_form, normalized_trim |].
  split; [apply query_by_normal_form, normalized_idem |].
  unfold findCountriesByName. rewrite invalidName_blank, blank_normalized.
  destruct (String.eqb_spec (normalized s) "") as [E | E].
  - split; [intros _; exact E | reflexivity].
  - split; [| contradiction].
    destruct (length (getMany (queryString (JStr s)) rp) =? 0)%nat;
      discriminate.
Qed.

Lemma X13_query_normal_form_witness :
  findCountriesByName (JStr "  UNITED  ") ukAndFrance
  = findCountriesByName (JStr "united") ukAndFrance.
Proof.
  destruct (X13_query_normal_form "united" ukAndFrance) as (H & _).
  apply (H "  UNITED  "). reflexivity.
Defined.

Lemma like_percents_tail (q : string) :
  percents q = true -> forall x, like (q ++ "%") x = true.
Proof.
  induction q as [|a q IH]; [discriminate |].
  intros Hq x.
  assert (Ha : a = "%"%char /\ (q = "" \/ percents q = true)).
  { cbn in Hq. destruct q as [|b q'].
    - apply Ascii.eqb_eq in Hq. auto.
    - apply andb_true_iff in Hq as [H1 H2].
      apply Ascii.eqb_eq in H1. auto. }
  destruct Ha as [-> Hrest].
  change (String "%" q ++ "%")%string with (String "%" (q ++ "%")).
  rewrite like_percent.
  destruct Hrest as [-> | Hrest].
  - change ("" ++ "%")%string with "%". rewrite like_percent_only. reflexivity.
  - rewrite (IH Hrest). reflexivity.
Qed.

Lemma filter_all (f : Country -> bool) (l : list Country) :
  (forall r, f r = true) -> List.filter f l = l.
Proof.
  intros H. induction l as [|x l IH]; cbn; [reflexivity |].
  rewrite H, IH. reflexivity.
Qed.

Lemma remove_all (rp : Repository) : rows (remove (rows rp) rp) = [].
Proof.
  unfold remove. cbn [rows].
  assert (H : forall l,
             (forall r, r ∈ l -> r ∈ rows rp) ->
             List.filter
               (fun r => negb (existsb (Z.eqb (id r)) (id <$> rows rp))) l
             = []).
  { induction l as [|x l IH]; intros Hsub; [reflexivity |]. cbn.
    assert (E : existsb (Z.eqb (id x)) (id <$> rows rp) = true).
    { apply existsb_exists. exists (id x). split; [| apply Z.eqb_refl].
      apply list_elem_of_In, list_elem_of_fmap. exists x.
      split; [reflexivity | apply Hsub; left]. }
    rewrite E. cbn. apply IH. intros r Hr. apply Hsub. right. exact Hr. }
  apply H. auto.
Qed.

(** X14: a query that is nothing but percent signs (after trimming)
    passes validation and matches every row: on a non-empty table the
    search returns the whole table and delete empties it, reporting the
    number of rows it held. *)
Theorem X14_percent_query_matches_all (s : string) (rp : Repository) :
  percents (normalized s) = true ->
  rows rp <> [] ->
  findCountriesByName (JStr s) rp = Ok (rows rp)
  /\ deleteCountriesByName (JStr s) rp
     = ({| rows := []; next_id := next_id rp; now := now rp;
           weight := weight rp |},
        Ok (length (rows rp))).
Proof.
  intros Hp Hne.
  assert (Hb : blank s = false).
  { rewrite blank_normalized.
    destruct (String.eqb_spec (normalized s) "") as [E | E]; [| reflexivity].
    rewrite E in Hp. discriminate Hp. }
  assert (Hmany : getMany s rp = rows rp).
  { unfold getMany. apply filter_all. intros r.
    unfold selected, likePattern. fold (normalized s).
    change ("%" ++ normalized s ++ "%")%string
      with (String "%" (normalized s ++ "%")).
    rewrite like_percent, (like_percents_tail _ Hp). reflexivity. }
  assert (Hlen : (length (rows rp) =? 0)%nat = false).
  { destruct (rows rp); [contradiction | reflexivity]. }
  rewrite (findCountriesByName_valid s rp Hb).
  rewrite (deleteCountriesByName_valid s rp Hb).
  rewrite Hmany, Hlen. split; [reflexivity |].
  unfold remove at 1. rewrite <- (remove_all rp). reflexivity.
Qed.

Lemma X14_percent_query_matches_all_witness :
  (deleteCountriesByName (JStr " %% ") ukAndFrance).2 = Ok 2%nat.
Proof.
  destruct (X14_percent_query_matches_all " %% " ukAndFrance) as [_ H].
  - reflexivity.
  - discriminate.
  - rewrite H. reflexivity.
Defined.

Section Substring.

Lemma includes_prefix (t q : string) :
  String.prefix q t = true -> includes t q = true.
Proof. intros H. destruct t; cbn [includes]; rewrite H; reflexivity. Qed.

Lemma includes_cons (a : ascii) (t q : string) :
  includes t q = true -> includes (String a t) q = true.
Proof. intros H. cbn [includes]. rewrite H. apply orb_true_r. Qed.

Lemma prefix_trimEnd (t : string) : String.prefix (trimEnd t) t = true.
Proof.
  induction t as [|a t IH]; [reflexivity |]. cbn.
  destruct (is_whitespace a && String.eqb (trimEnd t) ""); [reflexivity |].
  cbn. destruct (ascii_dec a a); [exact IH | contradiction].
Qed.

(** A string contains its trimmed form. *)
Lemma includes_trim (t : string) : includes t (trim t) = true.
Proof.
  unfold trim. induction t as [|a t IH]; [reflexivity |].
  cbn [trimStart]. destruct (is_whitespace a).
  - apply includes_cons. exact IH.
  - apply includes_prefix, prefix_trimEnd.
Qed.

End Substring.

(** X15: what a successful refresh stored can be found again: searching
    for the name of the last source record carrying that name (a name
    equal to it under the collation) returns a result that contains a row
    with exactly that name, provided the name is not blank and its
    lower-cased, trimmed form has no [%], [_] or backslash. *)
Theorem X15_search_finds_refreshed
    (env : Env) (st : State) (pre post : list RawCountry) (c : RawCountry) :
  consistent (repo st) ->
  countries_response env = Some (pre ++ c :: post) ->
  (refreshCountriesandSave env st).2 = Ok tt ->
  Forall (fun c' => weight (repo st) (countryName c')
                    <> weight (repo st) (countryName c)) post ->
  blank (countryName c) = false ->
  plain (normalized (countryName c)) = true ->
  let final := repo (refreshCountriesandSave env st).1 in
  exists found r,
    findCountriesByName (JStr (countryName c)) final = Ok found
    /\ r ∈ found
    /\ name (fields r) = countryName c.
Proof.
  intros Hc Hcs Hok Hpost Hb Hp final.
  destruct (refresh_success env st Hok) as (cs & rates & Hcs' & Hrs & Hl & _).
  rewrite Hcs in Hcs'. injection Hcs' as <-.
  set (st0 := emit [FetchRates] (emit [FetchCountries] st)) in *.
  assert (Hw : forall j, (j < length (pre ++ c :: post))%nat ->
                         write_fault env j = None).
  { intros j Hj.
    apply (processCountries_completes_inv env (default ∅ rates)
             (pre ++ c :: post) 0 st0 Hl j Hj). }
  destruct (processCountries_last_wins env (default ∅ rates) st0 pre post c
              Hc Hw Hpost) as (r & Hnamed & Hf & _).
  assert (Hfinal : final
                   = repo (processCountries env (default ∅ rates) 0
                             (pre ++ c :: post) st0).1).
  { unfold final. rewrite refresh_repo, Hcs, Hrs. reflexivity. }
  rewrite <- Hfinal in Hnamed.
  destruct (named_head _ _ _ _ Hnamed) as (_ & Hrin & _).
  assert (Hr : name (fields r) = countryName c).
  { rewrite Hf, holds_name. apply transform_fields. }
  assert (Hfound : r ∈ containing (normalized (countryName c)) final).
  { apply list_elem_of_In, filter_In. split.
    - apply list_elem_of_In. exact Hrin.
    - rewrite Hr. unfold normalized. apply includes_trim. }
  exists (containing (normalized (countryName c)) final), r.
  split; [| split; [exact Hfound | exact Hr]].
  rewrite (findCountriesByName_valid _ final Hb).
  rewrite (getMany_plain _ final Hp). fold (normalized (countryName c)).
  destruct (containing (normalized (countryName c)) final);
    [inversion Hfound | reflexivity].
Qed.

Lemma X15_search_finds_refreshed_witness :
  exists found r,
    findCountriesByName (JStr "France")
      (repo (refreshCountriesandSave
               (calm ([france_lowercase] ++ france :: [uk])) initial).1)
    = Ok found
    /\ r ∈ found /\ name (fields r) = "France".
Proof.
  destruct (X15_search_finds_refreshed
              (calm ([france_lowercase] ++ france :: [uk])) initial
              [france_lowercase] [uk] france) as (found & r & H).
  - exact emptyRepo_consistent.
  - reflexivity.
  - reflexivity.
  - repeat constructor. discriminate.
  - reflexivity.
  - reflexivity.
  - exists found, r. exact H.
Defined.

(** ** Further properties: source URLs *)

(** X16: the URLs the refresh uses are never empty: each is the first
    non-empty value among the loaded configuration entry, the environment
    variable and the built-in default: the configuration entry when it is
    non-empty, else the environment variable when that is non-empty, else
    the default.  When the configuration entry is the one [api.config]
    computes from the process environment, the service's own fall-backs
    are never reached: the URL is the environment variable if that is set
    and non-empty, and the default otherwise. *)
Theorem X16_source_urls
    (get : string -> option string) (penv : gmap string string) :
  countriesUrl get <> "" /\ exchangeRateUrl get <> ""
  /\ (forall s, s <> "" ->
        (get "api.countries.url" = Some s -> countriesUrl get = s)
        /\ (get "api.exchangeRate.url" = Some s -> exchangeRateUrl get = s))
  /\ (forall s, s <> "" ->
        (truthy_str (get "api.countries.url") = false ->
         get "COUNTRIES_API_URL" = Some s -> countriesUrl get = s)
        /\ (truthy_str (get "api.exchangeRate.url") = false ->
            get "EXCHANGE_RATE_API_URL" = Some s -> exchangeRateUrl get = s))
  /\ (truthy_str (get "api.countries.url") = false ->
      truthy_str (get "COUNTRIES_API_URL") = false ->
      countriesUrl get = defaultCountriesUrl)
  /\ (truthy_str (get "api.exchangeRate.url") = false ->
      truthy_str (get "EXCHANGE_RATE_API_URL") = false ->
      exchangeRateUrl get = defaultExchangeRateUrl)
  /\ countries_url (apiConfig penv) <> ""
  /\ exchangeRate_url (apiConfig penv) <> ""
  /\ (get "api.countries.url" = Some (countries_url (apiConfig penv)) ->
      countriesUrl get
      = or_str (penv !! "COUNTRIES_API_URL") defaultCountriesUrl)
  /\ (get "api.exchangeRate.url" = Some (exchangeRate_url (apiConfig penv)) ->
      exchangeRateUrl get
      = or_str (penv !! "EXCHANGE_RATE_API_URL") defaultExchangeRateUrl).
Proof.
  assert (Hfalsy : forall o d, truthy_str o = false -> or_str o d = d).
  { intros o d H. unfold truthy_str, or_str in *. destruct o as [s|]; [| reflexivity].
    apply negb_false_iff in H. rewrite H. reflexivity. }
  assert (Hsome : forall s d, s <> "" -> or_str (Some s) d = s).
  { intros s d H. unfold or_str. apply String.eqb_neq in H. rewrite H.
    reflexivity. }
  assert (Hc : forall o, or_str o defaultCountriesUrl <> "")
    by (intros; apply or_str_nonempty; discriminate).
  assert (He : forall o, or_str o defaultExchangeRateUrl <> "")
    by (intros; apply or_str_nonempty; discriminate).
  unfold countriesUrl, exchangeRateUrl.
  split; [apply or_str_nonempty, Hc |].
  split; [apply or_str_nonempty, He |].
  split.
  { intros s Hs. split; intros ->; apply Hsome; exact Hs. }
  split.
  { intros s Hs. split; intros H1 ->; rewrite (Hfalsy _ _ H1);
      apply Hsome; exact Hs. }
  split; [intros H1 H2; rewrite (Hfalsy _ _ H1), (Hfalsy _ _ H2); reflexivity |].
  split; [intros H1 H2; rewrite (Hfalsy _ _ H1), (Hfalsy _ _ H2); reflexivity |].
  split; [apply Hc |]. split; [apply He |].
  split; intros ->; apply Hsome; cbn; [apply Hc | apply He].
Qed.

(** An environment variable that is set but empty gives the default; one
    that is set gives itself when no configuration is loaded. *)
Lemma X16_source_urls_witness :
  countriesUrl (loadedConfig {[ "COUNTRIES_API_URL" := "" ]})
  = defaultCountriesUrl
  /\ countriesUrl
       (fun key => ({[ "COUNTRIES_API_URL" := "http://localhost/all" ]}
                      : gmap string string) !! key)
     = "http://localhost/all".
Proof.
  split.
  - destruct (X16_source_urls (loadedConfig {[ "COUNTRIES_API_URL" := "" ]})
                {[ "COUNTRIES_API_URL" := "" ]})
      as (_ & _ & _ & _ & _ & _ & _ & _ & H & _).
    rewrite H; reflexivity.
  - destruct (X16_source_urls
                (fun key => ({[ "COUNTRIES_API_URL" := "http://localhost/all" ]}
                               : gmap string string) !! key) ∅)
      as (_ & _ & _ & H & _).
    destruct (H "http://localhost/all") as [H1 _]; [discriminate |].
    apply H1; reflexivity.
Defined.

(** ** Further properties: the transformer's inputs *)






(** X18: the transformer reads the rate mapping only at the code of the
    first currency, and the random value only for the estimate: two
    mappings that agree at that code give the same record and the same
    actions, and two random values give records that differ at most in
    the estimate (and in nothing when no estimate is computed). *)
Theorem X18_transform_dependencies
    (rates1 rates2 : gmap string Q) (r1 r2 : Q) (c : RawCountry) :
  ((forall k, firstCode c = Value k -> rates1 !! k = rates2 !! k) ->
     transform rates1 r1 c = transform rates2 r1 c)
  /\ (let d1 := (transform rates1 r1 c).1 in
      let d2 := (transform rates1 r2 c).1 in
      name d1 = name d2 /\ capital d1 = capital d2 /\ region d1 = region d2
      /\ population d1 = population d2
      /\ currency_code d1 = currency_code d2
      /\ exchange_rate d1 = exchange_rate d2
      /\ flag_url d1 = flag_url d2
      /\ (transform rates1 r1 c).2 = (transform rates1 r2 c).2)
  /\ (drawsRandom rates1 c = false ->
      transform rates1 r1 c = transform rates1 r2 c).
Proof.
  split; [| split].
  - intros Hagree.
    assert (Hrc : resolveCurrency rates1 c = resolveCurrency rates2 c).
    { unfold resolveCurrency. destruct (hasCurrency c); [| reflexivity].
      cbn zeta. destruct (firstCode c) as [| |k] eqn:Hk; try reflexivity.
      unfold getRate. rewrite (Hagree k eq_refl). reflexivity. }
    unfold transform. rewrite Hrc. reflexivity.
  - unfold transform.
    destruct (resolveCurrency rates1 c) as [[cc er] ls].
    cbn. repeat split; reflexivity.
  - unfold drawsRandom, transform.
    destruct (resolveCurrency rates1 c) as [[cc er] ls]. cbn [fst snd].
    intros Hno. rewrite !(estimatedGbp_skipped _ _ _ Hno). reflexivity.
Qed.

Lemma X18_transform_dependencies_witness :
  transform euroRates 0%Q france
  = transform {[ "EUR" := (9 # 10)%Q; "JPY" := 150%Q ]} 0%Q france.
Proof.
  destruct (X18_transform_dependencies
              euroRates {[ "EUR" := (9 # 10)%Q; "JPY" := 150%Q ]}
              0%Q 0%Q france) as (H & _).
  apply H. intros k [= <-]. reflexivity.
Defined.
